(** * dumpcap: the pipe-message codec and the capture / statistics sessions

    A shallow embedding of [util.go] (the binary control protocol of
    dumpcap's child mode) and of the session code of the package (the decode
    goroutines started by [NewCapture] / [NewStatistics], and [Wait]).

    Conventions.
    - A Go [string] or [[]byte] is a [list byte]; [int] and [uint64] values
      are [Z], with the wrap-around of [uint64] arithmetic written out.
    - An [io.Reader] is the sequence of bytes it is going to deliver together
      with the error its [Read] reports once they are used up ([io.EOF] for
      [bytes.NewReader] and for a pipe closed by the writer).
    - Fallible functions return [result]; Go's [(value, nil)] is [Ok value]
      and [(zero, err)] is [Fail err]. *)

From Stdlib Require Import ZArith List Bool Lia Arith.
From Stdlib Require Import Strings.Byte.
From Stdlib Require Strings.String.
Import String.StringSyntax.
Delimit Scope string_scope with string.
Import ListNotations.
Local Open Scope Z_scope.

(* ================================================================== *)
(** ** Errors and results *)

(** The two failures of [strconv.ParseUint]. *)
Inductive NumErrKind : Type := ErrSyntax | ErrRange.

(** The error values that flow through the package. *)
Inductive error : Type :=
| EOF                                  (* io.EOF *)
| ErrUnexpectedEOF                     (* io.ErrUnexpectedEOF *)
| PathError                            (* os.PathError: the pipe was closed under the reader *)
| ReadError (code : nat)               (* any other failure reported by a Read *)
| NumError (k : NumErrKind)            (* strconv.NumError *)
| IllegalOutput                        (* errors.New("illegal output from dumpcap") *)
| UnexpectedMessage (t : byte)         (* errors.New("Unexpected message from dumpcap: ...") *)
| ExitError (code : nat).              (* a failure of child.Wait() *)

Inductive result (A : Type) : Type :=
| Ok (a : A)
| Fail (e : error).
Arguments Ok {A} a.
Arguments Fail {A} e.

Definition bind {A B : Type} (r : result A) (k : A -> result B) : result B :=
  match r with
  | Ok a => k a
  | Fail e => Fail e
  end.

Notation "'let*' x ':=' r 'in' k" := (bind r (fun x => k))
  (at level 10, x pattern, r at level 100, k at level 200).

(** The type assertion of [err] to a pointer to [os.PathError] succeeds. *)
Definition isPathError (e : error) : bool :=
  match e with PathError => true | _ => false end.

Definition isEOF (e : error) : bool :=
  match e with EOF => true | _ => false end.

(** The taxonomy of the specification: a decode error is a failure to
    interpret bytes that were read; an I/O error is a failure to read them;
    [io.EOF] is the end-of-stream condition and neither of the two. *)
Definition isDecodeError (e : error) : bool :=
  match e with NumError _ | IllegalOutput => true | _ => false end.

Definition isIOError (e : error) : bool :=
  match e with ErrUnexpectedEOF | PathError | ReadError _ => true | _ => false end.

(* ================================================================== *)
(** ** Bytes *)

Definition byteZ (b : byte) : Z := Z.of_N (Byte.to_N b).

(** Go's conversion [byte(n)] of an [int]: the low eight bits. *)
Definition Zbyte (z : Z) : byte :=
  match Byte.of_N (Z.to_N (z mod 256)) with
  | Some b => b
  | None => x00
  end.

(** The message headers, from [sync_pipe.h]. *)
Definition BadFilterMsg : byte := x42.   (* 66 *)
Definition DropCountMsg : byte := x44.   (* 68 *)
Definition ErrMsg : byte := x45.         (* 69 *)
Definition FileMsg : byte := x46.        (* 70 *)
Definition PacketCountMsg : byte := x50. (* 80 *)
Definition QuitMsg : byte := x51.        (* 81 *)
Definition SuccessMsg : byte := x53.     (* 83 *)

Record PipeMessage : Type := mkPipeMessage {
  Type_ : byte;
  DropCount : Z;
  PacketCount : Z;
  Text : list byte
}.

(* ================================================================== *)
(** ** Readers *)

Record Reader : Type := mkReader {
  pending : list byte;   (* what is still to be read *)
  closing : error        (* what Read reports after that *)
}.

(** [bytes.NewReader] *)
Definition NewReader (b : list byte) : Reader := mkReader b EOF.

(** [io.ReadFull(r, buf)] with [len(buf) = n]: exactly [n] bytes, or the
    reader's error; [io.EOF] only if no byte was read, and
    [io.ErrUnexpectedEOF] if [io.EOF] came after some but not all bytes. *)
Definition ReadFull (r : Reader) (n : nat) : result (list byte * Reader) :=
  if (n <=? length (pending r))%nat then
    Ok (firstn n (pending r), mkReader (skipn n (pending r)) (closing r))
  else
    match pending r with
    | [] => Fail (closing r)
    | _ :: _ => Fail (if isEOF (closing r) then ErrUnexpectedEOF else closing r)
    end.

(* ================================================================== *)
(** ** strconv.ParseUint, base 10 *)

(** [strconv.IntSize] of the platform the package is built for. *)
Definition IntSize : Z := 64.

Definition maxUint64 : Z := 2 ^ 64 - 1.

Definition isDigit (c : byte) : bool :=
  (byteZ x30 <=? byteZ c) && (byteZ c <=? byteZ x39).

(** The digit loop of [ParseUint] for base 10: [n] is the value so far;
    the multiplication and the addition are those of [uint64]. *)
Fixpoint parseDigits (maxVal : Z) (n : Z) (s : list byte) : result Z :=
  match s with
  | [] => Ok n
  | c :: s' =>
      if isDigit c then
        let d := byteZ c - byteZ x30 in
        let cutoff := maxUint64 / 10 + 1 in
        if cutoff <=? n then Fail (NumError ErrRange)
        else
          let n := (n * 10) mod 2 ^ 64 in
          let n1 := (n + d) mod 2 ^ 64 in
          if (n1 <? n) || (maxVal <? n1) then Fail (NumError ErrRange)
          else parseDigits maxVal n1 s'
      else Fail (NumError ErrSyntax)
  end.

(** [strconv.ParseUint(s, 10, bitSize)] for [bitSize] in 0..64. *)
Definition ParseUint10 (s : list byte) (bitSize : Z) : result Z :=
  match s with
  | [] => Fail (NumError ErrSyntax)
  | _ :: _ =>
      let bitSize := if bitSize =? 0 then IntSize else bitSize in
      let maxVal := (2 ^ bitSize mod 2 ^ 64 - 1) mod 2 ^ 64 in
      parseDigits maxVal 0 s
  end.

(* ================================================================== *)
(** ** util.go: the codec *)

(** [if len(buffer) > 0 && buffer[len(buffer)-1] == 0 { buffer = buffer[:len(buffer)-1] }] *)
Definition stripNUL (buffer : list byte) : list byte :=
  if (0 <? length buffer)%nat
     && Byte.eqb (nth (length buffer - 1) buffer x00) x00
  then firstn (length buffer - 1) buffer
  else buffer.

Definition msgSizeOf (buffer : list byte) : Z :=
  Z.lor (Z.lor (Z.shiftl (byteZ (nth 1 buffer x00)) 16)
               (Z.shiftl (byteZ (nth 2 buffer x00)) 8))
        (Z.shiftl (byteZ (nth 3 buffer x00)) 0).

(** [parsePipeMsg] reads one message and returns its type and its text;
    the third component is the reader after the message. *)
Definition parsePipeMsg (input : Reader) : result (byte * list byte * Reader) :=
  let* (buffer, input) := ReadFull input 4 in
  let msgType := nth 0 buffer x00 in
  let msgSize := msgSizeOf buffer in
  if msgSize =? 0 then Ok (msgType, [], input)
  else
    let* (buffer, input) := ReadFull input (Z.to_nat msgSize) in
    Ok (msgType, stripNUL buffer, input).

(** [parsePipeErrMsg] reads the message text associated with an ErrMsg. *)
Definition parsePipeErrMsg (input : Reader) : result (list byte) :=
  let* (_, err1, input) := parsePipeMsg input in
  let* (_, err2, input) := parsePipeMsg input in
  Ok (err1 ++ err2).

(** [readPipeMsg] completely decodes a message sent by dumpcap. *)
Definition readPipeMsg (input : Reader) : result (PipeMessage * Reader) :=
  let* (msgType, msgBuffer, input) := parsePipeMsg input in
  let msg := mkPipeMessage msgType 0 0 msgBuffer in
  if Byte.eqb msgType DropCountMsg then
    let* i := ParseUint10 (Text msg) 0 in
    Ok (mkPipeMessage (Type_ msg) i (PacketCount msg) (Text msg), input)
  else if Byte.eqb msgType ErrMsg then
    let* errmsg := parsePipeErrMsg (NewReader msgBuffer) in
    Ok (mkPipeMessage (Type_ msg) (DropCount msg) (PacketCount msg) errmsg, input)
  else if Byte.eqb msgType PacketCountMsg then
    let* i := ParseUint10 (Text msg) 0 in
    Ok (mkPipeMessage (Type_ msg) (DropCount msg) i (Text msg), input)
  else Ok (msg, input).

(** [waitForSuccessMsg] returns nil iff a success message is decoded. *)
Definition waitForSuccessMsg (input : Reader) : option error :=
  match readPipeMsg input with
  | Fail e => Some e
  | Ok (msg, _) =>
      if Byte.eqb (Type_ msg) SuccessMsg then None
      else Some (UnexpectedMessage (Type_ msg))
  end.

(* ------------------------------------------------------------------ *)
(** *** dumpcap_test.go: the encoder used by the tests *)

Definition generateMsg (msgType : byte) (msgText : list byte) : list byte :=
  let msgText := msgText ++ [x00] in
  let msgLen := Z.of_nat (length msgText) in
  [msgType; Zbyte (Z.shiftr msgLen 16); Zbyte (Z.shiftr msgLen 8); Zbyte msgLen]
    ++ msgText.

Definition generateErrorMsg (msgText1 msgText2 : list byte) : list byte :=
  let msg := generateMsg ErrMsg msgText1 in
  let msg := msg ++ generateMsg ErrMsg msgText2 in
  generateMsg ErrMsg msg.

Definition bytes (s : String.string) : list byte := String.list_byte_of_string s.
Arguments bytes s%_string.

(** The wire format: one type byte, the length of the payload as three
    bytes, most significant first, and the payload. *)
Definition encodeFrame (t : byte) (payload : list byte) : list byte :=
  let n := Z.of_nat (length payload) in
  [t; Zbyte (Z.shiftr n 16); Zbyte (Z.shiftr n 8); Zbyte n] ++ payload.

(** What [readPipeMsg] does after [parsePipeMsg], by message type. *)
Definition interpret (msgType : byte) (msgBuffer : list byte) : result PipeMessage :=
  if Byte.eqb msgType DropCountMsg then
    let* i := ParseUint10 msgBuffer 0 in Ok (mkPipeMessage msgType i 0 msgBuffer)
  else if Byte.eqb msgType ErrMsg then
    let* errmsg := parsePipeErrMsg (NewReader msgBuffer) in
    Ok (mkPipeMessage msgType 0 0 errmsg)
  else if Byte.eqb msgType PacketCountMsg then
    let* i := ParseUint10 msgBuffer 0 in Ok (mkPipeMessage msgType 0 i msgBuffer)
  else Ok (mkPipeMessage msgType 0 0 msgBuffer).

(* ================================================================== *)
(** ** What [ParseUint10] accepts *)

(** The text of a base-10 unsigned integer: one or more ASCII digits. *)
Definition isDecimal (s : list byte) : bool :=
  match s with
  | [] => false
  | _ :: _ => forallb isDigit s
  end.

(** The number that a sequence of digits denotes, most significant first. *)
Definition decimalFrom (n : Z) (s : list byte) : Z :=
  fold_left (fun a c => 10 * a + (byteZ c - 48)) s n.

Definition decimalValue (s : list byte) : Z := decimalFrom 0 s.

(* ================================================================== *)
(** ** The statistics line *)

Definition TAB : byte := x09.

(** [strings.Cut(s, sep)] for a one-byte separator: the text before the
    first separator and the text after it. *)
Fixpoint cut (s : list byte) (sep : byte) : option (list byte * list byte) :=
  match s with
  | [] => None
  | c :: s' =>
      if Byte.eqb c sep then Some ([], s')
      else match cut s' sep with
           | Some (before, after) => Some (c :: before, after)
           | None => None
           end
  end.

(** [strings.SplitN(s, sep, n)] for a one-byte separator and [n >= 0]: at
    most [n] pieces, the last one being the unsplit remainder. *)
Fixpoint SplitN (s : list byte) (sep : byte) (n : nat) : list (list byte) :=
  match n with
  | O => []
  | S O => [s]
  | S n' =>
      match cut s sep with
      | Some (before, after) => before :: SplitN after sep n'
      | None => [s]
      end
  end.

Record DeviceStatistics : Type := mkDeviceStatistics {
  Name : list byte;
  StatPacketCount : Z;
  StatDropCount : Z
}.

(** [parseStatisticsLine]; the values that Go returns beside a non-nil
    error are dropped (the caller does not look at them). *)
Definition parseStatisticsLine (line : list byte) : result (list byte * Z * Z) :=
  let cols := SplitN line TAB 3 in
  if negb (length cols =? 3)%nat then Fail IllegalOutput
  else
    let devname := nth 0 cols [] in
    let* packetcount := ParseUint10 (nth 1 cols []) 64 in
    let* dropcount := ParseUint10 (nth 2 cols []) 64 in
    Ok (devname, packetcount, dropcount).

(* ================================================================== *)
(** ** Channels *)

(** A Go channel: what is buffered, the capacity, and whether it is closed. *)
Record Chan (A : Type) : Type := mkChan {
  buf : list A;
  cap : nat;
  closed : bool
}.
Arguments mkChan {A} buf cap closed.
Arguments buf {A} c.
Arguments cap {A} c.
Arguments closed {A} c.

(** [make(chan A, n)] *)
Definition make (A : Type) (n : nat) : Chan A := mkChan [] n false.

(** The three ways an operation on a channel can go. *)
Inductive outcome (A : Type) : Type :=
| Done (a : A)
| Blocks
| Panics.
Arguments Done {A} a.
Arguments Blocks {A}.
Arguments Panics {A}.

(** [close(c)]: panics on a closed channel. *)
Definition chan_close {A : Type} (c : Chan A) : outcome (Chan A) :=
  if closed c then Panics else Done (mkChan (buf c) (cap c) true).

(** [c <- v] with no receiver waiting: panics on a closed channel, blocks
    when the buffer is full. *)
Definition chan_send {A : Type} (c : Chan A) (v : A) : outcome (Chan A) :=
  if closed c then Panics
  else if (length (buf c) <? cap c)%nat then Done (mkChan (buf c ++ [v]) (cap c) false)
  else Blocks.

(** [<-c] with no sender waiting: the oldest buffered value; the zero value
    ([None]: a nil error) from a closed and drained channel. *)
Definition chan_recv {A : Type} (c : Chan A) : outcome (option A * Chan A) :=
  match buf c with
  | v :: rest => Done (Some v, mkChan rest (cap c) (closed c))
  | [] => if closed c then Done (None, c) else Blocks
  end.

(* ================================================================== *)
(** ** Sessions: the decode goroutine and Wait *)

(** What one turn of the decode loop gets from its input: a decoded value
    and the input after it, or the end of the loop with the error (if any)
    that the goroutine reports on [exitStatus]. *)
Inductive Fetched (I S : Type) : Type :=
| Item (m : I) (s : S)
| Stop (e : option error).
Arguments Item {I S} m s.
Arguments Stop {I S} e.

(** Where the decode goroutine stands. *)
Inductive TaskPC (I : Type) : Type :=
| TLoop                 (* at the top of the loop, about to read *)
| TReport (e : error)   (* at  exitStatus <- err *)
| TSelect (m : I)       (* at the select, holding the decoded value *)
| TDeferExit            (* returned: the deferred close(exitStatus) is next *)
| TDeferOut             (* the deferred close of the output channel is next *)
| TDone                 (* the goroutine has ended *)
| TPanic.               (* the goroutine has panicked *)
Arguments TLoop {I}.
Arguments TReport {I} e.
Arguments TSelect {I} m.
Arguments TDeferExit {I}.
Arguments TDeferOut {I}.
Arguments TDone {I}.
Arguments TPanic {I}.

(** Where a call of [Wait] stands; [cr] is what [child.Wait()] returned. *)
Inductive WaitPC : Type :=
| WIdle                                      (* Wait has not been called *)
| WGotExit (cr : option error)               (* at  if err != nil *)
| WReceiving                                 (* quit is closed; at  <-exitStatus *)
| WReturned (cr : option error) (r : option error)   (* Wait returned r *)
| WPanicked.                                 (* close of the closed quit channel *)

(** What has happened, for the record. *)
Inductive Event : Type :=
| EvFetch                        (* the goroutine read and decoded (or failed to) *)
| EvSend                         (* a value was handed over on the output channel *)
| EvQuitSeen                     (* the select took the quit case *)
| EvSendExit (e : error)         (* exitStatus <- e *)
| EvCloseExit                    (* close(exitStatus) *)
| EvCloseOut                     (* close(Messages) / close(Stats) *)
| EvTaskPanic
| EvChildWait (cr : option error)(* child.Wait() returned cr *)
| EvFailReturn (e : error)       (* Wait returned the failure of child.Wait() *)
| EvCloseQuit                    (* close(quit) *)
| EvRecvReturn (r : option error)(* Wait returned what it received from exitStatus *)
| EvWaitPanic.

(** Events of the decode goroutine. *)
Definition isTaskEvent (ev : Event) : bool :=
  match ev with
  | EvFetch | EvSend | EvQuitSeen | EvSendExit _ | EvCloseExit | EvCloseOut
  | EvTaskPanic => true
  | _ => false
  end.

Definition isCloseOut (ev : Event) : bool :=
  match ev with EvCloseOut => true | _ => false end.

Definition isCloseQuit (ev : Event) : bool :=
  match ev with EvCloseQuit => true | _ => false end.

Definition isSendExit (ev : Event) : bool :=
  match ev with EvSendExit _ => true | _ => false end.

Definition isRecvReturn (ev : Event) : bool :=
  match ev with EvRecvReturn _ => true | _ => false end.

(** Events by which the goroutine touches the output channel or reads. *)
Definition isWork (ev : Event) : bool :=
  match ev with EvFetch | EvSend => true | _ => false end.

(** How the scheduler and the environment move a session on. *)
Inductive Choice : Type :=
| RunTask                       (* the goroutine runs its next statement, if it can *)
| Receive                       (* the consumer receives from the output channel *)
| CallWait (cr : option error)  (* the caller calls Wait; child.Wait() returns cr *)
| RunWait.                      (* Wait runs its next statement, if it can *)

Section Session.

Variables I S : Type.

(** One turn of the decode loop up to the select: [readPipeMsg] and the
    classification of its error for a capture, [Scan] and
    [parseStatisticsLine] for statistics. *)
Variable fetch : S -> Fetched I S.

(** A session after [NewCapture] / [NewStatistics] has returned it. *)
Record Session : Type := mkSession {
  input : S;                   (* c.stderr / the scanner over stats.stdout *)
  task : TaskPC I;             (* the decode goroutine *)
  output : Chan I;             (* c.Messages / stats.Stats *)
  exitStatus : Chan error;     (* make(chan error, 1) *)
  quit : Chan nat;             (* make(chan int) *)
  waiter : WaitPC;             (* the caller's Wait *)
  received : list I;           (* what the consumer got, oldest first *)
  history : list Event         (* what happened, newest first *)
}.

Definition init (i : S) : Session :=
  mkSession i TLoop (make I 0) (make error 1) (make nat 0) WIdle [] [].

(** A panic of either goroutine ends the program. *)
Definition crashed (s : Session) : bool :=
  match task s, waiter s with
  | TPanic, _ => true
  | _, WPanicked => true
  | _, _ => false
  end.

Definition taskPanics (s : Session) : Session :=
  mkSession (input s) TPanic (output s) (exitStatus s) (quit s) (waiter s)
            (received s) (EvTaskPanic :: history s).

(** The next statement of the decode goroutine.  When the decoder stops,
    [input] keeps the position at which the last read began: the goroutine
    does not read again, and what that read consumed is not recorded. *)
Definition stepTask (s : Session) : Session :=
  match task s with
  | TLoop =>
      match fetch (input s) with
      | Item m i' =>
          mkSession i' (TSelect m) (output s) (exitStatus s) (quit s) (waiter s)
                    (received s) (EvFetch :: history s)
      | Stop (Some e) =>
          mkSession (input s) (TReport e) (output s) (exitStatus s) (quit s)
                    (waiter s) (received s) (EvFetch :: history s)
      | Stop None =>
          mkSession (input s) TDeferExit (output s) (exitStatus s) (quit s)
                    (waiter s) (received s) (EvFetch :: history s)
      end
  | TReport e =>
      match chan_send (exitStatus s) e with
      | Done c =>
          mkSession (input s) TDeferExit (output s) c (quit s) (waiter s)
                    (received s) (EvSendExit e :: history s)
      | Blocks => s
      | Panics => taskPanics s
      end
  | TSelect m =>
      (* a select with a send on a closed channel panics *)
      if closed (output s) then taskPanics s
      else
        match chan_recv (quit s) with
        | Done _ =>
            mkSession (input s) TDeferExit (output s) (exitStatus s) (quit s)
                      (waiter s) (received s) (EvQuitSeen :: history s)
        | _ => s
        end
  | TDeferExit =>
      match chan_close (exitStatus s) with
      | Done c =>
          mkSession (input s) TDeferOut (output s) c (quit s) (waiter s)
                    (received s) (EvCloseExit :: history s)
      | _ => taskPanics s
      end
  | TDeferOut =>
      match chan_close (output s) with
      | Done c =>
          mkSession (input s) TDone c (exitStatus s) (quit s) (waiter s)
                    (received s) (EvCloseOut :: history s)
      | _ => taskPanics s
      end
  | TDone => s
  | TPanic => s
  end.

(** The consumer receives from the output channel: if the goroutine is at
    its select, the send case goes through. *)
Definition stepReceive (s : Session) : Session :=
  match task s with
  | TSelect m =>
      if closed (output s) then taskPanics s
      else mkSession (input s) TLoop (output s) (exitStatus s) (quit s) (waiter s)
                     (received s ++ [m]) (EvSend :: history s)
  | _ => s
  end.

(** [err := c.child.Wait()] *)
Definition stepCallWait (cr : option error) (s : Session) : Session :=
  match waiter s with
  | WIdle | WReturned _ _ =>
      mkSession (input s) (task s) (output s) (exitStatus s) (quit s) (WGotExit cr)
                (received s) (EvChildWait cr :: history s)
  | _ => s
  end.

(** The statements of [Wait] after [child.Wait()]. *)
Definition stepWait (s : Session) : Session :=
  match waiter s with
  | WGotExit (Some e) =>
      (* if err != nil { return err } *)
      mkSession (input s) (task s) (output s) (exitStatus s) (quit s)
                (WReturned (Some e) (Some e)) (received s) (EvFailReturn e :: history s)
  | WGotExit None =>
      (* close(c.quit) *)
      match chan_close (quit s) with
      | Done q =>
          mkSession (input s) (task s) (output s) (exitStatus s) q WReceiving
                    (received s) (EvCloseQuit :: history s)
      | _ =>
          mkSession (input s) (task s) (output s) (exitStatus s) (quit s) WPanicked
                    (received s) (EvWaitPanic :: history s)
      end
  | WReceiving =>
      (* return <-c.exitStatus *)
      match chan_recv (exitStatus s) with
      | Done (r, c) =>
          mkSession (input s) (task s) (output s) c (quit s) (WReturned None r)
                    (received s) (EvRecvReturn r :: history s)
      | _ => s
      end
  | _ => s
  end.

Definition step (s : Session) (ch : Choice) : Session :=
  if crashed s then s
  else
    match ch with
    | RunTask => stepTask s
    | Receive => stepReceive s
    | CallWait cr => stepCallWait cr s
    | RunWait => stepWait s
    end.

Definition run (s : Session) (sched : list Choice) : Session :=
  fold_left step sched s.

(** The error that the goroutine put on [exitStatus], read off the record. *)
Definition reported (h : list Event) : option error :=
  match find isSendExit h with
  | Some (EvSendExit e) => Some e
  | _ => None
  end.

End Session.

Arguments mkSession {I S}.
Arguments input {I S} s.
Arguments task {I S} s.
Arguments output {I S} s.
Arguments exitStatus {I S} s.
Arguments quit {I S} s.
Arguments waiter {I S} s.
Arguments received {I S} s.
Arguments history {I S} s.
Arguments init {I S} i.
Arguments crashed {I S} s.
Arguments step {I S} fetch s ch.
Arguments run {I S} fetch s sched.
Arguments stepTask {I S} fetch s.
Arguments stepReceive {I S} s.
Arguments stepCallWait {I S} cr s.
Arguments stepWait {I S} s.

(** The loop body of the goroutine of [NewCapture], up to the select. *)
Definition captureFetch (stderr : Reader) : Fetched PipeMessage Reader :=
  match readPipeMsg stderr with
  | Ok (msg, stderr') => Item msg stderr'
  | Fail err =>
      if negb (isPathError err) && negb (isEOF err) then Stop (Some err)
      else Stop None
  end.

(** A [bufio.Scanner]: the lines that [Scan] is going to yield, and what
    [Err] returns after the last one. *)
Record Scanner : Type := mkScanner {
  lines : list (list byte);
  scanErr : option error
}.

(** The loop of the goroutine of [NewStatistics], up to the select, and
    the check of [scanner.Err()] after the loop. *)
Definition statisticsFetch (scanner : Scanner) : Fetched DeviceStatistics Scanner :=
  match lines scanner with
  | line :: rest =>
      match parseStatisticsLine line with
      | Fail err => Stop (Some err)
      | Ok (devname, packetcount, dropcount) =>
          Item (mkDeviceStatistics devname packetcount dropcount)
               (mkScanner rest (scanErr scanner))
      end
  | [] =>
      match scanErr scanner with
      | Some err => if negb (isPathError err) then Stop (Some err) else Stop None
      | None => Stop None
      end
  end.

(** The session that [NewCapture] returns, and its moves. *)
Definition NewCapture (stderr : Reader) : Session PipeMessage Reader := init stderr.
Definition captureRun := run captureFetch.

(** The session that [NewStatistics] returns, and its moves. *)
Definition NewStatistics (stdout : Scanner) : Session DeviceStatistics Scanner :=
  init stdout.
Definition statisticsRun := run statisticsFetch.

(* ================================================================== *)
(** ** Reading the record of a session *)

(** The output channel was closed once, and the goroutine did nothing
    after that ([h] is newest first). *)
Fixpoint quietSinceClose (h : list Event) : bool :=
  match h with
  | [] => false
  | ev :: h' =>
      if isCloseOut ev then negb (existsb isCloseOut h')
      else negb (isTaskEvent ev) && quietSinceClose h'
  end.

(** No read and no hand-over after the goroutine reported an error. *)
Fixpoint noWorkAfterReport (h : list Event) : bool :=
  match h with
  | [] => true
  | ev :: h' =>
      (if isWork ev then negb (existsb isSendExit h') else true)
      && noWorkAfterReport h'
  end.

(** At most one error was reported. *)
Fixpoint reportedOnce (h : list Event) : bool :=
  match h with
  | [] => true
  | ev :: h' =>
      (if isSendExit ev then negb (existsb isSendExit h') else true)
      && reportedOnce h'
  end.

(** The invariant of a session: what each position of the goroutine and of
    [Wait] says about the channels and about the record. *)
Section Invariant.

Variables I S : Type.
Variable fetch : S -> Fetched I S.

Definition taskInv (s : Session I S) : Prop :=
  let h := history s in
  match task s with
  | TLoop | TSelect _ | TReport _ =>
      closed (output s) = false /\ closed (exitStatus s) = false
      /\ existsb isSendExit h = false /\ reported h = None
      /\ existsb isRecvReturn h = false /\ existsb isCloseOut h = false
  | TDeferExit =>
      closed (output s) = false /\ closed (exitStatus s) = false
      /\ existsb isCloseOut h = false
  | TDeferOut =>
      closed (output s) = false /\ closed (exitStatus s) = true
      /\ existsb isCloseOut h = false
  | TDone =>
      closed (output s) = true /\ closed (exitStatus s) = true
      /\ quietSinceClose h = true
  | TPanic => False
  end.

Definition slotInv (s : Session I S) : Prop :=
  let h := history s in
  cap (exitStatus s) = 1%nat
  /\ buf (exitStatus s)
     = match reported h with
       | Some e => if existsb isRecvReturn h then [] else [e]
       | None => []
       end.

Definition waitInv (s : Session I S) : Prop :=
  let h := history s in
  closed (quit s) = existsb isCloseQuit h
  /\ buf (quit s) = []
  /\ (existsb isRecvReturn h = true -> closed (quit s) = true)
  /\ match waiter s with
     | WReceiving => closed (quit s) = true /\ existsb isRecvReturn h = false
     | WReturned (Some e) r => r = Some e
     | WReturned None r =>
         r = reported h /\ (r = None -> closed (exitStatus s) = true)
         /\ closed (quit s) = true
     | _ => True
     end.

Definition orderInv (s : Session I S) : Prop :=
  noWorkAfterReport (history s) = true /\ reportedOnce (history s) = true.

Definition Inv (s : Session I S) : Prop :=
  taskInv s /\ slotInv s /\ waitInv s /\ orderInv s.

End Invariant.

Arguments Inv {I S} s.
Arguments taskInv {I S} s.
Arguments slotInv {I S} s.
Arguments waitInv {I S} s.
Arguments orderInv {I S} s.

(** Unfolds the fields of a session and the readings of its record. *)
Ltac session_simpl :=
  cbn [task input output exitStatus quit waiter received history
       existsb isSendExit isCloseOut isRecvReturn isCloseQuit isTaskEvent orb
       quietSinceClose noWorkAfterReport reportedOnce isWork negb andb
       reported find buf cap closed length app Nat.ltb Nat.leb] in *.

(** Closes the side goals of the invariant proofs. *)
Ltac finish :=
  repeat split; intros; try assumption; try reflexivity; try discriminate;
  try congruence; try tauto;
  try solve [intuition (try congruence; try discriminate)].

(* ================================================================== *)
(** ** The calls of Wait in the record *)

(** The events of the caller of [Wait], newest first. *)
Definition waitEvents (h : list Event) : list Event :=
  filter (fun ev => negb (isTaskEvent ev)) h.

(** The record of the current call of [Wait] matches where it stands. *)
Definition callInv {I S : Type} (s : Session I S) : Prop :=
  match waiter s with
  | WIdle => waitEvents (history s) = []
  | WGotExit cr => exists older, waitEvents (history s) = EvChildWait cr :: older
  | WReceiving =>
      exists older,
        waitEvents (history s) = EvCloseQuit :: EvChildWait None :: older
        /\ existsb isCloseQuit older = false
  | WReturned (Some e) r =>
      exists older,
        waitEvents (history s) = EvFailReturn e :: EvChildWait (Some e) :: older
  | WReturned None r =>
      exists older,
        waitEvents (history s)
        = EvRecvReturn r :: EvCloseQuit :: EvChildWait None :: older
        /\ existsb isCloseQuit older = false
  | WPanicked =>
      exists older,
        waitEvents (history s) = EvWaitPanic :: EvChildWait None :: older
        /\ existsb isCloseQuit older = true
  end.

(** The goroutine is on its way out: the input has ended or failed, or the
    quit channel is closed while it stands at the select, or it has left
    the loop already. *)
Definition leaving {I S : Type} (fetch : S -> Fetched I S) (s : Session I S) : Prop :=
  match task s with
  | TLoop => exists e, fetch (input s) = Stop e
  | TSelect _ => closed (quit s) = true
  | TPanic => False
  | _ => True
  end.

(* ================================================================== *)
(** ** What the claims about sessions say, for any decoder *)

(** The output channel is closed by the last statement of the goroutine
    and by nothing else: never while the goroutine is alive, exactly once
    when it has ended, with no event of the goroutine after the close; the
    goroutine does not panic; and once it is on its way out, it ends. *)
Definition closedOnceAfterExit {I S : Type} (fetch : S -> Fetched I S)
    (s : Session I S) : Prop :=
  task s <> TPanic
  /\ (closed (output s) = true <-> task s = TDone)
  /\ (task s <> TDone -> length (filter isCloseOut (history s)) = 0%nat)
  /\ (task s = TDone ->
      length (filter isCloseOut (history s)) = 1%nat
      /\ exists later earlier,
           history s = later ++ EvCloseOut :: earlier
           /\ existsb isTaskEvent later = false
           /\ existsb isCloseOut earlier = false)
  /\ (crashed s = false -> leaving fetch s ->
      task (run fetch s [RunTask; RunTask; RunTask; RunTask]) = TDone).

(** What a call of [Wait] that has returned has returned. *)
Definition waitResult {I S : Type} (s : Session I S) : Prop :=
  forall cr r, waiter s = WReturned cr r ->
    (r = None <-> cr = None /\ reported (history s) = None)
    /\ (forall e, cr = Some e -> r = Some e).

(** A failure of [child.Wait()] is returned by the next statement of
    [Wait], which touches neither [exitStatus] nor [quit]. *)
Definition failureFirst {I S : Type} (fetch : S -> Fetched I S)
    (s : Session I S) : Prop :=
  forall e, crashed s = false -> waiter s = WGotExit (Some e) ->
    waiter (step fetch s RunWait) = WReturned (Some e) (Some e)
    /\ exitStatus (step fetch s RunWait) = exitStatus s
    /\ quit (step fetch s RunWait) = quit s.

(** Every call of [Wait] that has returned has closed [quit] before. *)
Definition cancelsOnEveryReturn {I S : Type} (s : Session I S) : Prop :=
  forall cr r, waiter s = WReturned cr r -> closed (quit s) = true.

(** The order of the statements of the last call of [Wait]: after a clean
    exit, [child.Wait()], then [close(quit)], then the receive, whose value
    is returned; after a failed exit, [child.Wait()], then the return of
    its failure, with [quit] as it was before the call. *)
Definition waitOrder {I S : Type} (s : Session I S) : Prop :=
  match waiter s with
  | WReturned None r =>
      (exists older,
         waitEvents (history s)
         = EvRecvReturn r :: EvCloseQuit :: EvChildWait None :: older)
      /\ closed (quit s) = true
      /\ r = reported (history s)
  | WReturned (Some e) r =>
      r = Some e
      /\ exists older,
           waitEvents (history s) = EvFailReturn e :: EvChildWait (Some e) :: older
           /\ closed (quit s) = existsb isCloseQuit older
  | _ => True
  end.

(** After a clean exit of the child, [Wait] returns once the goroutine has
    had four turns. *)
Definition waitReturns {I S : Type} (fetch : S -> Fetched I S)
    (s : Session I S) : Prop :=
  crashed s = false -> waiter s = WGotExit None -> closed (quit s) = false ->
  exists r,
    waiter (run fetch s [RunWait; RunTask; RunTask; RunTask; RunTask; RunWait])
    = WReturned None r.

(** The moves of the goroutine and of the consumer. *)
Definition isTaskSide (ch : Choice) : bool :=
  match ch with
  | RunTask | Receive => true
  | _ => false
  end.

(** A second call of [Wait] after one that closed [quit] panics, if
    [child.Wait()] returns nil again, whatever the goroutine and the
    consumer do in between. *)
Definition secondWaitPanics {I S : Type} (fetch : S -> Fetched I S)
    (s : Session I S) : Prop :=
  forall r mid,
    waiter s = WReturned None r -> forallb isTaskSide mid = true ->
    waiter (run fetch s (CallWait None :: mid ++ [RunWait])) = WPanicked.

(** A call of [Wait] returns what its own [child.Wait()] gave: from a
    state in which [Wait] can be called, and whatever the goroutine and the
    consumer do in between, a failure [e] of [child.Wait()] is what the
    next statement of [Wait] returns, with [exitStatus] and [quit] as they
    were (whether the goroutine has reported an error or not); and a call
    that returns after [child.Wait()] gave nil returns nil exactly if no
    error was put on [exitStatus]. *)
Definition surfacesExit {I S : Type} (fetch : S -> Fetched I S)
    (s : Session I S) : Prop :=
  (waiter s = WIdle \/ exists cr0 r0, waiter s = WReturned cr0 r0) ->
  forall mid1 mid2,
    forallb isTaskSide mid1 = true -> forallb isTaskSide mid2 = true ->
    (forall e,
       let before := run fetch s (CallWait (Some e) :: mid1) in
       let after := step fetch before RunWait in
       waiter before = WGotExit (Some e)
       /\ waiter after = WReturned (Some e) (Some e)
       /\ exitStatus after = exitStatus before
       /\ quit after = quit before)
    /\ (forall cr r,
          let after :=
            run fetch s (CallWait None :: mid1 ++ RunWait :: mid2 ++ [RunWait]) in
          waiter after = WReturned cr r ->
          cr = None /\ (r = None <-> reported (history after) = None)).



(* ================================================================== *)
(** ** The statistics line: fields and counts *)

(** The tab-separated fields of a line, all of them (what the
    specification counts). *)
Fixpoint tabFields (line : list byte) : list (list byte) :=
  match line with
  | [] => [[]]
  | c :: rest =>
      if Byte.eqb c TAB then [] :: tabFields rest
      else match tabFields rest with
           | f :: fs => (c :: f) :: fs
           | [] => [[c]]
           end
  end.

(** A count field: one or more ASCII digits whose value fits [uint64]. *)
Definition isCount (s : list byte) : Prop :=
  isDecimal s = true /\ decimalValue s < 2 ^ 64.

Definition statsLine : list byte :=
  bytes "devX" ++ TAB :: bytes "123" ++ TAB :: bytes "456".

(* ================================================================== *)
(** ** Two sentences of the specification, as they stand *)

(** The round trip as the specification states it: the frame written for
    [(t, text)] is decoded to a message of type [t] with text [text]. *)
Definition roundTrips (t : byte) (text : list byte) : Prop :=
  exists msg rest,
    readPipeMsg (NewReader (generateMsg t text)) = Ok (msg, rest)
    /\ Type_ msg = t /\ Text msg = text.

(** The population of the fields as the specification states it: exactly
    one of Text, PacketCount and DropCount is set, the one that the type
    selects, and the other two are at their zero values. *)
Definition exactlyOnePopulated (msg : PipeMessage) : Prop :=
  if Byte.eqb (Type_ msg) PacketCountMsg then
    PacketCount msg <> 0 /\ DropCount msg = 0 /\ Text msg = []
  else if Byte.eqb (Type_ msg) DropCountMsg then
    DropCount msg <> 0 /\ PacketCount msg = 0 /\ Text msg = []
  else
    Text msg <> [] /\ PacketCount msg = 0 /\ DropCount msg = 0.

(* ================================================================== *)
(** ** The inputs of the tests *)

(** The capture of the tests: a File, a PacketCount and a DropCount frame. *)
Definition testCapture : list byte :=
  generateMsg FileMsg (bytes "foobar")
  ++ generateMsg PacketCountMsg (bytes "123")
  ++ generateMsg DropCountMsg (bytes "456").

(** Each frame is read and received, then [Wait] is called after a clean
    exit of the child. *)
Definition testSchedule : list Choice :=
  [RunTask; Receive; RunTask; Receive; RunTask; Receive;
   CallWait None; RunWait; RunTask; RunTask; RunTask; RunWait].

(** The statistics session of the tests: two good lines, then gibberish,
    then a good line that is never read. *)
Definition testStats : Scanner :=
  mkScanner [statsLine; statsLine; bytes "foobar"; statsLine] None.

(* ================================================================== *)
(** ** What a session hands over *)

(** [Fetches fetch i ms i']: decoding from the input [i] yields the values
    [ms], one after the other, and leaves the input [i']. *)
Inductive Fetches {I S : Type} (fetch : S -> Fetched I S) : S -> list I -> S -> Prop :=
| Fetches_nil (i : S) : Fetches fetch i [] i
| Fetches_snoc (i : S) (ms : list I) (i' : S) (m : I) (i'' : S) :
    Fetches fetch i ms i' -> fetch i' = Item m i'' ->
    Fetches fetch i (ms ++ [m]) i''.

(** The goroutine has left its loop. *)
Definition pastLoop {I S : Type} (s : Session I S) : bool :=
  match task s with
  | TLoop | TSelect _ => false
  | _ => true
  end.

(** What the consumer got is, up to at most one decoded value that was not
    handed over (the one held at the select, or dropped at the quit
    signal), what decoding the input from [i0] yields, in order. *)
Definition deliversInOrder {I S : Type} (fetch : S -> Fetched I S) (i0 : S)
    (s : Session I S) : Prop :=
  exists extra,
    Fetches fetch i0 (received s ++ extra) (input s)
    /\ (length extra <= 1)%nat
    /\ (task s = TLoop -> extra = [])
    /\ (forall m, task s = TSelect m -> extra = [m]).

(** The frames of a capture, as the tests write them. *)
Definition encodeAll (frames : list (byte * list byte)) : list byte :=
  flat_map (fun f => generateMsg (fst f) (snd f)) frames.

(** The message that [readPipeMsg] makes of a frame of type [t] and text
    [text]. *)
Definition decodesTo (f : byte * list byte) (msg : PipeMessage) : Prop :=
  interpret (fst f) (snd f) = Ok msg.

(** The statistics that [parseStatisticsLine] makes of a line. *)
Definition parsesTo (line : list byte) (ds : DeviceStatistics) : Prop :=
  parseStatisticsLine line = Ok (Name ds, StatPacketCount ds, StatDropCount ds).

(** An error that the goroutine reports is the one its decoder gave
    right after the values that the consumer received. *)
Definition failedAfterReceived {I S : Type} (fetch : S -> Fetched I S) (i0 : S)
    (s : Session I S) : Prop :=
  (forall e, task s = TReport e ->
     Fetches fetch i0 (received s) (input s) /\ fetch (input s) = Stop (Some e))
  /\ (forall e, reported (history s) = Some e ->
      Fetches fetch i0 (received s) (input s) /\ fetch (input s) = Stop (Some e)).

(** The frames of the capture of the tests. *)
Definition testFrames : list (byte * list byte) :=
  [(FileMsg, bytes "foobar"); (PacketCountMsg, bytes "123");
   (DropCountMsg, bytes "456")].

(* ================================================================== *)
(** ** Numbers as text, device types, statistics as text *)

(** The digits of [v], least significant first onto [acc]; [fuel] bounds
    their number. *)
Fixpoint formatDigits (fuel : nat) (v : Z) (acc : list byte) : list byte :=
  match fuel with
  | O => acc
  | S fuel' =>
      let acc' := Zbyte (48 + v mod 10) :: acc in
      if v / 10 =? 0 then acc' else formatDigits fuel' (v / 10) acc'
  end.

(** [strconv.FormatUint(v, 10)], and the verb [%d] of [fmt] for a
    [uint64]: the decimal digits of [v], the most significant first, with
    no leading zero (a [uint64] has at most 20). *)
Definition FormatUint10 (v : Z) : list byte := formatDigits 20 v [].

(** [DeviceStatistics.String]: [fmt.Sprintf("%s\t%d\t%d", ...)]. *)
Definition DeviceStatistics_String (ds : DeviceStatistics) : list byte :=
  Name ds ++ [TAB] ++ FormatUint10 (StatPacketCount ds)
          ++ [TAB] ++ FormatUint10 (StatDropCount ds).

(** Known device types, from [capture_ifinfo.h]; a [DeviceType] is a
    [uint8]. *)
Definition AirpcapDevice : byte := x01.
Definition BluetoothDevice : byte := x04.
Definition DialupDevice : byte := x06.
Definition PipeDevice : byte := x02.
Definition StdinDevice : byte := x03.
Definition USBDevice : byte := x07.
Definition VirtualDevice : byte := x08.
Definition WiredDevice : byte := x00.
Definition WirelessDevice : byte := x05.

(** [DeviceType.String] *)
Definition DeviceType_String (dt : byte) : list byte :=
  if Byte.eqb dt AirpcapDevice then bytes "AIRPCAP"
  else if Byte.eqb dt BluetoothDevice then bytes "BLUETOOTH"
  else if Byte.eqb dt DialupDevice then bytes "DIALUP"
  else if Byte.eqb dt PipeDevice then bytes "PIPE"
  else if Byte.eqb dt StdinDevice then bytes "STDIN"
  else if Byte.eqb dt USBDevice then bytes "USB"
  else if Byte.eqb dt VirtualDevice then bytes "VIRTUAL"
  else if Byte.eqb dt WiredDevice then bytes "WIRED"
  else if Byte.eqb dt WirelessDevice then bytes "WIRELESS"
  else bytes "UNKNOWN".

(* ================================================================== *)
(** ** The version query *)

Definition LF : byte := x0a.

(** The string that [VersionString] returns when [Version] fails. *)
Definition UnknownVersion : list byte := bytes "unknown".

(** [Dumpcap.Version]; [output] is what [Output()] of the command
    "dumpcap -v" returns. *)
Definition Version (output : result (list byte)) : result (list byte) :=
  let* buf := output in
  Ok (nth 0 (SplitN buf LF 2) []).

(** [Dumpcap.VersionString] *)
Definition VersionString (output : result (list byte)) : list byte :=
  match Version output with
  | Fail _ => UnknownVersion
  | Ok v => v
  end.

(* ================================================================== *)
(** ** The command line *)

(** Arguments passed to dumpcap. *)
Definition autoStopConditionArg : list byte := bytes "-a".
Definition bufferedBytesArg : list byte := bytes "-C".
Definition bufferedPacketsArg : list byte := bytes "-N".
Definition captureFilterArg : list byte := bytes "-f".
Definition disablePromiscuousArg : list byte := bytes "-p".
Definition durationArg : list byte := bytes "duration".
Definition enableGroupAccessArg : list byte := bytes "-g".
Definition enableMonitorModeArg : list byte := bytes "-I".
Definition filesArg : list byte := bytes "files".
Definition filesizeArg : list byte := bytes "filesize".
Definition interfaceArg : list byte := bytes "-i".
Definition kernelBufferSizeArg : list byte := bytes "-B".
Definition linkLayerTypeArg : list byte := bytes "-y".
Definition machineReadableArg : list byte := bytes "-M".
Definition fileArg : list byte := bytes "-w".
Definition packetCountArg : list byte := bytes "-c".
Definition pipeOutputArg : list byte := bytes "-Z".
Definition ringbufferArg : list byte := bytes "-b".
Definition snaplenArg : list byte := bytes "-s".
Definition stopPacketCountArg : list byte := bytes "-c".
Definition usePCAPArg : list byte := bytes "-P".
Definition usePCAPNGArg : list byte := bytes "-n".
Definition useThreadsArg : list byte := bytes "-t".
Definition wifiChannelArg : list byte := bytes "-k".

(** Commands passed to dumpcap. *)
Definition captureCmd : list byte := [].
Definition listDevicesCmd : list byte := bytes "-D".
Definition listLayersCmd : list byte := bytes "-L".
Definition statsCmd : list byte := bytes "-S".
Definition versionCmd : list byte := bytes "-v".

(** File formats dumpcap can write. *)
Definition UseDefaultFileFormat : Z := 0.
Definition UsePCAP : Z := 1.
Definition UsePCAPNG : Z := 2.

(** [var pipeName = "none"] *)
Definition pipeName : list byte := bytes "none".

(** [DeviceArgument]: device-specific arguments. *)
Record DeviceArgument : Type := mkDeviceArgument {
  DevCaptureFilter : list byte;
  DevDisablePromiscuousMode : bool;
  DevEnableMonitorMode : bool;
  DevKernelBufferSize : Z;
  DevLinkLayerType : list byte;
  DevName : list byte;
  DevSnapshotLength : Z;
  DevWiFiChannel : list byte
}.

(** [Arguments]: the global arguments. *)
Record DumpcapArguments : Type := mkDumpcapArguments {
  BufferedBytes : Z;
  BufferedPackets : Z;
  CaptureFilter : list byte;
  DeviceArgs : list DeviceArgument;
  DisablePromiscuousMode : bool;
  EnableGroupAccess : bool;
  EnableMonitorMode : bool;
  FileFormat : Z;
  FileName : list byte;
  KernelBufferSize : Z;
  LinkLayerType : list byte;
  SnapshotLength : Z;
  StopOnDuration : Z;
  StopOnFiles : Z;
  StopOnFilesize : Z;
  StopOnPacketCount : Z;
  SwitchOnDuration : Z;
  SwitchOnFiles : Z;
  SwitchOnFilesize : Z;
  UseThreads : bool;
  WiFiChannel : list byte;
  command : list byte;
  childMode : bool
}.

(** The four closures of [buildArgs], with the slice [r] they append to. *)
Definition intArg (v : Z) (a : list byte) (r : list (list byte)) : list (list byte) :=
  if negb (v =? 0) then r ++ [a; FormatUint10 v] else r.

(** [fmt.Sprintf(prefix+":%d", v)]; no prefix in use holds a verb. *)
Definition prefixedIntArg (v : Z) (a prefix : list byte) (r : list (list byte))
    : list (list byte) :=
  if negb (v =? 0) then r ++ [a; prefix ++ bytes ":" ++ FormatUint10 v] else r.

Definition boolArg (v : bool) (a : list byte) (r : list (list byte)) : list (list byte) :=
  if v then r ++ [a] else r.

Definition stringArg (s a : list byte) (r : list (list byte)) : list (list byte) :=
  match s with
  | [] => r
  | _ :: _ => r ++ [a; s]
  end.

(** The body of the loop over the device arguments. *)
Definition deviceArgs (r : list (list byte)) (da : DeviceArgument) : list (list byte) :=
  match DevName da with
  | [] => r   (* continue *)
  | _ :: _ =>
      let r := stringArg (DevName da) interfaceArg r in
      let r := boolArg (DevDisablePromiscuousMode da) disablePromiscuousArg r in
      let r := boolArg (DevEnableMonitorMode da) enableMonitorModeArg r in
      let r := intArg (DevKernelBufferSize da) kernelBufferSizeArg r in
      let r := stringArg (DevLinkLayerType da) linkLayerTypeArg r in
      let r := intArg (DevSnapshotLength da) snaplenArg r in
      stringArg (DevWiFiChannel da) wifiChannelArg r
  end.

(** [Arguments.buildArgs] *)
Definition buildArgs (a : DumpcapArguments) : list (list byte) :=
  let r := [command a] in
  let r := if childMode a then stringArg pipeName pipeOutputArg r else r in
  let r := intArg (BufferedBytes a) bufferedBytesArg r in
  let r := intArg (BufferedPackets a) bufferedPacketsArg r in
  let r := stringArg (CaptureFilter a) captureFilterArg r in
  let r := boolArg (DisablePromiscuousMode a) disablePromiscuousArg r in
  let r := boolArg (EnableGroupAccess a) enableGroupAccessArg r in
  let r := boolArg (EnableMonitorMode a) enableMonitorModeArg r in
  let r := if FileFormat a =? UsePCAP then r ++ [usePCAPArg]
           else if FileFormat a =? UsePCAPNG then r ++ [usePCAPNGArg]
           else r in
  let r := stringArg (FileName a) fileArg r in
  let r := intArg (KernelBufferSize a) kernelBufferSizeArg r in
  let r := stringArg (LinkLayerType a) linkLayerTypeArg r in
  let r := intArg (SnapshotLength a) snaplenArg r in
  let r := prefixedIntArg (StopOnDuration a) autoStopConditionArg durationArg r in
  let r := prefixedIntArg (StopOnFiles a) autoStopConditionArg filesArg r in
  let r := prefixedIntArg (StopOnFilesize a) autoStopConditionArg filesizeArg r in
  let r := intArg (StopOnPacketCount a) packetCountArg r in
  let r := prefixedIntArg (SwitchOnDuration a) ringbufferArg durationArg r in
  let r := prefixedIntArg (SwitchOnFiles a) ringbufferArg filesArg r in
  let r := prefixedIntArg (SwitchOnFilesize a) ringbufferArg filesizeArg r in
  let r := boolArg (UseThreads a) useThreadsArg r in
  let r := stringArg (WiFiChannel a) wifiChannelArg r in
  fold_left deviceArgs (DeviceArgs a) r.

(** [a] with other device arguments. *)
Definition withDeviceArgs (a : DumpcapArguments) (das : list DeviceArgument)
    : DumpcapArguments :=
  mkDumpcapArguments
    (BufferedBytes a) (BufferedPackets a) (CaptureFilter a) das
    (DisablePromiscuousMode a) (EnableGroupAccess a) (EnableMonitorMode a)
    (FileFormat a) (FileName a) (KernelBufferSize a) (LinkLayerType a)
    (SnapshotLength a) (StopOnDuration a) (StopOnFiles a) (StopOnFilesize a)
    (StopOnPacketCount a) (SwitchOnDuration a) (SwitchOnFiles a)
    (SwitchOnFilesize a) (UseThreads a) (WiFiChannel a) (command a) (childMode a).

(** [da] with another capture filter. *)
Definition withDevCaptureFilter (f : list byte) (da : DeviceArgument) : DeviceArgument :=
  mkDeviceArgument f (DevDisablePromiscuousMode da) (DevEnableMonitorMode da)
    (DevKernelBufferSize da) (DevLinkLayerType da) (DevName da)
    (DevSnapshotLength da) (DevWiFiChannel da).

Definition isNamed (da : DeviceArgument) : bool :=
  match DevName da with [] => false | _ :: _ => true end.

(** [Arguments{}] *)
Definition zeroArguments : DumpcapArguments :=
  mkDumpcapArguments 0 0 [] [] false false false 0 [] 0 [] 0 0 0 0 0 0 0 0 false []
                     [] false.

(** The arguments of [TestBuildArgs]. *)
Definition testArguments : DumpcapArguments :=
  mkDumpcapArguments 123 0 (bytes "foobar")
    [mkDeviceArgument (bytes "barfoo") true false 456 (bytes "llt") (bytes "dev1") 0 []]
    false false true UsePCAPNG [] 0 [] 0 60 0 0 0 0 5 0 false [] statsCmd false.

Definition nonEmpty (s : list byte) : Prop := s <> [].

(* ================================================================== *)
(** ** Devices and their capabilities *)

(** [a == b] on strings. *)
Fixpoint bytesEqb (a b : list byte) : bool :=
  match a, b with
  | [], [] => true
  | x :: a', y :: b' => Byte.eqb x y && bytesEqb a' b'
  | _, _ => false
  end.

Definition COMMA : byte := x2c.

(** [strings.Count(s, sep)] for a one-byte separator. *)
Definition Count (s : list byte) (sep : byte) : nat :=
  length (filter (fun c => Byte.eqb c sep) s).

(** [strings.Split(s, sep)] for a one-byte separator: [genSplit] with
    [n = Count(s, sep) + 1]. *)
Definition Split (s : list byte) (sep : byte) : list (list byte) :=
  SplitN s sep (S (Count s sep)).

(** [strings.Join(elems, sep)] for a one-byte separator. *)
Fixpoint Join (elems : list (list byte)) (sep : byte) : list byte :=
  match elems with
  | [] => []
  | a :: rest =>
      match rest with
      | [] => a
      | _ :: _ => a ++ sep :: Join rest sep
      end
  end.

(** The struct [LinkLayerType] (the name is taken by the field of
    [Arguments]). *)
Record LinkLayerTypeT : Type := mkLinkLayerType {
  DLT : Z;
  LltName : list byte;
  LltDescription : list byte
}.

(** [LinkLayerType.String] *)
Definition LinkLayerType_String (llt : LinkLayerTypeT) : list byte := LltName llt.

(** A [nil] slice and an empty one are both [[]]. *)
Record Device : Type := mkDevice {
  DevType : Z;
  DeviceName : list byte;
  Number : Z;
  VendorName : list byte;
  FriendlyName : list byte;
  Addresses : list (list byte);
  Loopback : bool;
  CanRFMon : bool;
  LLTs : list LinkLayerTypeT
}.

(** [Device.String] *)
Definition Device_String (d : Device) : list byte := DeviceName d.

(** [parseDevicesLine]; [uint(i)] keeps the 64 bits of [i], and
    [DeviceType(i)] is applied to a value that [ParseUint] has bounded by
    the bit size 8. *)
Definition parseDevicesLine (fields : list (list byte)) : result Device :=
  if negb (length fields =? 8)%nat then Fail IllegalOutput
  else
    let* number := ParseUint10 (nth 1 fields []) 0 in
    let* devType := ParseUint10 (nth 5 fields []) 8 in
    Ok (mkDevice devType
                 (nth 2 fields [])
                 number
                 (nth 3 fields [])
                 (nth 4 fields [])
                 (if negb (bytesEqb (nth 6 fields []) []) then Split (nth 6 fields []) COMMA
                  else [])
                 (bytesEqb (nth 7 fields []) (bytes "loopback"))
                 false
                 []).

(** The errors of the functions that query capabilities: those of
    [error], and the value that [parseCapabilities] creates with
    [errors.New("illegal output from dumcap")]. *)
Inductive QueryError : Type :=
| IllegalCapabilities
| Plain (e : error).

(** The body of the loop of [parseCapabilities], for one line. *)
Definition parseCapabilitiesLine (line : list byte) : LinkLayerTypeT + QueryError :=
  let cols := SplitN line TAB 3 in
  if negb (length cols =? 3)%nat then inr IllegalCapabilities
  else
    match ParseUint10 (nth 0 cols []) 0 with
    | Fail err => inr (Plain err)
    | Ok i => inl (mkLinkLayerType i (nth 1 cols []) (nth 2 cols []))
    end.

(** The loop of [parseCapabilities] and the return after it: [lines] is
    what [Scan] still yields, [llts] what has been appended so far. *)
Fixpoint parseCapabilitiesLoop (lines : list (list byte)) (err : option error)
    (llts : list LinkLayerTypeT) : list LinkLayerTypeT * option QueryError :=
  match lines with
  | [] => (llts, option_map Plain err)
  | line :: rest =>
      match parseCapabilitiesLine line with
      | inr e => ([], Some e)
      | inl llt => parseCapabilitiesLoop rest err (llts ++ [llt])
      end
  end.

(** [parseCapabilities], on what the scanner of the pipe yields. *)
Definition parseCapabilities (pipe : Scanner)
    : bool * list LinkLayerTypeT * option QueryError :=
  match lines pipe with
  | [] => (false, [], option_map Plain (scanErr pipe))
  | first :: rest =>
      let canRFMon := bytesEqb first (bytes "1") in
      let (llts, err) := parseCapabilitiesLoop rest (scanErr pipe) [] in
      (canRFMon, llts, err)
  end.

(** What a [commander] gives to the functions that run dumpcap to its
    end: the results of [StdoutPipe], [StderrPipe] and [Start], with the
    standard output as the scanner reads it, and the result of [Output]. *)
Record commander : Type := mkCommander {
  StdoutPipe : result Scanner;
  StderrPipe : result Reader;
  Start : option error;
  Output : result (list byte)
}.

Record Dumpcap : Type := mkDumpcap {
  newCommand : list byte -> list (list byte) -> commander;
  Executable : list byte
}.

(** The arguments that [Capabilities] builds. *)
Definition capabilitiesArguments (dev : Device) (monitorMode : bool) : DumpcapArguments :=
  mkDumpcapArguments 0 0 []
    [mkDeviceArgument [] false monitorMode 0 [] (Device_String dev) 0 []]
    false false false 0 [] 0 [] 0 0 0 0 0 0 0 0 false [] listLayersCmd true.

(** [Dumpcap.Capabilities]: the device after the call, and the error. *)
Definition Capabilities (d : Dumpcap) (dev : Device) (monitorMode : bool)
    : Device * option QueryError :=
  let child := newCommand d (Executable d)
                 (buildArgs (capabilitiesArguments dev monitorMode)) in
  match StdoutPipe child with
  | Fail err => (dev, Some (Plain err))
  | Ok stdout =>
      match StderrPipe child with
      | Fail err => (dev, Some (Plain err))
      | Ok stderr =>
          match Start child with
          | Some err => (dev, Some (Plain err))
          | None =>
              match waitForSuccessMsg stderr with
              | Some err => (dev, Some (Plain err))
              | None =>
                  match parseCapabilities stdout with
                  | (_, _, Some err) => (dev, Some err)
                  | (canRFMon, llts, None) =>
                      (mkDevice (DevType dev) (DeviceName dev) (Number dev)
                                (VendorName dev) (FriendlyName dev) (Addresses dev)
                                (Loopback dev) canRFMon llts,
                       None)
                  end
              end
          end
      end
  end.

(** The loop of [Dumpcap.Devices] over the submatches: [devices] is the
    slice built so far. *)
Fixpoint devicesLoop (d : Dumpcap) (getCapabilities : bool)
    (matches : list (list (list byte))) (devices : list Device)
    : list Device + QueryError :=
  match matches with
  | [] => inl devices
  | fields :: rest =>
      match parseDevicesLine fields with
      | Fail err => inr (Plain err)
      | Ok dev =>
          if getCapabilities then
            match Capabilities d dev false with
            | (_, Some err) => inr err
            | (dev, None) => devicesLoop d getCapabilities rest (devices ++ [dev])
            end
          else devicesLoop d getCapabilities rest (devices ++ [dev])
      end
  end.

(** [Dumpcap.Devices]; [FindAllStringSubmatch] stands for
    [deviceListRE.FindAllStringSubmatch(_, -1)]. *)
Definition Devices (FindAllStringSubmatch : list byte -> list (list (list byte)))
    (d : Dumpcap) (getCapabilities : bool) : list Device + QueryError :=
  match Output (newCommand d (Executable d) [machineReadableArg; listDevicesCmd]) with
  | Fail err => inr (Plain err)
  | Ok buf => devicesLoop d getCapabilities (FindAllStringSubmatch buf) []
  end.

(** The line of dumpcap's list of link-layer types that describes [llt]. *)
Definition layerLine (llt : LinkLayerTypeT) : list byte :=
  FormatUint10 (DLT llt) ++ [TAB] ++ LltName llt ++ [TAB] ++ LltDescription llt.

(** How [Devices] gets a device from one submatch. *)
Definition deviceOf (d : Dumpcap) (getCapabilities : bool)
    (fields : list (list byte)) (dev : Device) : Prop :=
  exists parsed,
    parseDevicesLine fields = Ok parsed
    /\ if getCapabilities then Capabilities d parsed false = (dev, None)
       else dev = parsed.

(** The child of the tests: what the mocked dumpcap prints for [-L], and
    the submatches of what it prints for [-D]. *)
Definition layersOutput : Scanner :=
  mkScanner [bytes "1";
             bytes "1" ++ TAB :: bytes "EN10MB" ++ TAB :: bytes "Ethernet";
             bytes "143" ++ TAB :: bytes "DOCSIS" ++ TAB :: bytes "DOCSIS"]
            None.

Definition interfacesFields : list (list (list byte)) :=
  [ [bytes "1. em1" ++ TAB :: TAB :: TAB :: bytes "0" ++ TAB :: TAB :: bytes "network";
     bytes "1"; bytes "em1"; []; []; bytes "0"; []; bytes "network"];
    [bytes "2. lo" ++ TAB :: TAB :: bytes "Loopback" ++ TAB :: bytes "0" ++ TAB
       :: bytes "127.0.0.1,::1" ++ TAB :: bytes "loopback";
     bytes "2"; bytes "lo"; []; bytes "Loopback"; bytes "0"; bytes "127.0.0.1,::1";
     bytes "loopback"] ].

Definition mockCommand (name : list byte) (arg : list (list byte)) : commander :=
  mkCommander (Ok layersOutput)
              (Ok (NewReader (generateMsg SuccessMsg (bytes "This is a huge success"))))
              None
              (Ok []).

Definition mockcap : Dumpcap := mkDumpcap mockCommand [].

(** A child that answers [-L] with a message of type [t] on its standard
    error. *)
Definition answering (t : byte) (payload : list byte) (stdout : Scanner) : Dumpcap :=
  mkDumpcap (fun _ _ => mkCommander (Ok stdout)
                          (Ok (NewReader (encodeFrame t payload))) None (Ok []))
            [].

(** [args.command = captureCmd; args.childMode = true], the first two
    statements of [NewCapture]. *)
Definition captureArguments (args : DumpcapArguments) : DumpcapArguments :=
  mkDumpcapArguments
    (BufferedBytes args) (BufferedPackets args) (CaptureFilter args) (DeviceArgs args)
    (DisablePromiscuousMode args) (EnableGroupAccess args) (EnableMonitorMode args)
    (FileFormat args) (FileName args) (KernelBufferSize args) (LinkLayerType args)
    (SnapshotLength args) (StopOnDuration args) (StopOnFiles args) (StopOnFilesize args)
    (StopOnPacketCount args) (SwitchOnDuration args) (SwitchOnFiles args)
    (SwitchOnFilesize args) (UseThreads args) (WiFiChannel args) captureCmd true.

(** The arguments that [NewStatistics] builds. *)
Definition statisticsArguments : DumpcapArguments :=
  mkDumpcapArguments 0 0 [] [] false false false 0 [] 0 [] 0 0 0 0 0 0 0 0 false []
                     statsCmd true.

(** [Dumpcap.NewCapture] up to the goroutine: the child is made and
    started, and the session begins on its standard error. *)
Definition startCapture (d : Dumpcap) (args : DumpcapArguments)
    : result (Session PipeMessage Reader) :=
  let child := newCommand d (Executable d) (buildArgs (captureArguments args)) in
  let* stderr := StderrPipe child in
  match Start child with
  | Some err => Fail err
  | None => Ok (NewCapture stderr)
  end.

(* ================================================================== *)
(** * Proofs *)

(** The cases of [TestReadPipeMessage]. *)
Example readPipeMsg_success :
  readPipeMsg (NewReader (generateMsg SuccessMsg (bytes "This is a huge success")))
  = Ok (mkPipeMessage SuccessMsg 0 0 (bytes "This is a huge success"), NewReader []).
Proof. vm_compute. reflexivity. Qed.

Example readPipeMsg_error :
  readPipeMsg (NewReader (generateErrorMsg (bytes "Not so much") (bytes "Something is wrong")))
  = Ok (mkPipeMessage ErrMsg 0 0 (bytes "Not so muchSomething is wrong"), NewReader []).
Proof. vm_compute. reflexivity. Qed.

Example readPipeMsg_packetcount :
  readPipeMsg (NewReader (generateMsg PacketCountMsg (bytes "123")))
  = Ok (mkPipeMessage PacketCountMsg 0 123 (bytes "123"), NewReader []).
Proof. vm_compute. reflexivity. Qed.

Example readPipeMsg_empty : readPipeMsg (NewReader []) = Fail EOF.
Proof. reflexivity. Qed.

(* ================================================================== *)
(** ** Facts about bytes, headers and readers *)

Lemma byteZ_range (b : byte) : 0 <= byteZ b < 256.
Proof.
  unfold byteZ. pose proof (Byte.to_N_bounded b). lia.
Qed.

Lemma byteZ_Zbyte (z : Z) : byteZ (Zbyte z) = z mod 256.
Proof.
  unfold byteZ, Zbyte.
  assert (Hr : 0 <= z mod 256 < 256) by (apply Z.mod_pos_bound; lia).
  destruct (Byte.of_N (Z.to_N (z mod 256))) as [b|] eqn:E.
  - apply Byte.to_of_N in E. rewrite E. lia.
  - apply Byte.of_N_None_iff in E. lia.
Qed.

Lemma Zbyte_byteZ (b : byte) : Zbyte (byteZ b) = b.
Proof.
  unfold Zbyte, byteZ. pose proof (Byte.to_N_bounded b).
  rewrite Z.mod_small by lia. rewrite N2Z.id, Byte.of_to_N. reflexivity.
Qed.

Lemma byteZ_inj (a b : byte) : byteZ a = byteZ b -> a = b.
Proof.
  intros H. rewrite <- (Zbyte_byteZ a), <- (Zbyte_byteZ b), H. reflexivity.
Qed.

(** Bit [n] of a 24-bit value, taken from the byte it falls in. *)
Lemma header_bits (L n : Z) :
  0 <= L < 2 ^ 24 -> 0 <= n ->
  Z.testbit
    (Z.lor (Z.lor (Z.shiftl (Z.shiftr L 16 mod 2 ^ 8) 16)
                  (Z.shiftl (Z.shiftr L 8 mod 2 ^ 8) 8))
           (Z.shiftl (L mod 2 ^ 8) 0)) n
  = Z.testbit L n.
Proof.
  intros HL Hn.
  assert (Hhigh : 24 <= n -> Z.testbit L n = false).
  { intros H24. rewrite <- (Z.mod_small L (2 ^ 24)) by lia.
    apply Z.mod_pow2_bits_high. lia. }
  rewrite !Z.lor_spec, Z.shiftl_0_r, !Z.shiftl_spec by lia.
  rewrite (Z.testbit_mod_pow2 L 8 n) by lia.
  destruct (Z.ltb_spec n 8) as [H8|H8].
  - rewrite (Z.testbit_neg_r _ (n - 16)), (Z.testbit_neg_r _ (n - 8)) by lia.
    reflexivity.
  - rewrite (Z.testbit_mod_pow2 _ 8 (n - 8)) by lia.
    rewrite Z.shiftr_spec by lia. replace (n - 8 + 8) with n by lia.
    destruct (Z.ltb_spec n 16) as [H16|H16].
    + rewrite (Z.testbit_neg_r _ (n - 16)) by lia.
      replace (n - 8 <? 8) with true by (symmetry; apply Z.ltb_lt; lia).
      simpl. rewrite orb_false_r. reflexivity.
    + rewrite (Z.testbit_mod_pow2 _ 8 (n - 16)) by lia.
      rewrite Z.shiftr_spec by lia. replace (n - 16 + 16) with n by lia.
      replace (n - 8 <? 8) with false by (symmetry; apply Z.ltb_ge; lia).
      simpl. rewrite !orb_false_r.
      destruct (Z.ltb_spec (n - 16) 8) as [H24|H24]; simpl.
      * reflexivity.
      * symmetry. apply Hhigh. lia.
Qed.

(** The three length bytes written by [generateMsg] are read back by
    [parsePipeMsg] as the same length, as long as it fits 24 bits. *)
Lemma msgSizeOf_header (t : byte) (L : Z) :
  0 <= L < 2 ^ 24 ->
  msgSizeOf [t; Zbyte (Z.shiftr L 16); Zbyte (Z.shiftr L 8); Zbyte L] = L.
Proof.
  intros HL. unfold msgSizeOf. cbn [nth].
  rewrite !byteZ_Zbyte. change 256 with (2 ^ 8).
  apply Z.bits_inj'. intros n Hn. apply header_bits; assumption.
Qed.

Lemma msgSizeOf_bound (buffer : list byte) : 0 <= msgSizeOf buffer < 2 ^ 24.
Proof.
  unfold msgSizeOf.
  pose proof (byteZ_range (nth 1 buffer x00)) as H1.
  pose proof (byteZ_range (nth 2 buffer x00)) as H2.
  pose proof (byteZ_range (nth 3 buffer x00)) as H3.
  set (a := byteZ (nth 1 buffer x00)) in *.
  set (b := byteZ (nth 2 buffer x00)) in *.
  set (c := byteZ (nth 3 buffer x00)) in *.
  assert (Hnn : 0 <= Z.lor (Z.lor (Z.shiftl a 16) (Z.shiftl b 8)) (Z.shiftl c 0)).
  { rewrite !Z.lor_nonneg, !Z.shiftl_nonneg. lia. }
  split; [exact Hnn|].
  destruct (Z.eq_dec (Z.lor (Z.lor (Z.shiftl a 16) (Z.shiftl b 8)) (Z.shiftl c 0)) 0)
    as [E|E]; [rewrite E; lia|].
  apply Z.log2_lt_pow2; [lia|].
  rewrite !Z.log2_lor by (rewrite ?Z.lor_nonneg, ?Z.shiftl_nonneg; lia).
  assert (Hs : forall x k, 0 <= x < 256 -> 0 <= k -> k + 8 <= 24 ->
                           Z.log2 (Z.shiftl x k) < 24).
  { intros x k Hx Hk Hk'. destruct (Z.eq_dec x 0) as [->|Hx0].
    - rewrite Z.shiftl_0_l. simpl. lia.
    - rewrite Z.log2_shiftl by lia.
      assert (Z.log2 x < 8) by (apply Z.log2_lt_pow2; lia). lia. }
  pose proof (Hs a 16 H1 ltac:(lia) ltac:(lia)).
  pose proof (Hs b 8 H2 ltac:(lia) ltac:(lia)).
  pose proof (Hs c 0 H3 ltac:(lia) ltac:(lia)).
  lia.
Qed.

Lemma stripNUL_terminated (t : list byte) : stripNUL (t ++ [x00]) = t.
Proof.
  unfold stripNUL. rewrite length_app. cbn [length].
  replace (length t + 1 - 1)%nat with (length t) by lia.
  rewrite app_nth2 by lia. rewrite Nat.sub_diag. cbn [nth].
  replace (0 <? length t + 1)%nat with true by (symmetry; apply Nat.ltb_lt; lia).
  cbn. rewrite firstn_app, Nat.sub_diag, firstn_all. cbn. apply app_nil_r.
Qed.

Lemma stripNUL_length (b : list byte) : (length (stripNUL b) <= length b)%nat.
Proof.
  unfold stripNUL.
  destruct ((0 <? length b)%nat && Byte.eqb (nth (length b - 1) b x00) x00).
  - rewrite length_firstn. lia.
  - lia.
Qed.

Lemma ReadFull_Ok (r : Reader) (n : nat) (front : list byte) (r' : Reader) :
  ReadFull r n = Ok (front, r') ->
  pending r = front ++ pending r' /\ length front = n /\ closing r' = closing r.
Proof.
  unfold ReadFull. destruct (n <=? length (pending r))%nat eqn:E.
  - intros H. inversion H. subst. cbn [pending closing].
    apply Nat.leb_le in E.
    rewrite firstn_skipn, length_firstn. repeat split. lia.
  - destruct (pending r); discriminate.
Qed.

Lemma ReadFull_Fail (r : Reader) (n : nat) (e : error) :
  ReadFull r n = Fail e ->
  e = closing r \/ (closing r = EOF /\ e = ErrUnexpectedEOF /\ pending r <> []).
Proof.
  unfold ReadFull. destruct (n <=? length (pending r))%nat; [discriminate|].
  destruct (pending r) as [|b bs].
  - intros H. inversion H. auto.
  - destruct (closing r); cbn [isEOF]; intros H; inversion H; auto.
    right. repeat split. discriminate.
Qed.

Lemma ReadFull_app (front rest : list byte) (cl : error) :
  ReadFull (mkReader (front ++ rest) cl) (length front)
  = Ok (front, mkReader rest cl).
Proof.
  unfold ReadFull. cbn [pending closing].
  rewrite length_app.
  replace (length front <=? length front + length rest)%nat with true
    by (symmetry; apply Nat.leb_le; lia).
  rewrite firstn_app, Nat.sub_diag, firstn_all, skipn_app, Nat.sub_diag, skipn_all.
  cbn. rewrite app_nil_r. reflexivity.
Qed.

Lemma generateMsg_frame (t : byte) (text : list byte) :
  generateMsg t text = encodeFrame t (text ++ [x00]).
Proof. reflexivity. Qed.

Lemma stripNUL_nil : stripNUL [] = [].
Proof. reflexivity. Qed.

(** One frame, followed by anything, is read by [parsePipeMsg] as its type
    and its payload without the final NUL, leaving the rest unread. *)
Lemma parsePipeMsg_frame (t : byte) (payload rest : list byte) (cl : error) :
  Z.of_nat (length payload) < 2 ^ 24 ->
  parsePipeMsg (mkReader (encodeFrame t payload ++ rest) cl)
  = Ok (t, stripNUL payload, mkReader rest cl).
Proof.
  intros Hlen. unfold encodeFrame, parsePipeMsg.
  set (L := Z.of_nat (length payload)) in *.
  set (hdr := [t; Zbyte (Z.shiftr L 16); Zbyte (Z.shiftr L 8); Zbyte L]).
  rewrite <- app_assoc.
  change 4%nat with (length hdr). rewrite ReadFull_app. cbn [bind].
  assert (Hsz : msgSizeOf hdr = L) by (apply msgSizeOf_header; lia).
  rewrite Hsz. change (nth 0 hdr x00) with t.
  destruct (Z.eqb_spec L 0) as [H0|H0].
  - assert (payload = []) as -> by (destruct payload; [reflexivity | cbn in L; lia]).
    reflexivity.
  - replace (Z.to_nat L) with (length payload) by (unfold L; lia).
    rewrite ReadFull_app. reflexivity.
Qed.

Lemma parsePipeMsg_generateMsg (t : byte) (text rest : list byte) (cl : error) :
  Z.of_nat (length text) + 1 < 2 ^ 24 ->
  parsePipeMsg (mkReader (generateMsg t text ++ rest) cl)
  = Ok (t, text, mkReader rest cl).
Proof.
  intros Hlen. rewrite generateMsg_frame, parsePipeMsg_frame.
  - rewrite stripNUL_terminated. reflexivity.
  - rewrite length_app. cbn [length]. lia.
Qed.

(** The length field has 24 bits: for a text of 2^24 - 1 bytes, the
    header written by [generateMsg] announces no payload, and
    [parsePipeMsg] returns an empty text. *)
Lemma parsePipeMsg_generateMsg_overflow (t : byte) (text : list byte) :
  Z.of_nat (length text) + 1 = 2 ^ 24 ->
  parsePipeMsg (NewReader (generateMsg t text))
  = Ok (t, [], NewReader (text ++ [x00])).
Proof.
  intros Hlen. unfold generateMsg, parsePipeMsg, NewReader.
  set (L := Z.of_nat (length (text ++ [x00]))).
  assert (HL : L = 2 ^ 24) by (unfold L; rewrite length_app; cbn [length]; lia).
  rewrite HL.
  change (Zbyte (Z.shiftr (2 ^ 24) 16)) with x00.
  change (Zbyte (Z.shiftr (2 ^ 24) 8)) with x00.
  change (Zbyte (2 ^ 24)) with x00.
  change 4%nat with (length [t; x00; x00; x00]). rewrite ReadFull_app.
  reflexivity.
Qed.

(** Two frames one after the other, followed by anything, are read by
    [parsePipeErrMsg] as the two texts, one after the other. *)
Lemma parsePipeErrMsg_frames (a b : byte) (p1 p2 rest : list byte) (cl : error) :
  Z.of_nat (length p1) < 2 ^ 24 -> Z.of_nat (length p2) < 2 ^ 24 ->
  parsePipeErrMsg (mkReader (encodeFrame a p1 ++ encodeFrame b p2 ++ rest) cl)
  = Ok (stripNUL p1 ++ stripNUL p2).
Proof.
  intros H1 H2. unfold parsePipeErrMsg.
  rewrite parsePipeMsg_frame by assumption. cbn [bind].
  rewrite parsePipeMsg_frame by assumption. reflexivity.
Qed.

Lemma readPipeMsg_interpret (input : Reader) :
  readPipeMsg input =
  let* (msgType, msgBuffer, input') := parsePipeMsg input in
  let* msg := interpret msgType msgBuffer in
  Ok (msg, input').
Proof.
  unfold readPipeMsg, interpret.
  destruct (parsePipeMsg input) as [[[t b] r]|e]; cbn [bind]; [|reflexivity].
  cbn [Type_ DropCount PacketCount Text].
  destruct (Byte.eqb t DropCountMsg).
  { destruct (ParseUint10 b 0); reflexivity. }
  destruct (Byte.eqb t ErrMsg).
  { destruct (parsePipeErrMsg (NewReader b)); reflexivity. }
  destruct (Byte.eqb t PacketCountMsg).
  { destruct (ParseUint10 b 0); reflexivity. }
  reflexivity.
Qed.

Lemma readPipeMsg_frame (t : byte) (payload rest : list byte) (cl : error) :
  Z.of_nat (length payload) < 2 ^ 24 ->
  readPipeMsg (mkReader (encodeFrame t payload ++ rest) cl)
  = let* msg := interpret t (stripNUL payload) in Ok (msg, mkReader rest cl).
Proof.
  intros Hlen. rewrite readPipeMsg_interpret, parsePipeMsg_frame by assumption.
  reflexivity.
Qed.

Lemma byte_eqb_eq (a b : byte) : Byte.eqb a b = true <-> a = b.
Proof.
  split.
  - apply Byte.byte_dec_bl.
  - apply Byte.byte_dec_lb.
Qed.

Lemma byte_eqb_neq (a b : byte) : Byte.eqb a b = false <-> a <> b.
Proof.
  rewrite <- byte_eqb_eq. destruct (Byte.eqb a b); split; congruence.
Qed.

(* ================================================================== *)
(** ** What [ParseUint10] accepts: proofs *)

Lemma isDigit_range (c : byte) : isDigit c = true -> 0 <= byteZ c - 48 <= 9.
Proof.
  unfold isDigit. change (byteZ x30) with 48. change (byteZ x39) with 57.
  rewrite andb_true_iff, !Z.leb_le. lia.
Qed.

Lemma decimalFrom_mono (s : list byte) (n : Z) :
  forallb isDigit s = true -> 0 <= n -> n <= decimalFrom n s.
Proof.
  unfold decimalFrom.
  revert n. induction s as [|c s IH]; intros n Hd Hn; cbn [fold_left forallb] in *.
  - lia.
  - apply andb_true_iff in Hd as [Hc Hs].
    pose proof (isDigit_range c Hc).
    specialize (IH (10 * n + (byteZ c - 48)) Hs ltac:(lia)). lia.
Qed.

Lemma parseDigits_spec (maxVal : Z) (s : list byte) (n v : Z) :
  0 <= n <= maxVal -> maxVal <= maxUint64 ->
  parseDigits maxVal n s = Ok v
  <-> forallb isDigit s = true /\ decimalFrom n s = v /\ v <= maxVal.
Proof.
  revert n. induction s as [|c s IH]; intros n Hn Hmax.
  - cbn. split.
    + intros H; inversion H; subst. repeat split; lia.
    + intros (_ & <- & _). reflexivity.
  - cbn [parseDigits forallb].
    destruct (isDigit c) eqn:Hc; cbn [andb].
    2:{ split; [discriminate | intros (H & _); discriminate]. }
    pose proof (isDigit_range c Hc) as Hd.
    change (byteZ x30) with 48.
    unfold maxUint64 in *. change (2 ^ 64 - 1) with 18446744073709551615 in *.
    change (18446744073709551615 / 10 + 1) with 1844674407370955162.
    change (2 ^ 64) with 18446744073709551616.
    assert (Hstep : forall w, forallb isDigit s = true ->
                decimalFrom n (c :: s) = w -> 10 * n + (byteZ c - 48) <= w).
    { intros w Hs <-. unfold decimalFrom. cbn [fold_left].
      apply (decimalFrom_mono s (10 * n + (byteZ c - 48))); [assumption | lia]. }
    destruct (Z.leb_spec 1844674407370955162 n) as [Hcut|Hcut].
    { split; [discriminate|]. intros (Hs & Hv & Hle).
      specialize (Hstep v Hs Hv). lia. }
    rewrite (Z.mod_small (n * 10)) by lia.
    destruct (Z.ltb_spec ((n * 10 + (byteZ c - 48)) mod 18446744073709551616) (n * 10))
      as [Hwrap|Hwrap]; cbn [orb].
    { split; [discriminate|]. intros (Hs & Hv & Hle).
      specialize (Hstep v Hs Hv).
      assert (18446744073709551616 <= n * 10 + (byteZ c - 48)).
      { destruct (Z_lt_le_dec (n * 10 + (byteZ c - 48)) 18446744073709551616);
          [rewrite Z.mod_small in Hwrap by lia; lia | assumption]. }
      lia. }
    assert (Hsmall : n * 10 + (byteZ c - 48) < 18446744073709551616).
    { destruct (Z_lt_le_dec (n * 10 + (byteZ c - 48)) 18446744073709551616) as [|Hge];
        [assumption|].
      assert (n * 10 + (byteZ c - 48) - 18446744073709551616 < n * 10) by lia.
      rewrite <- (Z.mod_unique_pos (n * 10 + (byteZ c - 48)) 18446744073709551616 1
                      (n * 10 + (byteZ c - 48) - 18446744073709551616)) in Hwrap by lia.
      lia. }
    rewrite Z.mod_small in * by lia.
    destruct (Z.ltb_spec maxVal (n * 10 + (byteZ c - 48))) as [Hover|Hfit].
    { split; [discriminate|]. intros (Hs & Hv & Hle).
      specialize (Hstep v Hs Hv). lia. }
    rewrite (IH (n * 10 + (byteZ c - 48))) by lia.
    unfold decimalFrom. cbn [fold_left].
    replace (10 * n + (byteZ c - 48)) with (n * 10 + (byteZ c - 48)) by lia.
    reflexivity.
Qed.

(** [ParseUint10] never fails with anything but a [NumError]. *)
Lemma parseDigits_fail (maxVal : Z) (s : list byte) (n : Z) (e : error) :
  parseDigits maxVal n s = Fail e -> exists k, e = NumError k.
Proof.
  revert n. induction s as [|c s IH]; intros n; cbn.
  - discriminate.
  - destruct (isDigit c); [|intros H; inversion H; eauto].
    destruct (_ <=? n); [intros H; inversion H; eauto|].
    destruct (_ || _); [intros H; inversion H; eauto|].
    apply IH.
Qed.

Lemma ParseUint10_fail (s : list byte) (bitSize : Z) (e : error) :
  ParseUint10 s bitSize = Fail e -> exists k, e = NumError k.
Proof.
  unfold ParseUint10. destruct s; [intros H; inversion H; eauto|].
  apply parseDigits_fail.
Qed.

(** With [bitSize] 0 or 64, [ParseUint10] accepts exactly the texts of one
    or more ASCII digits whose value fits [uint64], and returns the value. *)
Lemma ParseUint10_spec (s : list byte) (bitSize v : Z) :
  bitSize = 0 \/ bitSize = 64 ->
  ParseUint10 s bitSize = Ok v
  <-> isDecimal s = true /\ decimalValue s = v /\ v < 2 ^ 64.
Proof.
  intros Hb. unfold ParseUint10, isDecimal, decimalValue.
  destruct s as [|c s].
  - split; [discriminate | intros (H & _); discriminate].
  - assert (Hm : (2 ^ (if bitSize =? 0 then IntSize else bitSize) mod 2 ^ 64 - 1) mod 2 ^ 64
                 = maxUint64)
      by (destruct Hb as [-> | ->]; reflexivity).
    rewrite Hm, parseDigits_spec by (unfold maxUint64; lia).
    unfold maxUint64. split; intros (H1 & H2 & H3); repeat split; try assumption; lia.
Qed.

Lemma ParseUint10_total (s : list byte) (bitSize : Z) :
  (exists v, ParseUint10 s bitSize = Ok v)
  \/ (exists k, ParseUint10 s bitSize = Fail (NumError k)).
Proof.
  destruct (ParseUint10 s bitSize) as [v|e] eqn:E.
  - left. eauto.
  - right. apply ParseUint10_fail in E as [k ->]. eauto.
Qed.

Example ParseUint10_123 : ParseUint10 (bytes "123") 0 = Ok 123.
Proof. reflexivity. Qed.

Example ParseUint10_max : ParseUint10 (bytes "18446744073709551615") 64 = Ok maxUint64.
Proof. reflexivity. Qed.

Example ParseUint10_over :
  ParseUint10 (bytes "18446744073709551616") 64 = Fail (NumError ErrRange).
Proof. reflexivity. Qed.

Example ParseUint10_sign : ParseUint10 (bytes "+1") 64 = Fail (NumError ErrSyntax).
Proof. reflexivity. Qed.

(* ================================================================== *)
(** ** The invariant holds in every state of a session *)

Section InvariantProofs.

Variables I S : Type.
Variable fetch : S -> Fetched I S.

Lemma init_Inv (i : S) : Inv (init (I := I) i).
Proof.
  unfold Inv, taskInv, slotInv, waitInv, orderInv. cbn.
  repeat split; intros; congruence.
Qed.

Lemma reported_none (h : list Event) :
  existsb isSendExit h = false -> reported h = None.
Proof.
  unfold reported. induction h as [|ev h IH]; cbn; [reflexivity|].
  destruct (isSendExit ev) eqn:E; cbn; [discriminate|]. exact IH.
Qed.

Lemma reported_some (h : list Event) :
  existsb isSendExit h = true -> exists e, reported h = Some e.
Proof.
  unfold reported. induction h as [|ev h IH]; cbn; [discriminate|].
  destruct ev; cbn; eauto.
Qed.

Lemma reported_cons (ev : Event) (h : list Event) :
  reported (ev :: h) = match ev with EvSendExit e => Some e | _ => reported h end.
Proof. destruct ev; reflexivity. Qed.

Lemma step_Inv (s : Session I S) (ch : Choice) : Inv s -> Inv (step fetch s ch).
Proof.
  destruct s as [i t [bo co clo] [be ce cle] [bq cq clq] w r h].
  unfold step. destruct (crashed _) eqn:Hc; [trivial|].
  unfold Inv, taskInv, slotInv, waitInv, orderInv.
  session_simpl.
  intros (HT & (Hcap & Hbuf) & (Hq & Hqb & Hrq & HW) & (Ho1 & Ho2)).
  subst ce bq.
  destruct ch as [| |cr|].
  - (* the goroutine *)
    unfold stepTask, taskPanics, chan_send, chan_close, chan_recv.
    session_simpl.
    destruct t as [|e0|m| | | |]; try contradiction.
    + destruct HT as (H1 & H2 & H3 & H3' & H3'' & H4). subst clo cle.
      destruct (fetch i) as [m i'|[e1|]]; session_simpl;
        rewrite ?reported_cons, ?H3, ?H3', ?H3'', ?H4 in *; session_simpl;
        finish.
      all: try (destruct w as [| | |[?|] ?|]; finish).
    + destruct HT as (H1 & H2 & H3 & H3' & H3'' & H4). subst clo cle.
      rewrite H3' in *. subst be. session_simpl.
      rewrite ?reported_cons, ?H3, ?H3', ?H3'', ?H4 in *; session_simpl.
      finish.
      all: try (destruct w as [| | |[?|] ?|]; finish).
    + destruct HT as (H1 & H2 & H3 & H3' & H3'' & H4). subst clo cle.
      session_simpl. destruct clq; session_simpl;
      rewrite ?reported_cons, ?H3, ?H3', ?H3'', ?H4 in *; session_simpl;
      finish.
      all: try (destruct w as [| | |[?|] ?|]; finish).
    + destruct HT as (H1 & H2 & H4). subst clo cle. session_simpl.
      rewrite ?reported_cons, ?H4 in *; session_simpl.
      finish.
      all: try (destruct w as [| | |[?|] ?|]; finish).
    + destruct HT as (H1 & H2 & H4). subst clo cle. session_simpl.
      rewrite ?reported_cons, ?H4 in *; session_simpl.
      finish.
      all: try (destruct w as [| | |[?|] ?|]; finish).
    + finish.
  - (* the consumer *)
    unfold stepReceive, taskPanics. session_simpl.
    destruct t as [|e0|m| | | |]; try contradiction; finish.
    all: destruct HT as (H1 & H2 & H3 & H3' & H3'' & H4); subst clo cle;
      session_simpl;
      rewrite ?reported_cons, ?H3, ?H3', ?H3'', ?H4 in *; session_simpl;
      finish.
    all: try (destruct w as [| | |[?|] ?|]; finish).
  - (* the caller enters Wait *)
    unfold stepCallWait. session_simpl.
    destruct w as [| | |cr0 r0|]; session_simpl; rewrite ?reported_cons; finish.
    all: try (destruct t; session_simpl; rewrite ?reported_cons; finish).
  - (* Wait goes on *)
    unfold stepWait, chan_close, chan_recv. session_simpl.
    destruct w as [|[e1|]| |cr0 r0|]; session_simpl; rewrite ?reported_cons.
    + finish.
    + (* return err *)
      destruct t; session_simpl; rewrite ?reported_cons; finish.
    + (* close(quit) *)
      destruct clq; session_simpl; rewrite ?reported_cons; finish.
      all: try (destruct t; session_simpl; rewrite ?reported_cons; finish).
      all: try (destruct (existsb isRecvReturn h); finish).
    + (* return <-exitStatus *)
      destruct HW as (HW1 & HW2). rewrite HW2 in *.
      destruct (reported h) as [e1|] eqn:Hrep; subst be; session_simpl.
      * rewrite ?reported_cons, ?Hrep. session_simpl.
        destruct t; session_simpl; finish.
      * destruct cle; session_simpl; rewrite ?reported_cons, ?Hrep; finish.
        all: try (destruct t; session_simpl; finish).
    + finish.
    + finish.
Qed.

Lemma run_Inv (sched : list Choice) (s : Session I S) :
  Inv s -> Inv (run fetch s sched).
Proof.
  revert s. induction sched as [|ch sched IH]; intros s Hs; cbn.
  - exact Hs.
  - apply IH. apply step_Inv. exact Hs.
Qed.

Lemma reachable_Inv (i : S) (sched : list Choice) : Inv (run fetch (init i) sched).
Proof. apply run_Inv. apply init_Inv. Qed.

Lemma run_app (s : Session I S) (a b : list Choice) :
  run fetch s (a ++ b) = run fetch (run fetch s a) b.
Proof. unfold run. apply fold_left_app. Qed.

End InvariantProofs.

Section Calls.

Variables I S : Type.
Variable fetch : S -> Fetched I S.

Lemma existsb_waitEvents (h : list Event) :
  existsb isCloseQuit (waitEvents h) = existsb isCloseQuit h.
Proof.
  induction h as [|ev h IH]; [reflexivity|].
  unfold waitEvents in *. destruct ev; cbn; rewrite ?IH; reflexivity.
Qed.

Lemma step_callInv (s : Session I S) (ch : Choice) :
  Inv s -> callInv s -> callInv (step fetch s ch).
Proof.
  destruct s as [i t [bo co clo] [be ce cle] [bq cq clq] w r h].
  unfold step. destruct (crashed _) eqn:Hc; [trivial|].
  intros (_ & _ & (Hq & _) & _). revert Hq.
  unfold callInv. cbn [waiter history quit closed].
  intros Hq HC. rewrite <- existsb_waitEvents in Hq.
  destruct ch as [| |cr|].
  - unfold stepTask, taskPanics, chan_send, chan_close, chan_recv.
    cbn [task input output exitStatus quit waiter received history buf cap closed].
    destruct t as [|e0|m| | | |]; try exact HC.
    + destruct (fetch i) as [m i'|[e1|]]; exact HC.
    + destruct cle; [exact HC|]. destruct (_ <? _)%nat; exact HC.
    + destruct clo; [exact HC|]. destruct bq; [destruct clq|]; exact HC.
    + destruct cle; exact HC.
    + destruct clo; exact HC.
  - unfold stepReceive, taskPanics.
    cbn [task input output exitStatus quit waiter received history buf cap closed].
    destruct t as [|e0|m| | | |]; try exact HC.
    destruct clo; exact HC.
  - unfold stepCallWait. cbn [waiter history].
    destruct w as [| | |cr0 r0|]; try exact HC;
      cbn [waiter history waitEvents filter isTaskEvent negb]; eauto.
  - unfold stepWait, chan_close, chan_recv.
    cbn [task input output exitStatus quit waiter received history buf cap closed].
    destruct w as [|[e1|]| |cr0 r0|]; try exact HC.
    + destruct HC as [older HC].
      cbn [waiter history waitEvents filter isTaskEvent negb].
      fold (waitEvents h). rewrite HC. eauto.
    + destruct HC as [older HC]. rewrite HC in Hq. cbn in Hq.
      destruct clq; cbn [waiter history waitEvents filter isTaskEvent negb];
        fold (waitEvents h); rewrite HC; eauto.
    + destruct HC as (older & HC & Hold).
      destruct be as [|v rest]; [destruct cle; [|eexists; eauto]|];
        cbn [waiter history waitEvents filter isTaskEvent negb];
        fold (waitEvents h); rewrite HC; eauto.
Qed.

Lemma run_callInv (sched : list Choice) (s : Session I S) :
  Inv s -> callInv s -> callInv (run fetch s sched).
Proof.
  revert s. induction sched as [|ch sched IH]; intros s Hs Hc; cbn.
  - exact Hc.
  - apply IH; [apply step_Inv | apply step_callInv]; assumption.
Qed.

Lemma reachable_callInv (i : S) (sched : list Choice) :
  callInv (run fetch (init i) sched).
Proof.
  apply run_callInv.
  - apply init_Inv.
  - unfold callInv. cbn. reflexivity.
Qed.

End Calls.

(* ================================================================== *)
(** ** Facts about sessions *)

Lemma quietSinceClose_split (h : list Event) :
  quietSinceClose h = true ->
  exists later earlier,
    h = later ++ EvCloseOut :: earlier
    /\ existsb isTaskEvent later = false
    /\ existsb isCloseOut earlier = false.
Proof.
  induction h as [|ev h IH]; cbn [quietSinceClose]; [discriminate|].
  destruct (isCloseOut ev) eqn:E.
  - intros H. exists [], h. destruct ev; try discriminate.
    repeat split. now apply negb_true_iff in H.
  - intros H. apply andb_true_iff in H as [H1 H2].
    destruct (IH H2) as (later & earlier & -> & Hl & He).
    exists (ev :: later), earlier. cbn. apply negb_true_iff in H1.
    rewrite H1, Hl. repeat split. assumption.
Qed.

Lemma closeOut_once (later earlier : list Event) :
  existsb isTaskEvent later = false ->
  existsb isCloseOut earlier = false ->
  length (filter isCloseOut (later ++ EvCloseOut :: earlier)) = 1%nat.
Proof.
  intros Hl He. rewrite filter_app, length_app. cbn.
  assert (H1 : filter isCloseOut later = []).
  { clear He. induction later as [|ev l IH]; [reflexivity|].
    cbn in Hl. apply orb_false_iff in Hl as [Hev Hl].
    cbn. destruct ev; cbn in *; try discriminate; auto. }
  assert (H2 : filter isCloseOut earlier = []).
  { clear Hl H1. induction earlier as [|ev l IH]; [reflexivity|].
    cbn in He. apply orb_false_iff in He as [Hev He].
    cbn. rewrite Hev. auto. }
  rewrite H1, H2. reflexivity.
Qed.

Lemma closeOut_never (h : list Event) :
  existsb isCloseOut h = false -> length (filter isCloseOut h) = 0%nat.
Proof.
  induction h as [|ev l IH]; [reflexivity|].
  cbn. intros H. apply orb_false_iff in H as [Hev H]. rewrite Hev. auto.
Qed.

Section SessionFacts.

Variables I S : Type.
Variable fetch : S -> Fetched I S.

Lemma task_finishes (s : Session I S) :
  Inv s -> crashed s = false -> leaving fetch s ->
  task (run fetch s [RunTask; RunTask; RunTask; RunTask]) = TDone.
Proof.
  destruct s as [i t [bo co clo] [be ce cle] [bq cq clq] w r h].
  unfold Inv, taskInv, slotInv, waitInv, orderInv, leaving.
  session_simpl.
  intros (HT & (Hcap & Hbuf) & (Hq & Hqb & Hrq & HW) & (Ho1 & Ho2)) Hc Hl.
  subst ce bq.
  assert (Hw : w <> WPanicked).
  { intros ->. destruct t; discriminate. }
  destruct t as [|e0|m| | | |]; try contradiction.
  - destruct Hl as [e He].
    destruct HT as (H1 & H2 & H3 & H3' & H3'' & H4). subst clo cle.
    rewrite H3' in Hbuf. subst be.
    destruct w; try congruence;
      destruct e as [e|]; cbn; unfold stepTask; cbn; rewrite He; reflexivity.
  - destruct HT as (H1 & H2 & H3 & H3' & H3'' & H4). subst clo cle.
    rewrite H3' in Hbuf. subst be.
    destruct w; try congruence; reflexivity.
  - destruct HT as (H1 & H2 & H3 & H3' & H3'' & H4). subst clo cle.
    cbn in Hl. clear Hq Hrq HW. subst clq.
    destruct w; try congruence; reflexivity.
  - destruct HT as (H1 & H2 & H4). subst clo cle.
    destruct w; try congruence; reflexivity.
  - destruct HT as (H1 & H2 & H4). subst clo cle.
    destruct w; try congruence; reflexivity.
  - destruct w; try congruence; reflexivity.
Qed.

End SessionFacts.

Section SessionClaims.

Variables I S : Type.
Variable fetch : S -> Fetched I S.

Lemma Inv_closedOnceAfterExit (s : Session I S) :
  Inv s -> closedOnceAfterExit fetch s.
Proof.
  intros HI. pose proof HI as (HT & _).
  unfold closedOnceAfterExit, taskInv in *.
  repeat split.
  - intros E. rewrite E in HT. exact HT.
  - intros Hc. destruct (task s); try reflexivity;
      try (destruct HT as (H1 & _); congruence); contradiction.
  - intros E. rewrite E in HT. tauto.
  - intros Hn. apply closeOut_never.
    destruct (task s); try tauto; congruence.
  - rewrite H in HT. destruct HT as (_ & _ & Hq).
    destruct (quietSinceClose_split _ Hq) as (later & earlier & -> & Hl & He).
    apply closeOut_once; assumption.
  - rewrite H in HT. destruct HT as (_ & _ & Hq).
    apply quietSinceClose_split. exact Hq.
  - intros Hc Hl. apply task_finishes; assumption.
Qed.

Lemma Inv_waitResult (s : Session I S) : Inv s -> waitResult s.
Proof.
  intros (_ & _ & (_ & _ & _ & HW) & _) cr r E. rewrite E in HW.
  destruct cr as [e|].
  - subst r. split.
    + split; [discriminate | intros [H _]; discriminate].
    + intros e' He'. congruence.
  - destruct HW as (Hr & _). split.
    + split; [intros ->; auto | intros [_ H]; congruence].
    + discriminate.
Qed.

Lemma failureFirst_holds (s : Session I S) : failureFirst fetch s.
Proof.
  intros e Hc Hw. unfold step. rewrite Hc. unfold stepWait. rewrite Hw.
  cbn. auto.
Qed.

Lemma Inv_waitOrder (s : Session I S) : Inv s -> callInv s -> waitOrder s.
Proof.
  intros (_ & _ & (Hq & _ & _ & HW) & _) HC.
  unfold waitOrder, callInv in *.
  destruct (waiter s) as [| | |[e|] r|]; try exact Logic.I.
  - split; [exact HW|]. destruct HC as [older HC]. exists older.
    split; [exact HC|]. rewrite Hq, <- existsb_waitEvents, HC. reflexivity.
  - destruct HC as (older & HC & _). destruct HW as (Hr & _ & Hcl).
    split; [eauto|]. split; assumption.
Qed.

Lemma Inv_waitReturns (s : Session I S) : Inv s -> waitReturns fetch s.
Proof.
  destruct s as [i t [bo co clo] [be ce cle] [bq cq clq] w r h].
  unfold Inv, taskInv, slotInv, waitInv, orderInv, waitReturns.
  session_simpl.
  intros (HT & (Hcap & Hbuf) & (Hq & Hqb & Hrq & HW) & (Ho1 & Ho2)) Hc Hw Hcl.
  subst ce bq w.
  assert (Hnr : existsb isRecvReturn h = false).
  { destruct (existsb isRecvReturn h); [|reflexivity].
    specialize (Hrq eq_refl). congruence. }
  clear Hrq HW Hq. subst clq. rewrite Hnr in Hbuf.
  destruct t as [|e0|m| | | |]; try contradiction.
  - destruct HT as (H1 & H2 & H3 & H3' & H3'' & H4). subst clo cle.
    rewrite H3' in Hbuf. subst be.
    destruct (fetch i) as [m i'|[e1|]] eqn:Hf;
      cbn; unfold stepTask; cbn; rewrite Hf; cbn; eauto.
  - destruct HT as (H1 & H2 & H3 & H3' & H3'' & H4). subst clo cle.
    rewrite H3' in Hbuf. subst be. cbn. eauto.
  - destruct HT as (H1 & H2 & H3 & H3' & H3'' & H4). subst clo cle.
    rewrite H3' in Hbuf. subst be. cbn. eauto.
  - destruct HT as (H1 & H2 & H4). subst clo cle.
    destruct (reported h); subst be; cbn; eauto.
  - destruct HT as (H1 & H2 & H4). subst clo cle.
    destruct (reported h); subst be; cbn; eauto.
  - destruct HT as (H1 & H2 & H4). subst clo cle.
    destruct (reported h); subst be; cbn; eauto.
Qed.

Lemma Inv_not_crashed (s : Session I S) :
  Inv s -> waiter s <> WPanicked -> crashed s = false.
Proof.
  intros (HT & _) Hw. unfold crashed, taskInv in *.
  destruct (task s); try contradiction; destruct (waiter s); congruence.
Qed.

Lemma taskSide_step (s : Session I S) (ch : Choice) :
  isTaskSide ch = true ->
  waiter (step fetch s ch) = waiter s /\ quit (step fetch s ch) = quit s.
Proof.
  intros Hch. unfold step. destruct (crashed s); [auto|].
  destruct ch; try discriminate.
  - unfold stepTask, taskPanics.
    destruct (task s); cbn; auto.
    + destruct (fetch (input s)) as [m i'|[e|]]; cbn; auto.
    + destruct (chan_send (exitStatus s) e); cbn; auto.
    + destruct (closed (output s)); cbn; auto.
      destruct (chan_recv (quit s)); cbn; auto.
    + destruct (chan_close (exitStatus s)); cbn; auto.
    + destruct (chan_close (output s)); cbn; auto.
  - unfold stepReceive, taskPanics.
    destruct (task s); cbn; auto.
    destruct (closed (output s)); cbn; auto.
Qed.

Lemma taskSide_run (mid : list Choice) (s : Session I S) :
  forallb isTaskSide mid = true ->
  waiter (run fetch s mid) = waiter s /\ quit (run fetch s mid) = quit s.
Proof.
  revert s. induction mid as [|ch mid IH]; intros s Hmid; [cbn; auto|].
  cbn [forallb] in Hmid. apply andb_true_iff in Hmid as [Hch Hmid].
  change (run fetch s (ch :: mid)) with (run fetch (step fetch s ch) mid).
  destruct (IH (step fetch s ch) Hmid) as [-> ->].
  apply taskSide_step, Hch.
Qed.

Lemma Inv_secondWaitPanics (s : Session I S) : Inv s -> secondWaitPanics fetch s.
Proof.
  intros HI r mid Hw Hmid.
  assert (Hq : closed (quit s) = true).
  { destruct HI as (_ & _ & (_ & _ & _ & HW) & _). rewrite Hw in HW. tauto. }
  change (CallWait None :: mid ++ [RunWait])
    with ([CallWait None] ++ mid ++ [RunWait]).
  rewrite !run_app.
  set (s1 := run fetch s [CallWait None]).
  assert (H1 : waiter s1 = WGotExit None /\ quit s1 = quit s).
  { unfold s1. cbn. unfold step.
    rewrite (Inv_not_crashed s HI) by (rewrite Hw; discriminate).
    unfold stepCallWait. rewrite Hw. cbn. auto. }
  assert (HI1 : Inv s1) by (apply run_Inv, HI).
  set (s2 := run fetch s1 mid).
  assert (HI2 : Inv s2) by (apply run_Inv, HI1).
  destruct (taskSide_run mid s1 Hmid) as [Hw2 Hq2]. fold s2 in Hw2, Hq2.
  destruct H1 as [Hw1 Hq1]. rewrite Hw1 in Hw2. rewrite Hq1 in Hq2.
  cbn. unfold step.
  rewrite (Inv_not_crashed s2 HI2) by (rewrite Hw2; discriminate).
  unfold stepWait, chan_close. rewrite Hw2, Hq2, Hq. reflexivity.
Qed.

Lemma crashed_step (s : Session I S) (ch : Choice) :
  crashed s = true -> step fetch s ch = s.
Proof. intros H. unfold step. rewrite H. reflexivity. Qed.

Lemma Inv_surfacesExit (s : Session I S) : Inv s -> surfacesExit fetch s.
Proof.
  intros HI Hw mid1 mid2 Hm1 Hm2.
  assert (Hnc : crashed s = false).
  { apply Inv_not_crashed; [exact HI|].
    destruct Hw as [E|(c & r & E)]; rewrite E; discriminate. }
  assert (Hmid : forall cr,
             waiter (run fetch s (CallWait cr :: mid1)) = WGotExit cr
             /\ Inv (run fetch s (CallWait cr :: mid1))).
  { intros cr.
    change (run fetch s (CallWait cr :: mid1))
      with (run fetch (step fetch s (CallWait cr)) mid1).
    split; [|apply run_Inv, step_Inv, HI].
    rewrite (proj1 (taskSide_run mid1 _ Hm1)).
    unfold step. rewrite Hnc. unfold stepCallWait.
    destruct Hw as [E|(c & r & E)]; rewrite E; reflexivity. }
  split.
  - intros e before after. subst before after.
    destruct (Hmid (Some e)) as [Hg Hi].
    split; [exact Hg|].
    apply failureFirst_holds; [|exact Hg].
    apply Inv_not_crashed; [exact Hi|]. rewrite Hg. discriminate.
  - intros cr r after Hret. subst after.
    set (after := run fetch s (CallWait None :: mid1 ++ RunWait :: mid2 ++ [RunWait])) in *.
    assert (Hia : Inv after) by (apply run_Inv, HI).
    assert (Hcr : cr = None).
    { destruct (Hmid None) as [Hg Hi].
      revert Hret. unfold after.
      change (CallWait None :: mid1 ++ RunWait :: mid2 ++ [RunWait])
        with ((CallWait None :: mid1) ++ RunWait :: mid2 ++ [RunWait]).
      rewrite run_app.
      set (s1 := run fetch s (CallWait None :: mid1)) in *.
      change (run fetch s1 (RunWait :: mid2 ++ [RunWait]))
        with (run fetch (step fetch s1 RunWait) (mid2 ++ [RunWait])).
      rewrite run_app.
      set (s2 := step fetch s1 RunWait).
      assert (H2 : waiter s2 = WReceiving \/ waiter s2 = WPanicked).
      { unfold s2, step.
        rewrite (Inv_not_crashed s1 Hi) by (rewrite Hg; discriminate).
        unfold stepWait. rewrite Hg.
        destruct (chan_close (quit s1)); cbn; auto. }
      set (s3 := run fetch s2 mid2).
      assert (H3 : waiter s3 = waiter s2) by (apply taskSide_run, Hm2).
      change (run fetch s3 [RunWait]) with (step fetch s3 RunWait).
      unfold step. destruct (crashed s3) eqn:Hc3.
      - rewrite H3. destruct H2 as [E|E]; rewrite E; discriminate.
      - unfold stepWait. rewrite H3.
        destruct H2 as [E|E]; rewrite E.
        + destruct (chan_recv (exitStatus s3)) as [[v c]| |]; cbn [waiter].
          * intros H. inversion H. reflexivity.
          * rewrite H3, E. discriminate.
          * rewrite H3, E. discriminate.
        + rewrite H3, E. discriminate. }
    split; [exact Hcr|]. subst cr.
    destruct (Inv_waitResult after Hia None r Hret) as [Hiff _].
    rewrite Hiff. split; [intros [_ H]; exact H | auto].
Qed.



End SessionClaims.

(* ================================================================== *)
(** ** The statistics line: [SplitN] against the fields *)

Lemma tabFields_nonempty (line : list byte) : tabFields line <> [].
Proof.
  destruct line as [|c rest]; cbn; [discriminate|].
  destruct (Byte.eqb c TAB); [discriminate|].
  destruct (tabFields rest); discriminate.
Qed.

Lemma cut_tabFields (line : list byte) :
  match cut line TAB with
  | None => tabFields line = [line] /\ ~ In TAB line
  | Some (before, after) =>
      tabFields line = before :: tabFields after /\ ~ In TAB before
  end.
Proof.
  induction line as [|c rest IH]; cbn.
  - split; [reflexivity | tauto].
  - destruct (Byte.eqb c TAB) eqn:E.
    + split; [reflexivity | tauto].
    + apply byte_eqb_neq in E.
      destruct (cut rest TAB) as [[before after]|].
      * destruct IH as [-> Hn]. split; [reflexivity|].
        cbn. intros [H|H]; [congruence | tauto].
      * destruct IH as [-> Hn]. split; [reflexivity|].
        cbn. intros [H|H]; [congruence | tauto].
Qed.

Lemma tabFields_In (line : list byte) :
  (2 <= length (tabFields line))%nat -> In TAB line.
Proof.
  pose proof (cut_tabFields line) as H.
  destruct (cut line TAB) as [[before after]|] eqn:E.
  - intros _. clear H. revert before after E.
    induction line as [|c rest IH]; cbn; [discriminate|].
    intros before after. destruct (Byte.eqb c TAB) eqn:Ec.
    + apply byte_eqb_eq in Ec. auto.
    + destruct (cut rest TAB) as [[b a]|]; [|discriminate].
      intros _. right. eapply IH. reflexivity.
  - destruct H as [-> _]. cbn. lia.
Qed.

Lemma isDigit_TAB : isDigit TAB = false.
Proof. reflexivity. Qed.

Lemma ParseUint10_no_TAB (s : list byte) (bitSize v : Z) :
  ParseUint10 s bitSize = Ok v -> ~ In TAB s.
Proof.
  unfold ParseUint10. destruct s as [|c0 s0]; [discriminate|].
  set (maxVal := (2 ^ _ mod 2 ^ 64 - 1) mod 2 ^ 64). clearbody maxVal.
  generalize 0 as n. generalize (c0 :: s0) as s. clear.
  induction s as [|c s IH]; intros n; cbn [parseDigits In]; [tauto|].
  destruct (isDigit c) eqn:Hc; [|discriminate].
  destruct (_ <=? n); [discriminate|].
  destruct (_ || _); [discriminate|].
  intros H [Hin|Hin].
  - subst c. rewrite isDigit_TAB in Hc. discriminate.
  - exact (IH _ H Hin).
Qed.

(** [SplitN] with [n = 3] against the fields of the line. *)
Lemma SplitN3_tabFields (line : list byte) :
  match tabFields line with
  | [a] => SplitN line TAB 3 = [a]
  | [a; b] => SplitN line TAB 3 = [a; b]
  | [a; b; c] => SplitN line TAB 3 = [a; b; c]
  | a :: b :: _ :: _ :: _ =>
      exists remainder, SplitN line TAB 3 = [a; b; remainder] /\ In TAB remainder
  | [] => False
  end.
Proof.
  cbn [SplitN].
  pose proof (cut_tabFields line) as H1.
  destruct (cut line TAB) as [[a rest1]|].
  2:{ destruct H1 as [-> _]. reflexivity. }
  destruct H1 as [-> _].
  pose proof (cut_tabFields rest1) as H2.
  pose proof (tabFields_In rest1) as Hin1.
  destruct (cut rest1 TAB) as [[b rest2]|].
  2:{ destruct H2 as [-> _]. reflexivity. }
  destruct H2 as [E2 _]. rewrite E2 in *.
  pose proof (tabFields_In rest2) as Hin2.
  pose proof (tabFields_nonempty rest2) as Hne.
  pose proof (cut_tabFields rest2) as H3.
  destruct (tabFields rest2) as [|c [|d more]] eqn:E3; [congruence| |].
  - destruct (cut rest2 TAB) as [[x y]|].
    + destruct H3 as [H3 _]. inversion H3 as [[Hx Hy]].
      exfalso. symmetry in Hy. exact (tabFields_nonempty y Hy).
    + destruct H3 as [H3 _]. inversion H3. reflexivity.
  - exists rest2. split; [reflexivity|]. apply Hin2. cbn. lia.
Qed.

Lemma parseStatisticsLine_fail_kind (line : list byte) (e : error) :
  parseStatisticsLine line = Fail e -> isDecodeError e = true.
Proof.
  unfold parseStatisticsLine.
  destruct (negb _); [intros H; inversion H; reflexivity|].
  destruct (ParseUint10 (nth 1 _ _) 64) as [p|e1] eqn:E1; cbn [bind].
  2:{ intros H; inversion H; subst.
      apply ParseUint10_fail in E1 as [k ->]. reflexivity. }
  destruct (ParseUint10 (nth 2 _ _) 64) as [d|e2] eqn:E2; cbn [bind].
  - discriminate.
  - intros H; inversion H; subst.
    apply ParseUint10_fail in E2 as [k ->]. reflexivity.
Qed.

Lemma parseStatisticsLine_three (line a b c : list byte) :
  tabFields line = [a; b; c] ->
  parseStatisticsLine line =
  let* packetcount := ParseUint10 b 64 in
  let* dropcount := ParseUint10 c 64 in
  Ok (a, packetcount, dropcount).
Proof.
  intros E. pose proof (SplitN3_tabFields line) as H. rewrite E in H.
  unfold parseStatisticsLine. rewrite H. reflexivity.
Qed.


Example parseStatisticsLine_devX :
  parseStatisticsLine statsLine = Ok (bytes "devX", 123, 456).
Proof. reflexivity. Qed.

Example parseStatisticsLine_gibberish :
  parseStatisticsLine (bytes "foobar") = Fail IllegalOutput.
Proof. reflexivity. Qed.

Example parseStatisticsLine_four_fields :
  parseStatisticsLine (statsLine ++ TAB :: bytes "7") = Fail (NumError ErrSyntax).
Proof. reflexivity. Qed.

(* ================================================================== *)
(** ** The codec: general facts behind the claims *)

Lemma interpret_text (t : byte) (text : list byte) :
  t <> DropCountMsg -> t <> PacketCountMsg -> t <> ErrMsg ->
  interpret t text = Ok (mkPipeMessage t 0 0 text).
Proof.
  intros H1 H2 H3. unfold interpret.
  apply byte_eqb_neq in H1, H2, H3. rewrite H1, H2, H3. reflexivity.
Qed.

Lemma interpret_count (t : byte) (text : list byte) :
  t = DropCountMsg \/ t = PacketCountMsg ->
  interpret t text =
  let* i := ParseUint10 text 0 in
  Ok (if Byte.eqb t DropCountMsg then mkPipeMessage t i 0 text
      else mkPipeMessage t 0 i text).
Proof.
  intros [-> | ->]; unfold interpret; cbn [Byte.eqb];
    destruct (ParseUint10 text 0); reflexivity.
Qed.

Lemma isCount_ParseUint10 (text : list byte) (bitSize : Z) :
  bitSize = 0 \/ bitSize = 64 ->
  isCount text -> ParseUint10 text bitSize = Ok (decimalValue text).
Proof.
  intros Hb [H1 H2]. apply ParseUint10_spec; auto.
Qed.

Lemma not_isCount_ParseUint10 (text : list byte) (bitSize : Z) :
  bitSize = 0 \/ bitSize = 64 ->
  ~ isCount text -> exists k, ParseUint10 text bitSize = Fail (NumError k).
Proof.
  intros Hb Hn. destruct (ParseUint10_total text bitSize) as [[v Hv]|H]; [|exact H].
  exfalso. apply Hn. apply ParseUint10_spec in Hv; [|exact Hb].
  destruct Hv as (H1 & H2 & H3). split; [assumption | lia].
Qed.

(** An Err frame whose payload, without its final NUL if it has one, is
    two frames and anything after them. *)
Lemma readPipeMsg_err_two_frames
    (a b : byte) (payload p1 p2 trailing rest : list byte) (cl : error) :
  Z.of_nat (length p1) < 2 ^ 24 -> Z.of_nat (length p2) < 2 ^ 24 ->
  Z.of_nat (length payload) < 2 ^ 24 ->
  stripNUL payload = encodeFrame a p1 ++ encodeFrame b p2 ++ trailing ->
  readPipeMsg (mkReader (encodeFrame ErrMsg payload ++ rest) cl)
  = Ok (mkPipeMessage ErrMsg 0 0 (stripNUL p1 ++ stripNUL p2), mkReader rest cl).
Proof.
  intros H1 H2 H3 Hs.
  rewrite readPipeMsg_frame by assumption. rewrite Hs.
  unfold interpret. cbn [Byte.eqb]. unfold NewReader.
  rewrite parsePipeErrMsg_frames by assumption. reflexivity.
Qed.

(** What [parsePipeMsg] can fail with on a reader that ends with [io.EOF]. *)
Lemma parsePipeMsg_fail_kind (bs : list byte) (e : error) :
  parsePipeMsg (NewReader bs) = Fail e -> e = EOF \/ e = ErrUnexpectedEOF.
Proof.
  unfold parsePipeMsg, NewReader, ReadFull. cbn [pending closing isEOF].
  destruct (4 <=? length bs)%nat.
  - cbn [bind]. destruct (msgSizeOf _ =? 0); [discriminate|].
    destruct (_ <=? _)%nat; [discriminate|].
    destruct (skipn 4 bs); cbn [bind]; intros H; inversion H; auto.
  - destruct bs; cbn [bind]; intros H; inversion H; auto.
Qed.

Lemma parsePipeMsg_closing (input : Reader) (t : byte) (text : list byte)
    (input' : Reader) :
  parsePipeMsg input = Ok (t, text, input') -> closing input' = closing input.
Proof.
  unfold parsePipeMsg, ReadFull.
  destruct (4 <=? length (pending input))%nat; cbn [bind].
  2:{ destruct (pending input); discriminate. }
  destruct (msgSizeOf _ =? 0).
  { intros H; inversion H; reflexivity. }
  cbn [pending closing].
  destruct (_ <=? _)%nat; cbn [bind].
  - intros H; inversion H; reflexivity.
  - destruct (skipn 4 (pending input)); discriminate.
Qed.

(** An Err frame whose payload does not hold two frames makes
    [readPipeMsg] fail, with [io.EOF] or [io.ErrUnexpectedEOF]. *)
Lemma readPipeMsg_err_malformed (payload rest : list byte) (cl e : error) :
  Z.of_nat (length payload) < 2 ^ 24 ->
  parsePipeErrMsg (NewReader (stripNUL payload)) = Fail e ->
  readPipeMsg (mkReader (encodeFrame ErrMsg payload ++ rest) cl) = Fail e
  /\ (e = EOF \/ e = ErrUnexpectedEOF).
Proof.
  intros Hlen Hf. rewrite readPipeMsg_frame by assumption.
  unfold interpret. cbn [Byte.eqb]. rewrite Hf. split; [reflexivity|].
  unfold parsePipeErrMsg in Hf.
  destruct (parsePipeMsg (NewReader (stripNUL payload))) as [[[t1 m1] r1]|e1] eqn:E1;
    cbn [bind] in Hf.
  2:{ inversion Hf; subst. eapply parsePipeMsg_fail_kind; eassumption. }
  pose proof (parsePipeMsg_closing _ _ _ _ E1) as Hcl. cbn in Hcl.
  destruct r1 as [p1 c1]. cbn in Hcl. subst c1.
  destruct (parsePipeMsg (mkReader p1 EOF)) as [[[t2 m2] r2]|e2] eqn:E2;
    cbn [bind] in Hf; [discriminate|].
  inversion Hf; subst. eapply parsePipeMsg_fail_kind. exact E2.
Qed.

(** Exhausted and truncated streams. *)
Lemma parsePipeMsg_exhausted : parsePipeMsg (NewReader []) = Fail EOF.
Proof. reflexivity. Qed.

Lemma parsePipeMsg_short_header (bs : list byte) :
  (0 < length bs < 4)%nat -> parsePipeMsg (NewReader bs) = Fail ErrUnexpectedEOF.
Proof.
  intros H. unfold parsePipeMsg, NewReader, ReadFull. cbn [pending closing].
  replace (4 <=? length bs)%nat with false by (symmetry; apply Nat.leb_gt; lia).
  destruct bs; [cbn in H; lia | reflexivity].
Qed.

Lemma parsePipeMsg_short_payload (hdr avail : list byte) :
  length hdr = 4%nat -> Z.of_nat (length avail) < msgSizeOf hdr ->
  parsePipeMsg (NewReader (hdr ++ avail))
  = Fail (match avail with [] => EOF | _ :: _ => ErrUnexpectedEOF end).
Proof.
  intros H4 Hlt. unfold parsePipeMsg, NewReader.
  rewrite <- H4 at 1. rewrite ReadFull_app. cbn [bind].
  replace (msgSizeOf hdr =? 0) with false by (symmetry; apply Z.eqb_neq; lia).
  unfold ReadFull. cbn [pending closing isEOF].
  replace (Z.to_nat (msgSizeOf hdr) <=? length avail)%nat with false
    by (symmetry; apply Nat.leb_gt; lia).
  destruct avail; reflexivity.
Qed.

Lemma readPipeMsg_parse_fail (input : Reader) (e : error) :
  parsePipeMsg input = Fail e -> readPipeMsg input = Fail e.
Proof. intros H. unfold readPipeMsg. rewrite H. reflexivity. Qed.

(* ================================================================== *)
(** ** The claims about the codec *)

(** C1, as stated, fails: the text "abc" has no NUL byte, and its frame of
    type DropCount is not decoded to a message at all. *)
Lemma C1_counterexample :
  ~ In x00 (bytes "abc") /\ ~ roundTrips DropCountMsg (bytes "abc").
Proof.
  split.
  - cbn. intros [H|[H|[H|H]]]; try discriminate. exact H.
  - intros (msg & rest & H & _). vm_compute in H. discriminate.
Qed.

(** C1, amended: for every text whose length with the terminator fits the
    24-bit length field (with or without NUL bytes inside), whatever follows
    the frame: a frame of a type other than DropCount, PacketCount and Err
    is decoded to that type and text; a DropCount or PacketCount frame is
    decoded to that type and text, with the count in its field, if the text
    is a count, and is refused otherwise; an Err frame made of two nested
    frames is decoded to the two texts, one after the other. *)
Theorem C1_round_trip (t : byte) (text rest : list byte) (cl : error) :
  Z.of_nat (length text) + 1 < 2 ^ 24 ->
  let input := mkReader (generateMsg t text ++ rest) cl in
  (t <> DropCountMsg -> t <> PacketCountMsg -> t <> ErrMsg ->
   readPipeMsg input = Ok (mkPipeMessage t 0 0 text, mkReader rest cl))
  /\ (t = DropCountMsg -> isCount text ->
      readPipeMsg input
      = Ok (mkPipeMessage t (decimalValue text) 0 text, mkReader rest cl))
  /\ (t = PacketCountMsg -> isCount text ->
      readPipeMsg input
      = Ok (mkPipeMessage t 0 (decimalValue text) text, mkReader rest cl))
  /\ (t = DropCountMsg \/ t = PacketCountMsg -> ~ isCount text ->
      exists k, readPipeMsg input = Fail (NumError k))
  /\ (forall text2,
        Z.of_nat (length text) + Z.of_nat (length text2) + 11 < 2 ^ 24 ->
        readPipeMsg (mkReader (generateErrorMsg text text2 ++ rest) cl)
        = Ok (mkPipeMessage ErrMsg 0 0 (text ++ text2), mkReader rest cl)).
Proof.
  intros Hlen input.
  assert (Hframe : readPipeMsg input
                   = let* msg := interpret t text in Ok (msg, mkReader rest cl)).
  { unfold input. rewrite generateMsg_frame, readPipeMsg_frame.
    - rewrite stripNUL_terminated. reflexivity.
    - rewrite length_app. cbn [length]. lia. }
  repeat split.
  - intros H1 H2 H3. rewrite Hframe, interpret_text by assumption. reflexivity.
  - intros -> Hc. rewrite Hframe, interpret_count by auto.
    rewrite (isCount_ParseUint10 text 0) by auto. reflexivity.
  - intros -> Hc. rewrite Hframe, interpret_count by auto.
    rewrite (isCount_ParseUint10 text 0) by auto. reflexivity.
  - intros Ht Hc. rewrite Hframe, interpret_count by assumption.
    destruct (not_isCount_ParseUint10 text 0 ltac:(auto) Hc) as [k ->].
    exists k. reflexivity.
  - intros text2 Hlen2. unfold generateErrorMsg.
    rewrite (generateMsg_frame ErrMsg (_ ++ _)).
    rewrite readPipeMsg_frame, stripNUL_terminated.
    2:{ rewrite !generateMsg_frame. unfold encodeFrame.
        repeat first [rewrite length_app | progress cbn [length]]. lia. }
    unfold interpret. cbn [Byte.eqb]. unfold NewReader.
    rewrite !generateMsg_frame.
    rewrite <- (app_nil_r (encodeFrame ErrMsg (text2 ++ [x00]))).
    rewrite parsePipeErrMsg_frames.
    + rewrite !stripNUL_terminated. reflexivity.
    + rewrite length_app. cbn [length]. lia.
    + rewrite length_app. cbn [length]. lia.
Qed.

Lemma C1_round_trip_witness :
  readPipeMsg (mkReader (generateMsg SuccessMsg (bytes "This is a huge success")
                         ++ [x01]) PathError)
  = Ok (mkPipeMessage SuccessMsg 0 0 (bytes "This is a huge success"),
        mkReader [x01] PathError).
Proof.
  refine (proj1 (C1_round_trip SuccessMsg (bytes "This is a huge success")
                               [x01] PathError _) _ _ _).
  - reflexivity.
  - discriminate.
  - discriminate.
  - discriminate.
Defined.

(** C3, at its failing inputs: an Err frame with an empty payload, and an
    Err frame whose payload is one nested frame only, make [readPipeMsg]
    return [io.EOF], the value it returns for an exhausted stream and no
    decode error; the capture goroutine takes it for the end of the stream:
    it ends without reporting an error and never reads the File frame that
    follows. *)
Theorem C3_err_malformed_is_EOF :
  readPipeMsg (NewReader (encodeFrame ErrMsg [])) = Fail EOF
  /\ readPipeMsg (NewReader (generateMsg ErrMsg (generateMsg ErrMsg (bytes "x"))))
     = Fail EOF
  /\ readPipeMsg (NewReader []) = Fail EOF
  /\ isDecodeError EOF = false
  /\ (let s := captureRun
                 (NewCapture (NewReader (encodeFrame ErrMsg []
                                         ++ generateMsg FileMsg (bytes "foobar"))))
                 [RunTask; RunTask; RunTask; RunTask] in
      task s = TDone /\ reported (history s) = None /\ received s = []).
Proof.
  repeat split; vm_compute; reflexivity.
Qed.

(** C4: for every DropCount or PacketCount frame (the payload with or
    without a final NUL, whatever follows the frame), if the text is a
    count (one or more ASCII digits, of a value that fits the 64-bit
    field), [readPipeMsg] returns a message of that type whose DropCount,
    respectively PacketCount, is exactly that value; if it is not, it
    fails with a [strconv.NumError], which is a decode error and no I/O
    error. *)
Theorem C4_count_frames (t : byte) (payload rest : list byte) (cl : error) :
  t = DropCountMsg \/ t = PacketCountMsg ->
  Z.of_nat (length payload) < 2 ^ 24 ->
  let text := stripNUL payload in
  let decoded := readPipeMsg (mkReader (encodeFrame t payload ++ rest) cl) in
  (isCount text ->
   exists msg,
     decoded = Ok (msg, mkReader rest cl)
     /\ Type_ msg = t
     /\ (if Byte.eqb t DropCountMsg then DropCount msg else PacketCount msg)
        = decimalValue text)
  /\ (~ isCount text ->
      exists e, decoded = Fail e /\ isDecodeError e = true /\ isIOError e = false).
Proof.
  intros Ht Hlen text decoded. unfold decoded.
  rewrite readPipeMsg_frame by assumption. fold text.
  rewrite interpret_count by assumption. split.
  - intros Hc. rewrite (isCount_ParseUint10 text 0) by auto. cbn [bind].
    eexists. split; [reflexivity|].
    destruct Ht as [-> | ->]; cbn; auto.
  - intros Hc. destruct (not_isCount_ParseUint10 text 0 ltac:(auto) Hc) as [k ->].
    exists (NumError k). repeat split.
Qed.

Lemma C4_count_frames_witness :
  exists msg,
    readPipeMsg (mkReader (encodeFrame PacketCountMsg (bytes "123" ++ [x00]) ++ []) EOF)
    = Ok (msg, mkReader [] EOF)
    /\ Type_ msg = PacketCountMsg
    /\ PacketCount msg = 123.
Proof.
  refine (proj1 (C4_count_frames PacketCountMsg (bytes "123" ++ [x00]) [] EOF
                                 _ _) _).
  - right. reflexivity.
  - reflexivity.
  - split; reflexivity.
Defined.

(** C5, as stated, fails: the message decoded from the PacketCount frame
    of the tests has its count and its text set. *)
Lemma C5_counterexample :
  exists msg rest,
    readPipeMsg (NewReader (generateMsg PacketCountMsg (bytes "123"))) = Ok (msg, rest)
    /\ PacketCount msg = 123 /\ Text msg = bytes "123"
    /\ ~ exactlyOnePopulated msg.
Proof.
  eexists. eexists. split; [vm_compute; reflexivity|].
  cbn. repeat split. intros (_ & _ & H). discriminate.
Qed.

(** What [interpret] puts in the fields. *)
Lemma interpret_fields (t : byte) (b : list byte) (msg : PipeMessage) :
  interpret t b = Ok msg ->
  Type_ msg = t
  /\ (t <> ErrMsg -> Text msg = b)
  /\ (t <> DropCountMsg -> DropCount msg = 0)
  /\ (t <> PacketCountMsg -> PacketCount msg = 0)
  /\ (t = DropCountMsg -> ParseUint10 b 0 = Ok (DropCount msg))
  /\ (t = PacketCountMsg -> ParseUint10 b 0 = Ok (PacketCount msg)).
Proof.
  unfold interpret.
  destruct (Byte.eqb t DropCountMsg) eqn:E1.
  { apply byte_eqb_eq in E1. subst t.
    destruct (ParseUint10 b 0) as [v|]; cbn [bind]; [|discriminate].
    intros H; inversion H; subst; cbn.
    repeat split; intros; try congruence; try discriminate. }
  destruct (Byte.eqb t ErrMsg) eqn:E2.
  { apply byte_eqb_eq in E2. subst t.
    destruct (parsePipeErrMsg (NewReader b)); cbn [bind]; [|discriminate].
    intros H; inversion H; subst; cbn.
    repeat split; intros; try congruence; try discriminate. }
  destruct (Byte.eqb t PacketCountMsg) eqn:E3.
  { apply byte_eqb_eq in E3. subst t.
    destruct (ParseUint10 b 0) as [v|]; cbn [bind]; [|discriminate].
    intros H; inversion H; subst; cbn.
    repeat split; intros; try congruence; try discriminate. }
  apply byte_eqb_neq in E1, E3.
  intros H; inversion H; subst; cbn.
  repeat split; intros; try congruence; try contradiction.
Qed.

(** A text that [parsePipeMsg] returns was read from a header of four
    bytes and the payload that the header announces. *)
Lemma parsePipeMsg_Ok (input input' : Reader) (t : byte) (text : list byte) :
  parsePipeMsg input = Ok (t, text, input') ->
  exists hdr payload,
    pending input = hdr ++ payload ++ pending input'
    /\ length hdr = 4%nat
    /\ Z.of_nat (length payload) = msgSizeOf hdr
    /\ t = nth 0 hdr x00
    /\ text = stripNUL payload
    /\ closing input' = closing input.
Proof.
  unfold parsePipeMsg.
  destruct (ReadFull input 4) as [[hdr r1]|e] eqn:E1; cbn [bind]; [|discriminate].
  apply ReadFull_Ok in E1 as (Hp1 & Hl1 & Hc1).
  pose proof (msgSizeOf_bound hdr) as Hb.
  destruct (Z.eqb_spec (msgSizeOf hdr) 0) as [H0|H0].
  - intros H. inversion H. subst. exists hdr, [].
    cbn [app length]. rewrite H0. repeat split; auto.
  - destruct (ReadFull r1 (Z.to_nat (msgSizeOf hdr))) as [[payload r2]|e] eqn:E2;
      cbn [bind]; [|discriminate].
    apply ReadFull_Ok in E2 as (Hp2 & Hl2 & Hc2).
    intros H. inversion H. subst. exists hdr, payload.
    rewrite Hp1, Hp2. repeat split; auto; try lia; congruence.
Qed.

(** The text of an Err message is made of the payloads of two nested
    frames at the head of the payload, each without its final NUL. *)
Lemma parsePipeErrMsg_Ok (b text : list byte) :
  parsePipeErrMsg (NewReader b) = Ok text ->
  exists hdr1 text1 hdr2 text2 trailing,
    b = hdr1 ++ text1 ++ hdr2 ++ text2 ++ trailing
    /\ length hdr1 = 4%nat /\ Z.of_nat (length text1) = msgSizeOf hdr1
    /\ length hdr2 = 4%nat /\ Z.of_nat (length text2) = msgSizeOf hdr2
    /\ text = stripNUL text1 ++ stripNUL text2.
Proof.
  unfold parsePipeErrMsg.
  destruct (parsePipeMsg (NewReader b)) as [[[t1 e1] r1]|] eqn:E1; cbn [bind];
    [|discriminate].
  destruct (parsePipeMsg r1) as [[[t2 e2] r2]|] eqn:E2; cbn [bind]; [|discriminate].
  apply parsePipeMsg_Ok in E1 as (hdr1 & text1 & Hp1 & Hl1 & Hs1 & _ & He1 & _).
  apply parsePipeMsg_Ok in E2 as (hdr2 & text2 & Hp2 & Hl2 & Hs2 & _ & He2 & _).
  intros H. inversion H. subst.
  exists hdr1, text1, hdr2, text2, (pending r2).
  cbn [NewReader pending] in Hp1. rewrite Hp1, Hp2. repeat split; assumption.
Qed.

Lemma interpret_err (b : list byte) (msg : PipeMessage) :
  interpret ErrMsg b = Ok msg -> parsePipeErrMsg (NewReader b) = Ok (Text msg).
Proof.
  unfold interpret. cbn [Byte.eqb].
  destruct (parsePipeErrMsg (NewReader b)); cbn [bind]; [|discriminate].
  intros H. inversion H. reflexivity.
Qed.

(** C5, amended: in every message that [readPipeMsg] returns, DropCount is
    zero unless the type is DropCount, PacketCount is zero unless the type
    is PacketCount, and Text is set whatever the type: to the text of the
    payload for every type but Err, so that a message of type DropCount or
    PacketCount carries both the text of the count and, in its field, the
    value that [ParseUint] gives for that text; and for the type Err to
    the two texts, one after the other, of the two nested frames that the
    payload begins with, each without its final NUL. *)
Theorem C5_fields_by_type (input input' : Reader) (msg : PipeMessage) :
  readPipeMsg input = Ok (msg, input') ->
  (Type_ msg <> DropCountMsg -> DropCount msg = 0)
  /\ (Type_ msg <> PacketCountMsg -> PacketCount msg = 0)
  /\ (exists payloadText,
        parsePipeMsg input = Ok (Type_ msg, payloadText, input')
        /\ (Type_ msg <> ErrMsg -> Text msg = payloadText)
        /\ (Type_ msg = ErrMsg ->
            exists hdr1 text1 hdr2 text2 trailing,
              payloadText = hdr1 ++ text1 ++ hdr2 ++ text2 ++ trailing
              /\ length hdr1 = 4%nat /\ Z.of_nat (length text1) = msgSizeOf hdr1
              /\ length hdr2 = 4%nat /\ Z.of_nat (length text2) = msgSizeOf hdr2
              /\ Text msg = stripNUL text1 ++ stripNUL text2))
  /\ (Type_ msg = DropCountMsg ->
      ParseUint10 (Text msg) 0 = Ok (DropCount msg) /\ isCount (Text msg))
  /\ (Type_ msg = PacketCountMsg ->
      ParseUint10 (Text msg) 0 = Ok (PacketCount msg) /\ isCount (Text msg)).
Proof.
  rewrite readPipeMsg_interpret.
  destruct (parsePipeMsg input) as [[[t b] r]|e]; cbn [bind]; [|discriminate].
  destruct (interpret t b) as [m|e] eqn:Ei; cbn [bind]; [|discriminate].
  intros H. inversion H. subst m r. clear H.
  destruct (interpret_fields t b msg Ei) as (Ht & Htext & Hd & Hp & Hdv & Hpv).
  assert (Hcount : forall v, ParseUint10 (Text msg) 0 = Ok v -> isCount (Text msg)).
  { intros v Hv. apply ParseUint10_spec in Hv; [|auto].
    destruct Hv as (H1 & H2 & H3). split; [assumption | lia]. }
  subst t.
  split; [exact Hd|]. split; [exact Hp|]. split.
  { exists b. split; [reflexivity|]. split; [exact Htext|].
    intros E. rewrite E in Ei. apply parsePipeErrMsg_Ok, interpret_err, Ei. }
  split; intros E.
  - assert (Hne : Type_ msg <> ErrMsg) by (rewrite E; discriminate).
    rewrite (Htext Hne) in *. eauto.
  - assert (Hne : Type_ msg <> ErrMsg) by (rewrite E; discriminate).
    rewrite (Htext Hne) in *. eauto.
Qed.

(** The Err message of the tests. *)
Lemma C5_fields_by_type_witness :
  (ErrMsg <> DropCountMsg -> 0 = 0)
  /\ (ErrMsg <> PacketCountMsg -> 0 = 0)
  /\ (exists payloadText,
        parsePipeMsg (NewReader (generateErrorMsg (bytes "Not so much")
                                                  (bytes "Something is wrong")))
        = Ok (ErrMsg, payloadText, NewReader [])
        /\ (ErrMsg <> ErrMsg -> bytes "Not so muchSomething is wrong" = payloadText)
        /\ (ErrMsg = ErrMsg ->
            exists hdr1 text1 hdr2 text2 trailing,
              payloadText = hdr1 ++ text1 ++ hdr2 ++ text2 ++ trailing
              /\ length hdr1 = 4%nat /\ Z.of_nat (length text1) = msgSizeOf hdr1
              /\ length hdr2 = 4%nat /\ Z.of_nat (length text2) = msgSizeOf hdr2
              /\ bytes "Not so muchSomething is wrong"
                 = stripNUL text1 ++ stripNUL text2))
  /\ (ErrMsg = DropCountMsg ->
      ParseUint10 (bytes "Not so muchSomething is wrong") 0 = Ok 0
      /\ isCount (bytes "Not so muchSomething is wrong"))
  /\ (ErrMsg = PacketCountMsg ->
      ParseUint10 (bytes "Not so muchSomething is wrong") 0 = Ok 0
      /\ isCount (bytes "Not so muchSomething is wrong")).
Proof.
  refine (C5_fields_by_type
            (NewReader (generateErrorMsg (bytes "Not so much")
                                         (bytes "Something is wrong")))
            (NewReader [])
            (mkPipeMessage ErrMsg 0 0 (bytes "Not so muchSomething is wrong")) _).
  vm_compute. reflexivity.
Defined.

(** C6, at its failing input: a stream that ends right after a header
    announcing five bytes of payload is truncated, and [readPipeMsg]
    returns [io.EOF] for it, the value it returns for an exhausted stream
    and no I/O error; the capture goroutine then ends without reporting an
    error. With one byte of the payload present, the error is
    [io.ErrUnexpectedEOF]. *)
Theorem C6_truncated_after_header_is_EOF :
  msgSizeOf [SuccessMsg; x00; x00; x05] = 5
  /\ readPipeMsg (NewReader [SuccessMsg; x00; x00; x05]) = Fail EOF
  /\ readPipeMsg (NewReader []) = Fail EOF
  /\ isIOError EOF = false
  /\ readPipeMsg (NewReader [SuccessMsg; x00; x00; x05; x41]) = Fail ErrUnexpectedEOF
  /\ (let s := captureRun (NewCapture (NewReader [SuccessMsg; x00; x00; x05]))
                          [RunTask; RunTask; RunTask] in
      task s = TDone /\ reported (history s) = None).
Proof.
  repeat split; vm_compute; reflexivity.
Qed.

(** The rest of C6 holds: an exhausted stream gives [io.EOF]; a stream that
    ends inside the header, or inside the payload after at least one byte
    of it, gives [io.ErrUnexpectedEOF]; no truncated stream gives a
    message. *)
Lemma readPipeMsg_exhausted_truncated (bs : list byte) :
  (bs = [] -> readPipeMsg (NewReader bs) = Fail EOF)
  /\ ((0 < length bs < 4)%nat -> readPipeMsg (NewReader bs) = Fail ErrUnexpectedEOF)
  /\ (forall hdr avail,
        bs = hdr ++ avail -> length hdr = 4%nat ->
        Z.of_nat (length avail) < msgSizeOf hdr ->
        readPipeMsg (NewReader bs)
        = Fail (match avail with [] => EOF | _ :: _ => ErrUnexpectedEOF end)).
Proof.
  repeat split.
  - intros ->. reflexivity.
  - intros H. apply readPipeMsg_parse_fail, parsePipeMsg_short_header, H.
  - intros hdr avail -> H4 Hlt.
    apply readPipeMsg_parse_fail, parsePipeMsg_short_payload; assumption.
Qed.

(* ================================================================== *)
(** ** The claims about sessions *)

Lemma capture_Inv (stderr : Reader) (sched : list Choice) :
  Inv (captureRun (NewCapture stderr) sched).
Proof. apply reachable_Inv. Qed.

Lemma statistics_Inv (stdout : Scanner) (sched : list Choice) :
  Inv (statisticsRun (NewStatistics stdout) sched).
Proof. apply reachable_Inv. Qed.

(** C2: in every state of a capture or statistics session in which a call
    of [Wait] has returned, it has returned nil if and only if
    [child.Wait()] had returned nil and the goroutine has put no error on
    [exitStatus]; a failure of [child.Wait()] is what [Wait] returns, by
    its next statement, which does not touch [exitStatus] (nor [quit]).
    The result of [child.Wait()] is the one of the call itself: from every
    state in which [Wait] can be called, a call whose [child.Wait()] fails
    with [e] returns [e], whatever the goroutine and the consumer do and
    whatever is on [exitStatus]; and a call whose [child.Wait()] gives nil
    and that returns, returns nil exactly if no error was reported. *)
Theorem C2_wait_result (stderr : Reader) (stdout : Scanner) (sched : list Choice) :
  (waitResult (captureRun (NewCapture stderr) sched)
   /\ failureFirst captureFetch (captureRun (NewCapture stderr) sched)
   /\ surfacesExit captureFetch (captureRun (NewCapture stderr) sched))
  /\ (waitResult (statisticsRun (NewStatistics stdout) sched)
      /\ failureFirst statisticsFetch (statisticsRun (NewStatistics stdout) sched)
      /\ surfacesExit statisticsFetch (statisticsRun (NewStatistics stdout) sched)).
Proof.
  split; split; [| split | | split].
  - apply Inv_waitResult, capture_Inv.
  - apply failureFirst_holds.
  - apply Inv_surfacesExit, capture_Inv.
  - apply Inv_waitResult, statistics_Inv.
  - apply failureFirst_holds.
  - apply Inv_surfacesExit, statistics_Inv.
Qed.

Example capture_of_the_tests :
  let s := captureRun (NewCapture (NewReader testCapture)) testSchedule in
  received s
  = [mkPipeMessage FileMsg 0 0 (bytes "foobar");
     mkPipeMessage PacketCountMsg 0 123 (bytes "123");
     mkPipeMessage DropCountMsg 456 0 (bytes "456")]
  /\ waiter s = WReturned None None
  /\ task s = TDone.
Proof. vm_compute. repeat split. Qed.

(** A capture whose goroutine has reported a malformed count, and whose
    child then fails: [Wait] returns the failure of the child; and the
    capture of the tests, in which [Wait] returns nil. *)
Lemma C2_wait_result_witness :
  (let before :=
     run captureFetch
         (captureRun (NewCapture (NewReader (generateMsg DropCountMsg (bytes "abc"))))
                     [RunTask; RunTask])
         (CallWait (Some (ExitError 1)) :: [RunTask]) in
   let after := step captureFetch before RunWait in
   waiter before = WGotExit (Some (ExitError 1))
   /\ waiter after = WReturned (Some (ExitError 1)) (Some (ExitError 1))
   /\ exitStatus after = exitStatus before
   /\ quit after = quit before)
  /\ ((@None error = None
       <-> @None error = None
           /\ reported (history (captureRun (NewCapture (NewReader testCapture))
                                            testSchedule)) = None)
      /\ (forall e : error, None = Some e -> @None error = Some e)).
Proof.
  split.
  - refine (proj1 (proj2 (proj2 (proj1
              (C2_wait_result (NewReader (generateMsg DropCountMsg (bytes "abc")))
                              (mkScanner [] None) [RunTask; RunTask])))
              _ [RunTask] [] _ _) (ExitError 1)).
    + left. reflexivity.
    + reflexivity.
    + reflexivity.
  - refine (proj1 (proj1 (C2_wait_result (NewReader testCapture) (mkScanner [] None)
                                         testSchedule)) None None _).
    reflexivity.
Defined.


Example statistics_of_the_tests :
  let s := statisticsRun (NewStatistics testStats)
             [RunTask; Receive; RunTask; Receive; RunTask; RunTask; RunTask; RunTask;
              Receive; RunTask; CallWait None; RunWait; RunWait] in
  received s
  = [mkDeviceStatistics (bytes "devX") 123 456;
     mkDeviceStatistics (bytes "devX") 123 456]
  /\ lines (input s) = [bytes "foobar"; statsLine]
  /\ task s = TDone
  /\ waiter s = WReturned None (Some IllegalOutput).
Proof. vm_compute. repeat split. Qed.

(** C8: in every state of a capture or statistics session, the goroutine
    has not panicked; the output channel is closed if and only if the
    goroutine has ended; before that the record holds no close of the
    output channel, after that it holds exactly one, with no event of the
    goroutine (no hand-over in particular) after it; and a goroutine that
    is on its way out, by the end of the stream, a decode error or the quit
    signal, ends within four of its statements. *)
Theorem C8_output_closed_once (stderr : Reader) (stdout : Scanner)
    (sched : list Choice) :
  closedOnceAfterExit captureFetch (captureRun (NewCapture stderr) sched)
  /\ closedOnceAfterExit statisticsFetch (statisticsRun (NewStatistics stdout) sched).
Proof.
  split.
  - apply Inv_closedOnceAfterExit, capture_Inv.
  - apply Inv_closedOnceAfterExit, statistics_Inv.
Qed.

(** C9, as stated, fails: after a failed exit of the child, [Wait] has
    returned and [quit] is open. *)
Lemma C9_counterexample :
  waiter (captureRun (NewCapture (NewReader testCapture))
                     [CallWait (Some (ExitError 1)); RunWait])
  = WReturned (Some (ExitError 1)) (Some (ExitError 1))
  /\ closed (quit (captureRun (NewCapture (NewReader testCapture))
                              [CallWait (Some (ExitError 1)); RunWait])) = false
  /\ ~ cancelsOnEveryReturn
         (captureRun (NewCapture (NewReader testCapture))
                     [CallWait (Some (ExitError 1)); RunWait]).
Proof.
  repeat split. intros H.
  specialize (H (Some (ExitError 1)) (Some (ExitError 1)) eq_refl).
  discriminate.
Qed.

(** C9, amended: in every state of a capture or statistics session, the
    last call of [Wait] that has returned after a clean exit of the child
    has run [child.Wait()], then closed [quit], then received from
    [exitStatus] and returned what it received, which is the error that
    the goroutine reported, or nil; a call that has returned after a failed
    exit has run [child.Wait()] and returned its failure, leaving [quit] as
    it was; and after a clean exit [Wait] does return, once the goroutine
    has had four turns. *)
Theorem C9_wait_order (stderr : Reader) (stdout : Scanner) (sched : list Choice) :
  (waitOrder (captureRun (NewCapture stderr) sched)
   /\ waitReturns captureFetch (captureRun (NewCapture stderr) sched))
  /\ (waitOrder (statisticsRun (NewStatistics stdout) sched)
      /\ waitReturns statisticsFetch (statisticsRun (NewStatistics stdout) sched)).
Proof.
  split; split.
  - apply Inv_waitOrder; [apply capture_Inv | apply reachable_callInv].
  - apply Inv_waitReturns, capture_Inv.
  - apply Inv_waitOrder; [apply statistics_Inv | apply reachable_callInv].
  - apply Inv_waitReturns, statistics_Inv.
Qed.

(** C10: in every state of a capture or statistics session in which a
    call of [Wait] has returned after a clean exit of the child (so [quit]
    is closed), a second call of [Wait] for which [child.Wait()] returns
    nil again panics at [close(quit)], whatever the goroutine and the
    consumer do between the two statements of that call. *)
Theorem C10_second_wait_panics (stderr : Reader) (stdout : Scanner)
    (sched : list Choice) :
  secondWaitPanics captureFetch (captureRun (NewCapture stderr) sched)
  /\ secondWaitPanics statisticsFetch (statisticsRun (NewStatistics stdout) sched).
Proof.
  split.
  - apply Inv_secondWaitPanics, capture_Inv.
  - apply Inv_secondWaitPanics, statistics_Inv.
Qed.

Lemma C10_second_wait_panics_witness :
  waiter (run captureFetch (captureRun (NewCapture (NewReader testCapture)) testSchedule)
              (CallWait None :: [RunTask; Receive] ++ [RunWait])) = WPanicked.
Proof.
  refine (proj1 (C10_second_wait_panics (NewReader testCapture)
                                        (mkScanner [] None) testSchedule)
                None [RunTask; Receive] _ _).
  - reflexivity.
  - reflexivity.
Defined.

(* ================================================================== *)
(** ** More about the codec *)

(** X1. A message that [readPipeMsg] returns was read from exactly one
    frame at the head of the input: four header bytes and as many payload
    bytes as the header announces (fewer than 2^24); its type is the first
    header byte; what follows the frame is left unread, so the reader has
    advanced by at least four bytes. *)
Theorem readPipeMsg_consumes_one_frame (input input' : Reader) (msg : PipeMessage) :
  readPipeMsg input = Ok (msg, input') ->
  exists hdr payload,
    pending input = hdr ++ payload ++ pending input'
    /\ length hdr = 4%nat
    /\ Z.of_nat (length payload) = msgSizeOf hdr
    /\ Z.of_nat (length payload) < 2 ^ 24
    /\ Type_ msg = nth 0 hdr x00
    /\ (Type_ msg <> ErrMsg -> Text msg = stripNUL payload)
    /\ closing input' = closing input
    /\ (length (pending input') + 4 <= length (pending input))%nat.
Proof.
  rewrite readPipeMsg_interpret. unfold parsePipeMsg.
  destruct (ReadFull input 4) as [[hdr r1]|e] eqn:E1; cbn [bind]; [|discriminate].
  apply ReadFull_Ok in E1 as (Hp1 & Hl1 & Hc1).
  pose proof (msgSizeOf_bound hdr) as Hb.
  destruct (Z.eqb_spec (msgSizeOf hdr) 0) as [H0|H0].
  - cbn [bind].
    destruct (interpret (nth 0 hdr x00) []) as [m|e] eqn:Ei; cbn [bind]; [|discriminate].
    intros H. inversion H. subst m r1. clear H.
    destruct (interpret_fields _ _ _ Ei) as (Ht & Htext & _).
    exists hdr, []. cbn [app length]. rewrite H0.
    assert (Hlen : length (pending input) = (length hdr + length (pending input'))%nat)
      by (rewrite Hp1, length_app; reflexivity).
    assert (Htx : Type_ msg <> ErrMsg -> Text msg = stripNUL [])
      by (intros Hne; apply Htext; congruence).
    repeat split; auto; try lia.
  - destruct (ReadFull r1 (Z.to_nat (msgSizeOf hdr))) as [[payload r2]|e] eqn:E2;
      cbn [bind]; [|discriminate].
    apply ReadFull_Ok in E2 as (Hp2 & Hl2 & Hc2).
    destruct (interpret (nth 0 hdr x00) (stripNUL payload)) as [m|e] eqn:Ei;
      cbn [bind]; [|discriminate].
    intros H. inversion H. subst m r2. clear H.
    destruct (interpret_fields _ _ _ Ei) as (Ht & Htext & _).
    exists hdr, payload.
    assert (Hlen : length (pending input)
                   = (length hdr + (length payload + length (pending input')))%nat)
      by (rewrite Hp1, Hp2, !length_app; reflexivity).
    assert (Hcat : pending input = hdr ++ payload ++ pending input')
      by (rewrite Hp1, Hp2; reflexivity).
    assert (Htx : Type_ msg <> ErrMsg -> Text msg = stripNUL payload)
      by (intros Hne; apply Htext; congruence).
    repeat split; auto; try lia; try congruence.
Qed.

Lemma readPipeMsg_consumes_one_frame_witness :
  exists hdr payload,
    pending (NewReader testCapture)
    = hdr ++ payload
      ++ pending (NewReader (generateMsg PacketCountMsg (bytes "123")
                             ++ generateMsg DropCountMsg (bytes "456")))
    /\ length hdr = 4%nat
    /\ Z.of_nat (length payload) = msgSizeOf hdr
    /\ Z.of_nat (length payload) < 2 ^ 24
    /\ FileMsg = nth 0 hdr x00
    /\ (FileMsg <> ErrMsg -> bytes "foobar" = stripNUL payload)
    /\ EOF = EOF
    /\ (length (pending (NewReader (generateMsg PacketCountMsg (bytes "123")
                                    ++ generateMsg DropCountMsg (bytes "456")))) + 4
        <= length (pending (NewReader testCapture)))%nat.
Proof.
  refine (readPipeMsg_consumes_one_frame
            (NewReader testCapture)
            (NewReader (generateMsg PacketCountMsg (bytes "123")
                        ++ generateMsg DropCountMsg (bytes "456")))
            (mkPipeMessage FileMsg 0 0 (bytes "foobar")) _).
  reflexivity.
Defined.

(** X2. When the frame cannot be read, the error of [parsePipeMsg] is the
    one the reader ends with, or [io.ErrUnexpectedEOF] for a reader that
    ends with [io.EOF] inside a header or a payload. For a pipe that was
    closed under the reader ([os.PathError]) it is always that error, which
    the capture goroutine does not report: it leaves its loop with no
    error for [exitStatus]. *)
Theorem parsePipeMsg_failure (bs : list byte) (cl e : error) :
  parsePipeMsg (mkReader bs cl) = Fail e ->
  (e = cl \/ (cl = EOF /\ e = ErrUnexpectedEOF))
  /\ (cl = PathError -> captureFetch (mkReader bs cl) = Stop None).
Proof.
  intros Hf.
  assert (He : e = cl \/ (cl = EOF /\ e = ErrUnexpectedEOF)).
  { unfold parsePipeMsg in Hf.
    destruct (ReadFull (mkReader bs cl) 4) as [[hdr r1]|e1] eqn:E1; cbn [bind] in Hf.
    - apply ReadFull_Ok in E1 as (_ & _ & Hc1). cbn in Hc1.
      destruct (msgSizeOf hdr =? 0); [discriminate|].
      destruct (ReadFull r1 _) as [[p r2]|e2] eqn:E2; cbn [bind] in Hf; [discriminate|].
      injection Hf as <-. apply ReadFull_Fail in E2. rewrite Hc1 in E2. tauto.
    - injection Hf as <-. apply ReadFull_Fail in E1. cbn in E1. tauto. }
  split; [exact He|].
  intros ->. unfold captureFetch. rewrite (readPipeMsg_parse_fail _ _ Hf).
  destruct He as [-> | [H _]]; [reflexivity | discriminate].
Qed.

Lemma parsePipeMsg_failure_witness :
  (PathError = PathError \/ (PathError = EOF /\ PathError = ErrUnexpectedEOF))
  /\ (PathError = PathError ->
      captureFetch (mkReader [SuccessMsg; x00; x00; x05; x41] PathError) = Stop None).
Proof.
  refine (parsePipeMsg_failure [SuccessMsg; x00; x00; x05; x41] PathError PathError _).
  reflexivity.
Defined.

(** X3. An Err frame whose payload is exactly two nested frames, the second
    one NUL-terminated, with no terminator of its own after them, is
    refused: the NUL that [parsePipeMsg] strips from the end of the payload
    is the terminator of the second nested message, whose frame is then one
    byte short; the error is [io.ErrUnexpectedEOF], or [io.EOF] when the
    second text is empty. *)
Theorem err_frame_without_own_terminator
    (a b : byte) (p1 text2 rest : list byte) (cl : error) :
  Z.of_nat (length p1) < 2 ^ 24 ->
  Z.of_nat (length p1) + Z.of_nat (length text2) + 9 < 2 ^ 24 ->
  readPipeMsg
    (mkReader (encodeFrame ErrMsg (encodeFrame a p1 ++ encodeFrame b (text2 ++ [x00]))
               ++ rest) cl)
  = Fail (match text2 with [] => EOF | _ :: _ => ErrUnexpectedEOF end).
Proof.
  intros H1 Hall.
  set (L2 := Z.of_nat (length (text2 ++ [x00]))).
  assert (HL2 : L2 = Z.of_nat (length text2) + 1)
    by (unfold L2; rewrite length_app; cbn [length]; lia).
  set (hdr2 := [b; Zbyte (Z.shiftr L2 16); Zbyte (Z.shiftr L2 8); Zbyte L2]).
  assert (Hpay : encodeFrame a p1 ++ encodeFrame b (text2 ++ [x00])
                 = (encodeFrame a p1 ++ hdr2 ++ text2) ++ [x00]).
  { unfold encodeFrame at 2. fold L2. fold hdr2. rewrite <- !app_assoc. reflexivity. }
  rewrite readPipeMsg_frame.
  2:{ unfold encodeFrame. repeat first [rewrite length_app | progress cbn [length]]. lia. }
  rewrite Hpay, stripNUL_terminated.
  unfold interpret. cbn [Byte.eqb]. unfold NewReader, parsePipeErrMsg.
  rewrite parsePipeMsg_frame by assumption. cbn [bind].
  unfold parsePipeMsg.
  change 4%nat with (length hdr2). rewrite ReadFull_app. cbn [bind].
  assert (Hsz : msgSizeOf hdr2 = L2) by (apply msgSizeOf_header; lia).
  rewrite Hsz.
  replace (L2 =? 0) with false by (symmetry; apply Z.eqb_neq; lia).
  unfold ReadFull. cbn [pending closing isEOF].
  replace (Z.to_nat L2 <=? length text2)%nat with false
    by (symmetry; apply Nat.leb_gt; lia).
  destruct text2; reflexivity.
Qed.

Lemma err_frame_without_own_terminator_witness :
  readPipeMsg
    (mkReader (encodeFrame ErrMsg (encodeFrame ErrMsg (bytes "Not so much" ++ [x00])
                                   ++ encodeFrame ErrMsg (bytes "Something is wrong" ++ [x00]))
               ++ []) EOF)
  = Fail ErrUnexpectedEOF.
Proof.
  refine (err_frame_without_own_terminator
            ErrMsg ErrMsg (bytes "Not so much" ++ [x00]) (bytes "Something is wrong")
            [] EOF _ _).
  - reflexivity.
  - reflexivity.
Defined.

Lemma stripNUL_unterminated (inner : list byte) :
  last inner x01 <> x00 -> stripNUL inner = inner.
Proof.
  intros Hl. unfold stripNUL.
  destruct inner as [|c inner _] using rev_ind; [reflexivity|].
  rewrite last_last in Hl. rewrite length_app. cbn [length].
  replace (length inner + 1 - 1)%nat with (length inner) by lia.
  rewrite app_nth2 by lia. rewrite Nat.sub_diag. cbn [nth].
  apply byte_eqb_neq in Hl. rewrite Hl, andb_false_r. reflexivity.
Qed.

(** X4. In an Err frame the types of the two nested frames are not looked
    at, and whatever follows the second nested frame inside the payload is
    ignored: for a payload that is two nested frames, anything after them
    and a terminating NUL of its own (as the test encoder writes it), the
    text is that of the two nested frames, each without its final NUL; and
    the same holds without the terminating NUL, if what is then the end of
    the payload is not a NUL (the case of X3). *)
Theorem err_frame_nested_types_and_trailing_ignored
    (a b : byte) (p1 p2 trailing rest : list byte) (cl : error) :
  let inner := encodeFrame a p1 ++ encodeFrame b p2 ++ trailing in
  Z.of_nat (length p1) < 2 ^ 24 -> Z.of_nat (length p2) < 2 ^ 24 ->
  Z.of_nat (length inner) + 1 < 2 ^ 24 ->
  readPipeMsg (mkReader (encodeFrame ErrMsg (inner ++ [x00]) ++ rest) cl)
  = Ok (mkPipeMessage ErrMsg 0 0 (stripNUL p1 ++ stripNUL p2), mkReader rest cl)
  /\ (last inner x01 <> x00 ->
      readPipeMsg (mkReader (encodeFrame ErrMsg inner ++ rest) cl)
      = Ok (mkPipeMessage ErrMsg 0 0 (stripNUL p1 ++ stripNUL p2), mkReader rest cl)).
Proof.
  intros inner H1 H2 H3. split.
  - apply (readPipeMsg_err_two_frames a b (inner ++ [x00]) p1 p2 trailing rest cl H1 H2).
    + rewrite length_app. cbn [length]. lia.
    + apply stripNUL_terminated.
  - intros Hl.
    apply (readPipeMsg_err_two_frames a b inner p1 p2 trailing rest cl H1 H2).
    + lia.
    + apply stripNUL_unterminated, Hl.
Qed.

Lemma err_frame_nested_types_and_trailing_ignored_witness :
  readPipeMsg
    (mkReader (encodeFrame ErrMsg ((encodeFrame FileMsg (bytes "ab" ++ [x00])
                                    ++ encodeFrame SuccessMsg (bytes "cd")
                                    ++ bytes "junk") ++ [x00])
               ++ [x07]) PathError)
  = Ok (mkPipeMessage ErrMsg 0 0 (stripNUL (bytes "ab" ++ [x00]) ++ stripNUL (bytes "cd")),
        mkReader [x07] PathError)
  /\ (last (encodeFrame FileMsg (bytes "ab" ++ [x00])
            ++ encodeFrame SuccessMsg (bytes "cd") ++ bytes "junk") x01 <> x00 ->
      readPipeMsg
        (mkReader (encodeFrame ErrMsg (encodeFrame FileMsg (bytes "ab" ++ [x00])
                                       ++ encodeFrame SuccessMsg (bytes "cd")
                                       ++ bytes "junk")
                   ++ [x07]) PathError)
      = Ok (mkPipeMessage ErrMsg 0 0
              (stripNUL (bytes "ab" ++ [x00]) ++ stripNUL (bytes "cd")),
            mkReader [x07] PathError)).
Proof.
  refine (err_frame_nested_types_and_trailing_ignored
            FileMsg SuccessMsg (bytes "ab" ++ [x00]) (bytes "cd") (bytes "junk")
            [x07] PathError _ _ _).
  - reflexivity.
  - reflexivity.
  - reflexivity.
Defined.

(* ================================================================== *)
(** ** What a session hands over: order and errors *)

Section Delivery.

Variables I S : Type.
Variable fetch : S -> Fetched I S.

Lemma step_deliversInOrder (i0 : S) (s : Session I S) (ch : Choice) :
  deliversInOrder fetch i0 s -> deliversInOrder fetch i0 (step fetch s ch).
Proof.
  destruct s as [i t o e q w r h].
  unfold step. destruct (crashed _); [trivial|].
  unfold deliversInOrder. cbn [task input received].
  intros (extra & HF & Hlen & HL & HS).
  destruct ch as [| |cr|].
  - unfold stepTask, taskPanics. cbn [task input output exitStatus quit received].
    destruct t as [|e0|m| | | |].
    + specialize (HL eq_refl). subst extra. rewrite app_nil_r in HF.
      destruct (fetch i) as [m i'|[e1|]] eqn:Hf; cbn [task input received].
      * exists [m]. repeat split; try (cbn; lia); try discriminate.
        -- eapply Fetches_snoc; eassumption.
        -- intros m' H. inversion H. reflexivity.
      * exists []. rewrite app_nil_r.
        repeat split; try (cbn; lia); try discriminate; assumption.
      * exists []. rewrite app_nil_r.
        repeat split; try (cbn; lia); try discriminate; assumption.
    + destruct (chan_send e e0); cbn [task input received];
        exists extra; repeat split; try assumption; try discriminate.
    + destruct (closed o); cbn [task input received].
      * exists extra. repeat split; try assumption; discriminate.
      * destruct (chan_recv q); cbn [task input received];
          exists extra; repeat split; try assumption; try discriminate.
    + destruct (chan_close e); cbn [task input received];
        exists extra; repeat split; try assumption; try discriminate.
    + destruct (chan_close o); cbn [task input received];
        exists extra; repeat split; try assumption; try discriminate.
    + exists extra. repeat split; assumption.
    + exists extra. repeat split; assumption.
  - unfold stepReceive, taskPanics. cbn [task input output received].
    destruct t as [|e0|m| | | |]; try (exists extra; repeat split; assumption).
    specialize (HS m eq_refl). subst extra.
    destruct (closed o); cbn [task input received].
    + exists [m]. repeat split; try assumption; try discriminate.
    + exists []. rewrite app_nil_r.
      repeat split; try (cbn; lia); try discriminate. assumption.
  - unfold stepCallWait. cbn [waiter].
    destruct w; cbn [task input received]; exists extra; repeat split; assumption.
  - unfold stepWait. cbn [waiter quit exitStatus].
    destruct w as [|[e1|]| |cr0 r0|]; cbn [task input received];
      try (exists extra; repeat split; assumption).
    + destruct (chan_close q); cbn [task input received];
        exists extra; repeat split; assumption.
    + destruct (chan_recv e) as [[v c]| |]; cbn [task input received];
        exists extra; repeat split; assumption.
Qed.

Lemma run_deliversInOrder (i0 : S) (sched : list Choice) (s : Session I S) :
  deliversInOrder fetch i0 s -> deliversInOrder fetch i0 (run fetch s sched).
Proof.
  revert s. induction sched as [|ch sched IH]; intros s Hs; cbn.
  - exact Hs.
  - apply IH, step_deliversInOrder, Hs.
Qed.

Lemma reachable_deliversInOrder (i0 : S) (sched : list Choice) :
  deliversInOrder fetch i0 (run fetch (init i0) sched).
Proof.
  apply run_deliversInOrder. exists []. cbn.
  repeat split; try lia; try discriminate. constructor.
Qed.

(** Once the goroutine has left its loop, it stays out of it and the
    consumer gets nothing more. *)
Lemma pastLoop_step (s : Session I S) (ch : Choice) :
  pastLoop s = true ->
  pastLoop (step fetch s ch) = true
  /\ received (step fetch s ch) = received s
  /\ input (step fetch s ch) = input s.
Proof.
  destruct s as [i t o e q w r h].
  unfold step. destruct (crashed _); [auto|].
  unfold pastLoop. cbn [task]. intros Hp.
  destruct ch as [| |cr|].
  - unfold stepTask, taskPanics. cbn [task input output exitStatus quit received].
    destruct t as [|e0|m| | | |]; try discriminate; cbn; auto.
    + destruct (chan_send e e0); cbn; auto.
    + destruct (chan_close e); cbn; auto.
    + destruct (chan_close o); cbn; auto.
  - unfold stepReceive. cbn [task].
    destruct t; try discriminate; cbn; auto.
  - unfold stepCallWait. cbn [waiter]. destruct w; cbn; auto.
  - unfold stepWait. cbn [waiter quit exitStatus].
    destruct w as [|[e1|]| |cr0 r0|]; cbn; auto.
    + destruct (chan_close q); cbn; auto.
    + destruct (chan_recv e) as [[v c]| |]; cbn; auto.
Qed.

Lemma pastLoop_run (sched : list Choice) (s : Session I S) :
  pastLoop s = true ->
  pastLoop (run fetch s sched) = true
  /\ received (run fetch s sched) = received s
  /\ input (run fetch s sched) = input s.
Proof.
  revert s. induction sched as [|ch sched IH]; intros s Hp; [cbn; auto|].
  change (run fetch s (ch :: sched)) with (run fetch (step fetch s ch) sched).
  destruct (pastLoop_step s ch Hp) as (H1 & H2 & H3).
  destruct (IH _ H1) as (H4 & H5 & H6).
  rewrite H5, H6, H2, H3. auto.
Qed.

Lemma Inv_returned_pastLoop (s : Session I S) (r : option error) :
  Inv s -> waiter s = WReturned None r -> pastLoop s = true.
Proof.
  intros (HT & _ & (_ & _ & _ & HW) & _) Hw. rewrite Hw in HW.
  destruct HW as (Hr & Hcl & _).
  unfold pastLoop, taskInv in *.
  destruct (task s); try reflexivity.
  - destruct HT as (_ & H2 & _ & H3 & _). rewrite H3 in Hr. subst r.
    specialize (Hcl eq_refl). congruence.
  - destruct HT as (_ & H2 & _ & H3 & _). rewrite H3 in Hr. subst r.
    specialize (Hcl eq_refl). congruence.
Qed.

Lemma step_failedAfterReceived (i0 : S) (s : Session I S) (ch : Choice) :
  Inv s -> deliversInOrder fetch i0 s ->
  failedAfterReceived fetch i0 s -> failedAfterReceived fetch i0 (step fetch s ch).
Proof.
  intros HI HD HF.
  assert (Hnone : pastLoop s = false -> reported (history s) = None).
  { destruct HI as (HT & _). unfold taskInv, pastLoop in *.
    destruct (task s); try discriminate; intros _; tauto. }
  assert (Hloop : task s = TLoop -> Fetches fetch i0 (received s) (input s)).
  { intros E. destruct HD as (extra & HFx & _ & HL & _).
    rewrite (HL E), app_nil_r in HFx. exact HFx. }
  clear HI HD.
  destruct s as [i t o e q w r h].
  unfold step. destruct (crashed _); [exact HF|].
  unfold failedAfterReceived, pastLoop in *.
  cbn [task history input received] in *.
  destruct HF as (HT & HR).
  assert (Hkeep : forall (t' : TaskPC I) (ev : Event),
            (forall e', t' = TReport e' -> t = TReport e') ->
            (forall e', ev = EvSendExit e' -> t = TReport e') ->
            (forall e', t' = TReport e' ->
               Fetches fetch i0 r i /\ fetch i = Stop (Some e'))
            /\ (forall e', reported (ev :: h) = Some e' ->
                Fetches fetch i0 r i /\ fetch i = Stop (Some e'))).
  { intros t' ev H1 H2. split.
    - intros e' E. apply HT, H1, E.
    - intros e' E. rewrite reported_cons in E. destruct ev; try (apply HR, E).
      inversion E. subst. apply HT, H2. reflexivity. }
  destruct ch as [| |cr|].
  - unfold stepTask, taskPanics. cbn [task input output exitStatus quit received history].
    destruct t as [|e0|m| | | |].
    + destruct (fetch i) as [m i'|[e1|]] eqn:Hf; cbn [task history input received];
        (split; [|intros e' E; rewrite reported_cons, Hnone in E by reflexivity;
                  discriminate]).
      * discriminate.
      * intros e' E. inversion E. subst. split; [apply Hloop; reflexivity | exact Hf].
      * discriminate.
    + destruct (chan_send e e0); cbn [task history input received].
      * apply Hkeep; [discriminate|]. intros e' E. inversion E. reflexivity.
      * split; assumption.
      * apply Hkeep; discriminate.
    + destruct (closed o); cbn [task history input received];
        [apply Hkeep; discriminate|].
      destruct (chan_recv q); cbn [task history input received];
        try (split; assumption).
      apply Hkeep; discriminate.
    + destruct (chan_close e); cbn [task history input received];
        apply Hkeep; discriminate.
    + destruct (chan_close o); cbn [task history input received];
        apply Hkeep; discriminate.
    + split; assumption.
    + split; assumption.
  - unfold stepReceive, taskPanics. cbn [task input output exitStatus quit received history].
    destruct t as [|e0|m| | | |]; try (split; assumption).
    destruct (closed o); cbn [task history input received];
      [apply Hkeep; discriminate|].
    split; [discriminate|].
    intros e' E. rewrite reported_cons, Hnone in E by reflexivity. discriminate.
  - unfold stepCallWait. cbn [waiter].
    destruct w; cbn [task history input received]; split; assumption.
  - unfold stepWait. cbn [waiter quit exitStatus].
    destruct w as [|[e1|]| |cr0 r0|]; cbn [task history input received];
      try (split; assumption).
    + destruct (chan_close q); cbn [task history input received];
        split; assumption.
    + destruct (chan_recv e) as [[v c]| |]; cbn [task history input received];
        split; assumption.
Qed.

Lemma reachable_failedAfterReceived (i0 : S) (sched : list Choice) :
  failedAfterReceived fetch i0 (run fetch (init i0) sched).
Proof.
  assert (H : forall s, Inv s -> deliversInOrder fetch i0 s ->
                        failedAfterReceived fetch i0 s ->
                        failedAfterReceived fetch i0 (run fetch s sched)).
  { induction sched as [|ch sched IH]; intros s HI HD HF; cbn; [exact HF|].
    apply IH.
    - apply step_Inv, HI.
    - apply step_deliversInOrder, HD.
    - apply step_failedAfterReceived; assumption. }
  apply H.
  - apply init_Inv.
  - exact (reachable_deliversInOrder i0 []).
  - split; cbn; intros e He; discriminate.
Qed.

End Delivery.

Lemma skipn_next {A : Type} (k : nat) (l : list A) (x : A) (r : list A) :
  skipn k l = x :: r ->
  skipn (Datatypes.S k) l = r /\ firstn (Datatypes.S k) l = firstn k l ++ [x].
Proof.
  revert l. induction k as [|k IH]; intros l H.
  - cbn in H. subst l. cbn. auto.
  - destruct l as [|y l]; [discriminate|].
    cbn [skipn] in H. destruct (IH l H) as [H1 H2].
    split.
    + exact H1.
    + change (firstn (Datatypes.S (Datatypes.S k)) (y :: l))
        with (y :: firstn (Datatypes.S k) l).
      rewrite H2. reflexivity.
Qed.

Lemma Fetches_statistics (sc sc' : Scanner) (ms : list DeviceStatistics) :
  Fetches statisticsFetch sc ms sc' ->
  exists k,
    Forall2 parsesTo (firstn k (lines sc)) ms
    /\ lines sc' = skipn k (lines sc)
    /\ scanErr sc' = scanErr sc.
Proof.
  induction 1 as [i|i ms i' m i'' HF IH Hf].
  - exists 0%nat. cbn. repeat split. constructor.
  - destruct IH as (k & HF2 & Hl & He).
    unfold statisticsFetch in Hf.
    destruct (lines i') as [|line rest] eqn:El.
    { destruct (scanErr i') as [err|]; [destruct (negb _)|]; discriminate. }
    destruct (parseStatisticsLine line) as [[[d p] c]|err] eqn:Ep; [|discriminate].
    inversion Hf. subst m i''. clear Hf.
    symmetry in Hl. destruct (skipn_next _ _ _ _ Hl) as [H1 H2].
    exists (Datatypes.S k). rewrite H2. cbn [lines scanErr].
    repeat split; auto.
    apply Forall2_app; [exact HF2|].
    constructor; [|constructor]. unfold parsesTo. cbn. exact Ep.
Qed.

(** X5. In every state of a statistics session, the statistics that the
    consumer got are the parses of the first lines of the output, one per
    line and in the order of the lines, except that the last line parsed
    may not have been handed over (it is held at the select, or was dropped
    at the quit signal); as long as the goroutine is in its loop, the
    scanner stands right after these lines. *)
Theorem statistics_delivered_in_line_order (stdout : Scanner) (sched : list Choice) :
  exists k extra,
    (length extra <= 1)%nat
    /\ Forall2 parsesTo (firstn k (lines stdout))
                        (received (statisticsRun (NewStatistics stdout) sched) ++ extra)
    /\ (pastLoop (statisticsRun (NewStatistics stdout) sched) = false ->
        lines (input (statisticsRun (NewStatistics stdout) sched))
        = skipn k (lines stdout)).
Proof.
  destruct (reachable_deliversInOrder _ _ statisticsFetch stdout sched)
    as (extra & HF & Hlen & _).
  destruct (Fetches_statistics _ _ _ HF) as (k & H1 & H2 & _).
  exists k, extra. split; [exact Hlen|]. split; [exact H1|]. intros _. exact H2.
Qed.

Lemma encodeAll_cons (f : byte * list byte) (frames : list (byte * list byte)) :
  encodeAll (f :: frames) = generateMsg (fst f) (snd f) ++ encodeAll frames.
Proof. reflexivity. Qed.

Lemma Fetches_capture (frames : list (byte * list byte)) (cl : error)
    (ms : list PipeMessage) (r' : Reader) :
  Forall (fun f => Z.of_nat (length (snd f)) + 1 < 2 ^ 24) frames ->
  Fetches captureFetch (mkReader (encodeAll frames) cl) ms r' ->
  exists k,
    Forall2 decodesTo (firstn k frames) ms
    /\ r' = mkReader (encodeAll (skipn k frames)) cl.
Proof.
  intros Hlen HF.
  remember (mkReader (encodeAll frames) cl) as r0 eqn:E0.
  induction HF as [i|i ms i' m i'' HF IH Hf].
  - exists 0%nat. cbn. split; [constructor | exact E0].
  - destruct (IH E0) as (k & HF2 & Hr). subst i'.
    unfold captureFetch in Hf.
    destruct (skipn k frames) as [|[t text] more] eqn:Es.
    { cbn in Hf. unfold readPipeMsg, parsePipeMsg, ReadFull in Hf. cbn in Hf.
      destruct (negb (isPathError cl) && negb (isEOF cl)); discriminate. }
    assert (Ht : Z.of_nat (length text) + 1 < 2 ^ 24).
    { assert (Hin : In (t, text) frames).
      { rewrite <- (firstn_skipn k frames), Es. apply in_or_app. right. left.
        reflexivity. }
      rewrite Forall_forall in Hlen. exact (Hlen _ Hin). }
    rewrite encodeAll_cons in Hf. cbn [fst snd] in Hf.
    rewrite generateMsg_frame, readPipeMsg_frame in Hf
      by (rewrite length_app; cbn [length]; lia).
    rewrite stripNUL_terminated in Hf.
    destruct (interpret t text) as [msg|e] eqn:Ei; cbn [bind] in Hf.
    2:{ destruct (negb (isPathError e) && negb (isEOF e)); discriminate. }
    inversion Hf. subst m i''. clear Hf.
    destruct (skipn_next _ _ _ _ Es) as [H1 H2].
    exists (Datatypes.S k). rewrite H1, H2. split; [|reflexivity].
    apply Forall2_app; [exact HF2|].
    constructor; [|constructor]. exact Ei.
Qed.

(** X6. When dumpcap writes a sequence of frames (of texts that fit the
    length field) and nothing else, then in every state of the capture
    session the messages that the consumer got are the decoded frames,
    one per frame and in the order of the frames, except that the last
    frame decoded may not have been handed over; as long as the goroutine
    is in its loop, the reader stands right after these frames. *)
Theorem capture_delivered_in_frame_order
    (frames : list (byte * list byte)) (cl : error) (sched : list Choice) :
  Forall (fun f => Z.of_nat (length (snd f)) + 1 < 2 ^ 24) frames ->
  exists k extra,
    (length extra <= 1)%nat
    /\ Forall2 decodesTo (firstn k frames)
         (received (captureRun (NewCapture (mkReader (encodeAll frames) cl)) sched)
          ++ extra)
    /\ (pastLoop (captureRun (NewCapture (mkReader (encodeAll frames) cl)) sched) = false ->
        input (captureRun (NewCapture (mkReader (encodeAll frames) cl)) sched)
        = mkReader (encodeAll (skipn k frames)) cl).
Proof.
  intros Hlen.
  destruct (reachable_deliversInOrder _ _ captureFetch
              (mkReader (encodeAll frames) cl) sched)
    as (extra & HF & Hl & _).
  destruct (Fetches_capture _ _ _ _ Hlen HF) as (k & H1 & H2).
  exists k, extra. split; [exact Hl|]. split; [exact H1|]. intros _. exact H2.
Qed.

(** The capture of the tests, with the second frame decoded and held at
    the select. *)
Lemma capture_delivered_in_frame_order_witness :
  exists k extra,
    (length extra <= 1)%nat
    /\ Forall2 decodesTo (firstn k testFrames)
         (received (captureRun (NewCapture (mkReader (encodeAll testFrames) EOF))
                               [RunTask; Receive; RunTask])
          ++ extra)
    /\ (pastLoop (captureRun (NewCapture (mkReader (encodeAll testFrames) EOF))
                             [RunTask; Receive; RunTask]) = false ->
        input (captureRun (NewCapture (mkReader (encodeAll testFrames) EOF))
                          [RunTask; Receive; RunTask])
        = mkReader (encodeAll (skipn k testFrames)) EOF).
Proof.
  refine (capture_delivered_in_frame_order testFrames EOF [RunTask; Receive; RunTask] _).
  repeat constructor.
Defined.

(** X7. A benign closure is never reported: in every state of a capture
    session, the error on [exitStatus], and so the error that [Wait]
    returns after a clean exit of the child, is neither [io.EOF] nor an
    [os.PathError]; it is the error that [readPipeMsg] returns on the
    standard error of this session right after the frames of the messages
    that the consumer received.  In every state of a statistics session it
    is no [os.PathError]; it is the error of [parseStatisticsLine] on the
    line that follows the lines of the statistics that the consumer
    received, or the error of the scanner after the last line. *)
Theorem closure_not_reported (stderr : Reader) (stdout : Scanner)
    (sched : list Choice) (e : error) :
  (reported (history (captureRun (NewCapture stderr) sched)) = Some e
   \/ waiter (captureRun (NewCapture stderr) sched) = WReturned None (Some e) ->
   e <> EOF /\ e <> PathError
   /\ exists r,
        Fetches captureFetch stderr
                (received (captureRun (NewCapture stderr) sched)) r
        /\ readPipeMsg r = Fail e)
  /\ (reported (history (statisticsRun (NewStatistics stdout) sched)) = Some e
      \/ waiter (statisticsRun (NewStatistics stdout) sched) = WReturned None (Some e) ->
      e <> PathError
      /\ exists sc,
           Fetches statisticsFetch stdout
                   (received (statisticsRun (NewStatistics stdout) sched)) sc
           /\ match lines sc with
              | line :: _ => parseStatisticsLine line = Fail e
              | [] => scanErr sc = Some e
              end).
Proof.
  split.
  - intros H.
    assert (Hr : reported (history (captureRun (NewCapture stderr) sched)) = Some e).
    { destruct H as [H|H]; [exact H|].
      pose proof (capture_Inv stderr sched) as (_ & _ & (_ & _ & _ & HW) & _).
      rewrite H in HW. destruct HW as (Hr & _). symmetry. exact Hr. }
    destruct (reachable_failedAfterReceived _ _ captureFetch stderr sched) as (_ & HR).
    destruct (HR e Hr) as [HF Hi].
    fold (NewCapture stderr) in HF, Hi.
    fold (captureRun (NewCapture stderr) sched) in HF, Hi.
    unfold captureFetch in Hi.
    destruct (readPipeMsg (input (captureRun (NewCapture stderr) sched)))
      as [[m i']|err] eqn:Er; [discriminate|].
    destruct (negb (isPathError err) && negb (isEOF err)) eqn:Eb; [|discriminate].
    inversion Hi. subst err. apply andb_true_iff in Eb as [E1 E2].
    split; [intros ->; discriminate|]. split; [intros ->; discriminate|].
    exists (input (captureRun (NewCapture stderr) sched)). split; assumption.
  - intros H.
    assert (Hr : reported (history (statisticsRun (NewStatistics stdout) sched)) = Some e).
    { destruct H as [H|H]; [exact H|].
      pose proof (statistics_Inv stdout sched) as (_ & _ & (_ & _ & _ & HW) & _).
      rewrite H in HW. destruct HW as (Hr & _). symmetry. exact Hr. }
    destruct (reachable_failedAfterReceived _ _ statisticsFetch stdout sched) as (_ & HR).
    destruct (HR e Hr) as [HF Hi].
    fold (NewStatistics stdout) in HF, Hi.
    fold (statisticsRun (NewStatistics stdout) sched) in HF, Hi.
    unfold statisticsFetch in Hi.
    set (sc := input (statisticsRun (NewStatistics stdout) sched)) in *.
    assert (Hcase : e <> PathError
                    /\ match lines sc with
                       | line :: _ => parseStatisticsLine line = Fail e
                       | [] => scanErr sc = Some e
                       end).
    { destruct (lines sc) as [|line rest].
      - destruct (scanErr sc) as [err|]; [|discriminate].
        destruct (negb (isPathError err)) eqn:Eb; [|discriminate].
        inversion Hi. subst err. split; [intros ->; discriminate | reflexivity].
      - destruct (parseStatisticsLine line) as [[[d p] c]|err] eqn:Ep; [discriminate|].
        inversion Hi. subst err. split; [|reflexivity].
        apply parseStatisticsLine_fail_kind in Ep. intros ->. discriminate. }
    destruct Hcase as [Hne Hm]. split; [exact Hne|]. exists sc. split; assumption.
Qed.

(** X8. After [Wait] has returned following a clean exit of the child,
    the goroutine has left its loop: whatever happens next, the consumer
    gets nothing more and nothing more is read. *)
Theorem nothing_delivered_after_wait (stderr : Reader) (stdout : Scanner)
    (sched more : list Choice) (r : option error) :
  (waiter (captureRun (NewCapture stderr) sched) = WReturned None r ->
   received (run captureFetch (captureRun (NewCapture stderr) sched) more)
   = received (captureRun (NewCapture stderr) sched)
   /\ input (run captureFetch (captureRun (NewCapture stderr) sched) more)
      = input (captureRun (NewCapture stderr) sched))
  /\ (waiter (statisticsRun (NewStatistics stdout) sched) = WReturned None r ->
      received (run statisticsFetch (statisticsRun (NewStatistics stdout) sched) more)
      = received (statisticsRun (NewStatistics stdout) sched)
      /\ input (run statisticsFetch (statisticsRun (NewStatistics stdout) sched) more)
         = input (statisticsRun (NewStatistics stdout) sched)).
Proof.
  split; intros Hw.
  - pose proof (Inv_returned_pastLoop _ _ _ r (capture_Inv stderr sched) Hw) as Hp.
    destruct (pastLoop_run _ _ captureFetch more _ Hp) as (_ & H1 & H2). auto.
  - pose proof (Inv_returned_pastLoop _ _ _ r (statistics_Inv stdout sched) Hw) as Hp.
    destruct (pastLoop_run _ _ statisticsFetch more _ Hp) as (_ & H1 & H2). auto.
Qed.

(** A capture whose second frame is a malformed count. *)
Lemma closure_not_reported_witness :
  NumError ErrSyntax <> EOF /\ NumError ErrSyntax <> PathError
  /\ exists r,
       Fetches captureFetch
               (NewReader (generateMsg FileMsg (bytes "foobar")
                           ++ generateMsg PacketCountMsg (bytes "abc")))
               (received (captureRun
                            (NewCapture
                               (NewReader (generateMsg FileMsg (bytes "foobar")
                                           ++ generateMsg PacketCountMsg (bytes "abc"))))
                            [RunTask; Receive; RunTask; RunTask]))
               r
       /\ readPipeMsg r = Fail (NumError ErrSyntax).
Proof.
  refine (proj1 (closure_not_reported
                   (NewReader (generateMsg FileMsg (bytes "foobar")
                               ++ generateMsg PacketCountMsg (bytes "abc")))
                   (mkScanner [] None) [RunTask; Receive; RunTask; RunTask]
                   (NumError ErrSyntax)) _).
  left. reflexivity.
Defined.

Lemma nothing_delivered_after_wait_witness :
  received (run captureFetch
                (captureRun (NewCapture (NewReader testCapture)) testSchedule)
                [RunTask; Receive; RunTask])
  = received (captureRun (NewCapture (NewReader testCapture)) testSchedule)
  /\ input (run captureFetch
                (captureRun (NewCapture (NewReader testCapture)) testSchedule)
                [RunTask; Receive; RunTask])
     = input (captureRun (NewCapture (NewReader testCapture)) testSchedule).
Proof.
  refine (proj1 (nothing_delivered_after_wait
                   (NewReader testCapture) (mkScanner [] None) testSchedule
                   [RunTask; Receive; RunTask] None) _).
  reflexivity.
Defined.

(* ================================================================== *)
(** ** Numbers as text, device types, statistics as text *)

Lemma digit_byte (d : Z) :
  0 <= d <= 9 -> isDigit (Zbyte (48 + d)) = true /\ byteZ (Zbyte (48 + d)) - 48 = d.
Proof.
  intros Hd. unfold isDigit. rewrite byteZ_Zbyte.
  rewrite Z.mod_small by lia.
  change (byteZ x30) with 48. change (byteZ x39) with 57.
  split; [|lia]. apply andb_true_iff. split; apply Z.leb_le; lia.
Qed.

Lemma decimalFrom_app (n : Z) (a b : list byte) :
  decimalFrom n (a ++ b) = decimalFrom (decimalFrom n a) b.
Proof. unfold decimalFrom. apply fold_left_app. Qed.

Lemma formatDigits_spec (fuel : nat) (v : Z) (acc : list byte) :
  0 <= v < 10 ^ Z.of_nat fuel -> (0 < fuel)%nat ->
  exists ds,
    formatDigits fuel v acc = ds ++ acc
    /\ ds <> []
    /\ forallb isDigit ds = true
    /\ decimalFrom 0 ds = v.
Proof.
  revert v acc. induction fuel as [|fuel IH]; intros v acc Hv Hf; [lia|].
  cbn [formatDigits].
  assert (Hd : 0 <= v mod 10 <= 9) by (pose proof (Z.mod_pos_bound v 10); lia).
  destruct (digit_byte _ Hd) as [Hdig Hval].
  destruct (Z.eqb_spec (v / 10) 0) as [Hz|Hnz].
  - exists [Zbyte (48 + v mod 10)]. repeat split.
    + discriminate.
    + cbn [forallb]. rewrite Hdig. reflexivity.
    + unfold decimalFrom. cbn [fold_left]. rewrite Hval.
      pose proof (Z.div_mod v 10). lia.
  - assert (Hq : 0 <= v / 10 < 10 ^ Z.of_nat fuel).
    { split; [apply Z.div_pos; lia|].
      apply Z.div_lt_upper_bound; [lia|].
      replace (Z.of_nat (S fuel)) with (Z.of_nat fuel + 1) in Hv by lia.
      rewrite Z.pow_add_r in Hv by lia. lia. }
    assert (Hpos : (0 < fuel)%nat).
    { destruct fuel; [|lia]. cbn in Hq. lia. }
    destruct (IH (v / 10) (Zbyte (48 + v mod 10) :: acc) Hq Hpos)
      as (ds & Hds & Hne & Hall & Hdec).
    exists (ds ++ [Zbyte (48 + v mod 10)]). repeat split.
    + rewrite Hds, <- app_assoc. reflexivity.
    + destruct ds; discriminate.
    + rewrite forallb_app, Hall. cbn [forallb andb]. rewrite Hdig. reflexivity.
    + rewrite decimalFrom_app, Hdec. unfold decimalFrom. cbn [fold_left]. rewrite Hval.
      pose proof (Z.div_mod v 10). lia.
Qed.

(** The text of a number is a count, and [ParseUint] reads the number
    back from it. *)
Lemma FormatUint10_isCount (v : Z) :
  0 <= v < 2 ^ 64 ->
  isCount (FormatUint10 v) /\ decimalValue (FormatUint10 v) = v
  /\ FormatUint10 v <> [] /\ ~ In TAB (FormatUint10 v).
Proof.
  intros Hv. unfold FormatUint10.
  destruct (formatDigits_spec 20 v []) as (ds & Hds & Hne & Hall & Hdec);
    [cbn; lia | lia |].
  rewrite Hds, app_nil_r.
  assert (Hdecimal : isDecimal ds = true).
  { unfold isDecimal. destruct ds; [congruence | exact Hall]. }
  repeat split; try assumption.
  - unfold decimalValue. rewrite Hdec. lia.
  - intros Hin. rewrite forallb_forall in Hall. specialize (Hall _ Hin).
    rewrite isDigit_TAB in Hall. discriminate.
Qed.

Lemma ParseUint10_FormatUint10 (v : Z) :
  0 <= v < 2 ^ 64 -> ParseUint10 (FormatUint10 v) 64 = Ok v.
Proof.
  intros Hv. destruct (FormatUint10_isCount v Hv) as (Hc & Hd & _).
  rewrite (isCount_ParseUint10 _ 64) by auto. rewrite Hd. reflexivity.
Qed.

Lemma tabFields_no_TAB (a : list byte) : ~ In TAB a -> tabFields a = [a].
Proof.
  induction a as [|c a IH]; intros Hn; [reflexivity|].
  cbn [tabFields]. destruct (Byte.eqb c TAB) eqn:E.
  - apply byte_eqb_eq in E. subst c. exfalso. apply Hn. left. reflexivity.
  - rewrite IH; [reflexivity|]. intros H. apply Hn. right. exact H.
Qed.

Lemma tabFields_app_TAB (a rest : list byte) :
  ~ In TAB a -> tabFields (a ++ TAB :: rest) = a :: tabFields rest.
Proof.
  induction a as [|c a IH]; intros Hn; [reflexivity|].
  cbn [tabFields app]. destruct (Byte.eqb c TAB) eqn:E.
  - apply byte_eqb_eq in E. subst c. exfalso. apply Hn. left. reflexivity.
  - rewrite IH; [reflexivity|]. intros H. apply Hn. right. exact H.
Qed.

Lemma parseStatisticsLine_name (line name : list byte) (p d : Z) :
  parseStatisticsLine line = Ok (name, p, d) -> ~ In TAB name.
Proof.
  unfold parseStatisticsLine. cbn [SplitN].
  pose proof (cut_tabFields line) as H1.
  destruct (cut line TAB) as [[a rest1]|]; [|discriminate].
  destruct H1 as [_ Hn].
  destruct (cut rest1 TAB) as [[b rest2]|]; [|discriminate].
  cbn [length Nat.eqb negb nth].
  destruct (ParseUint10 b 64); cbn [bind]; [|discriminate].
  destruct (ParseUint10 rest2 64); cbn [bind]; [|discriminate].
  intros H. inversion H. subst. exact Hn.
Qed.

(** X9. [parseStatisticsLine] undoes [DeviceStatistics.String]: for a
    device name without a tab and counts that are [uint64] values, the line
    that [String] prints is parsed back to the same name and counts; the
    name that [parseStatisticsLine] returns never holds a tab, so for a
    name with a tab the line is not parsed back to it. *)
Theorem parseStatisticsLine_String (ds : DeviceStatistics) :
  0 <= StatPacketCount ds < 2 ^ 64 -> 0 <= StatDropCount ds < 2 ^ 64 ->
  (~ In TAB (Name ds) ->
   parseStatisticsLine (DeviceStatistics_String ds)
   = Ok (Name ds, StatPacketCount ds, StatDropCount ds))
  /\ (In TAB (Name ds) ->
      parseStatisticsLine (DeviceStatistics_String ds)
      <> Ok (Name ds, StatPacketCount ds, StatDropCount ds)).
Proof.
  intros Hp Hd. split.
  - intros Hn.
    destruct (FormatUint10_isCount _ Hp) as (Hc1 & Hv1 & _ & Ht1).
    destruct (FormatUint10_isCount _ Hd) as (Hc2 & Hv2 & _ & Ht2).
    rewrite (parseStatisticsLine_three _ (Name ds)
               (FormatUint10 (StatPacketCount ds)) (FormatUint10 (StatDropCount ds))).
    + rewrite !(isCount_ParseUint10 _ 64) by auto. cbn [bind].
      rewrite Hv1, Hv2. reflexivity.
    + unfold DeviceStatistics_String. cbn [app].
      rewrite tabFields_app_TAB by assumption.
      rewrite tabFields_app_TAB by assumption.
      rewrite tabFields_no_TAB by assumption. reflexivity.
  - intros Hin Heq. exact (parseStatisticsLine_name _ _ _ _ Heq Hin).
Qed.

Lemma parseStatisticsLine_String_witness :
  parseStatisticsLine (DeviceStatistics_String (mkDeviceStatistics (bytes "devX") 123 456))
  = Ok (bytes "devX", 123, 456).
Proof.
  refine (proj1 (parseStatisticsLine_String
                   (mkDeviceStatistics (bytes "devX") 123 456) _ _) _).
  - split; [discriminate | reflexivity].
  - split; [discriminate | reflexivity].
  - cbn. intros [H|[H|[H|[H|H]]]]; try discriminate. exact H.
Defined.

Example DeviceStatistics_String_devX :
  DeviceStatistics_String (mkDeviceStatistics (bytes "devX") 123 456) = statsLine.
Proof. reflexivity. Qed.

(** X10. [DeviceType.String] names the nine known device types, each by a
    name of its own, and returns "UNKNOWN" for exactly the other values. *)
Theorem DeviceType_String_names (dt dt' : byte) :
  (DeviceType_String dt = bytes "UNKNOWN" <-> 8 < byteZ dt)
  /\ (byteZ dt <= 8 -> DeviceType_String dt = DeviceType_String dt' -> dt = dt').
Proof.
  split.
  - destruct dt; vm_compute; split; intros H; try reflexivity; discriminate.
  - intros Hle. destruct dt; try (exfalso; vm_compute in Hle; apply Hle; reflexivity);
      destruct dt'; vm_compute; intros H; try reflexivity; discriminate.
Qed.

(** X11. [waitForSuccessMsg], on a stream that starts with a frame: it
    returns nil if and only if the type of the frame is Success (the
    payload of a Success frame is not looked at); for a frame of another
    type that decodes, the error names the type. *)
Theorem waitForSuccessMsg_frame (t : byte) (payload rest : list byte) (cl : error) :
  Z.of_nat (length payload) < 2 ^ 24 ->
  (waitForSuccessMsg (mkReader (encodeFrame t payload ++ rest) cl) = None
   <-> t = SuccessMsg)
  /\ (forall msg, t <> SuccessMsg -> interpret t (stripNUL payload) = Ok msg ->
      waitForSuccessMsg (mkReader (encodeFrame t payload ++ rest) cl)
      = Some (UnexpectedMessage t)).
Proof.
  intros Hlen. unfold waitForSuccessMsg. rewrite readPipeMsg_frame by assumption.
  split.
  - split.
    + destruct (interpret t (stripNUL payload)) as [msg|e] eqn:Ei; cbn [bind];
        [|discriminate].
      destruct (interpret_fields _ _ _ Ei) as (Ht & _). rewrite Ht.
      destruct (Byte.eqb t SuccessMsg) eqn:E; [|discriminate].
      intros _. apply byte_eqb_eq. exact E.
    + intros ->. rewrite interpret_text by discriminate. reflexivity.
  - intros msg Hne Ei. rewrite Ei. cbn [bind].
    destruct (interpret_fields _ _ _ Ei) as (Ht & _). rewrite Ht.
    apply byte_eqb_neq in Hne. rewrite Hne. reflexivity.
Qed.

Lemma waitForSuccessMsg_frame_witness :
  waitForSuccessMsg
    (mkReader (encodeFrame SuccessMsg (bytes "This is a huge success" ++ [x00]) ++ []) EOF)
  = None <-> SuccessMsg = SuccessMsg.
Proof.
  refine (proj1 (waitForSuccessMsg_frame SuccessMsg
                   (bytes "This is a huge success" ++ [x00]) [] EOF _)).
  reflexivity.
Defined.

(* ================================================================== *)
(** ** The version query *)

Lemma cut_spec (s : list byte) (sep : byte) :
  match cut s sep with
  | None => ~ In sep s
  | Some (before, after) => s = before ++ sep :: after /\ ~ In sep before
  end.
Proof.
  induction s as [|c s IH]; cbn; [tauto|].
  destruct (Byte.eqb c sep) eqn:E.
  - apply byte_eqb_eq in E. subst c. split; [reflexivity | tauto].
  - apply byte_eqb_neq in E.
    destruct (cut s sep) as [[before after]|].
    + destruct IH as [-> Hn]. split; [reflexivity|].
      cbn. intros [H|H]; [congruence | tauto].
    + intros [H|H]; [congruence | tauto].
Qed.

(** X12. When the command succeeds, [Version] returns the output up to the
    first newline, without it (the whole output if it has no newline, the
    empty string for an empty output), and [VersionString] returns the
    same; when the command fails, [Version] returns its error and
    [VersionString] returns "unknown". *)
Theorem Version_first_line (buf : list byte) (e : error) :
  (exists v,
     Version (Ok buf) = Ok v
     /\ VersionString (Ok buf) = v
     /\ ~ In LF v
     /\ (buf = v \/ exists rest, buf = v ++ LF :: rest))
  /\ Version (Fail e) = Fail e
  /\ VersionString (Fail e) = UnknownVersion.
Proof.
  split; [|split; reflexivity].
  unfold VersionString, Version. cbn [bind SplitN].
  pose proof (cut_spec buf LF) as H.
  destruct (cut buf LF) as [[before after]|].
  - destruct H as [-> Hn]. exists before. cbn [nth]. eauto 6.
  - exists buf. cbn [nth]. auto.
Qed.

Example Version_of_the_tests :
  Version (Ok (bytes "This is a huge success")) = Ok (bytes "This is a huge success").
Proof. reflexivity. Qed.

(* ================================================================== *)
(** ** The command line *)

Example buildArgs_of_the_tests :
  buildArgs testArguments
  = [bytes "-S"; bytes "-C"; bytes "123"; bytes "-f"; bytes "foobar"; bytes "-I";
     bytes "-n"; bytes "-a"; bytes "duration:60"; bytes "-b"; bytes "files:5";
     bytes "-i"; bytes "dev1"; bytes "-p"; bytes "-B"; bytes "456";
     bytes "-y"; bytes "llt"].
Proof. reflexivity. Qed.

Example buildArgs_zero : buildArgs zeroArguments = [[]].
Proof. reflexivity. Qed.

(** Each closure appends to the slice it is given. *)
Lemma intArg_app (v : Z) (a : list byte) (r : list (list byte)) :
  intArg v a r = r ++ intArg v a [].
Proof. unfold intArg. destruct (negb _); [reflexivity | symmetry; apply app_nil_r]. Qed.

Lemma prefixedIntArg_app (v : Z) (a p : list byte) (r : list (list byte)) :
  prefixedIntArg v a p r = r ++ prefixedIntArg v a p [].
Proof.
  unfold prefixedIntArg. destruct (negb _); [reflexivity | symmetry; apply app_nil_r].
Qed.

Lemma boolArg_app (v : bool) (a : list byte) (r : list (list byte)) :
  boolArg v a r = r ++ boolArg v a [].
Proof. unfold boolArg. destruct v; [reflexivity | symmetry; apply app_nil_r]. Qed.

Lemma stringArg_app (s a : list byte) (r : list (list byte)) :
  stringArg s a r = r ++ stringArg s a [].
Proof. unfold stringArg. destruct s; [symmetry; apply app_nil_r | reflexivity]. Qed.

Lemma deviceArgs_app (r : list (list byte)) (da : DeviceArgument) :
  deviceArgs r da = r ++ deviceArgs [] da.
Proof.
  unfold deviceArgs. destruct (DevName da) as [|c n]; [symmetry; apply app_nil_r|].
  rewrite (stringArg_app (DevWiFiChannel da)), (intArg_app (DevSnapshotLength da)),
    (stringArg_app (DevLinkLayerType da)), (intArg_app (DevKernelBufferSize da)),
    (boolArg_app (DevEnableMonitorMode da)),
    (boolArg_app (DevDisablePromiscuousMode da)), (stringArg_app (c :: n)).
  symmetry.
  rewrite (stringArg_app (DevWiFiChannel da)), (intArg_app (DevSnapshotLength da)),
    (stringArg_app (DevLinkLayerType da)), (intArg_app (DevKernelBufferSize da)),
    (boolArg_app (DevEnableMonitorMode da)),
    (boolArg_app (DevDisablePromiscuousMode da)).
  rewrite !app_assoc. reflexivity.
Qed.

Lemma fold_deviceArgs (das : list DeviceArgument) (r : list (list byte)) :
  fold_left deviceArgs das r = r ++ flat_map (deviceArgs []) das.
Proof.
  revert r. induction das as [|da das IH]; intros r; cbn.
  - symmetry. apply app_nil_r.
  - rewrite IH, deviceArgs_app, app_assoc. reflexivity.
Qed.

Lemma buildArgs_split (a : DumpcapArguments) :
  buildArgs a
  = buildArgs (withDeviceArgs a []) ++ flat_map (deviceArgs []) (DeviceArgs a).
Proof.
  unfold buildArgs. cbn [withDeviceArgs DeviceArgs BufferedBytes BufferedPackets
    CaptureFilter DisablePromiscuousMode EnableGroupAccess EnableMonitorMode
    FileFormat FileName KernelBufferSize LinkLayerType SnapshotLength
    StopOnDuration StopOnFiles StopOnFilesize StopOnPacketCount SwitchOnDuration
    SwitchOnFiles SwitchOnFilesize UseThreads WiFiChannel command childMode fold_left].
  apply fold_deviceArgs.
Qed.

(** X13. The device-specific arguments come second: the command line is
    the command line of the same arguments without devices, followed by
    the arguments of each device, in the order of the devices. *)
Theorem buildArgs_devices_second (a : DumpcapArguments) :
  buildArgs a
  = buildArgs (withDeviceArgs a []) ++ flat_map (deviceArgs []) (DeviceArgs a).
Proof. exact (buildArgs_split a). Qed.

(** X14. A device argument without a name is skipped with all its
    settings, and the capture filter of a device argument is never put on
    the command line: the command line stays the same when the unnamed
    device arguments are dropped and when the capture filters of the
    device arguments are replaced. *)
Theorem buildArgs_ignores (a : DumpcapArguments) (f : list byte) :
  buildArgs (withDeviceArgs a (filter isNamed (DeviceArgs a))) = buildArgs a
  /\ buildArgs (withDeviceArgs a (map (withDevCaptureFilter f) (DeviceArgs a)))
     = buildArgs a.
Proof.
  rewrite (buildArgs_split a).
  rewrite (buildArgs_split (withDeviceArgs a (filter _ _))).
  rewrite (buildArgs_split (withDeviceArgs a (map _ _))).
  cbn [withDeviceArgs DeviceArgs].
  change (withDeviceArgs (withDeviceArgs a (filter isNamed (DeviceArgs a))) [])
    with (withDeviceArgs a []).
  change (withDeviceArgs (withDeviceArgs a (map (withDevCaptureFilter f) (DeviceArgs a))) [])
    with (withDeviceArgs a []).
  split; f_equal.
  - induction (DeviceArgs a) as [|da das IH]; [reflexivity|].
    cbn [filter flat_map].
    assert (Hda : isNamed da = false -> deviceArgs [] da = []).
    { unfold isNamed, deviceArgs. destruct (DevName da); [reflexivity | discriminate]. }
    destruct (isNamed da).
    + cbn [flat_map]. rewrite IH. reflexivity.
    + rewrite IH, (Hda eq_refl). reflexivity.
  - induction (DeviceArgs a) as [|da das IH]; [reflexivity|].
    cbn [map flat_map]. rewrite IH. reflexivity.
Qed.

Lemma formatDigits_suffix (fuel : nat) (v : Z) (acc : list byte) :
  exists ds, formatDigits fuel v acc = ds ++ acc.
Proof.
  revert v acc. induction fuel as [|fuel IH]; intros v acc; cbn [formatDigits].
  - exists []. reflexivity.
  - destruct (v / 10 =? 0).
    + exists [Zbyte (48 + v mod 10)]. reflexivity.
    + destruct (IH (v / 10) (Zbyte (48 + v mod 10) :: acc)) as [ds Hds].
      exists (ds ++ [Zbyte (48 + v mod 10)]). rewrite Hds, <- app_assoc. reflexivity.
Qed.

Lemma FormatUint10_nonempty (v : Z) : FormatUint10 v <> [].
Proof.
  unfold FormatUint10. change 20%nat with (S 19).
  remember 19%nat as fuel. cbn [formatDigits].
  destruct (v / 10 =? 0); [discriminate|].
  destruct (formatDigits_suffix fuel (v / 10) [Zbyte (48 + v mod 10)]) as [ds ->].
  destruct ds; discriminate.
Qed.

Lemma intArg_nonEmpty (v : Z) (a : list byte) (r : list (list byte)) :
  nonEmpty a -> Forall nonEmpty r -> Forall nonEmpty (intArg v a r).
Proof.
  intros Ha Hr. unfold intArg. destruct (negb _); [|exact Hr].
  apply Forall_app. split; [exact Hr|].
  repeat constructor; [exact Ha | apply FormatUint10_nonempty].
Qed.

Lemma prefixedIntArg_nonEmpty (v : Z) (a p : list byte) (r : list (list byte)) :
  nonEmpty a -> Forall nonEmpty r -> Forall nonEmpty (prefixedIntArg v a p r).
Proof.
  intros Ha Hr. unfold prefixedIntArg. destruct (negb _); [|exact Hr].
  apply Forall_app. split; [exact Hr|].
  repeat constructor; [exact Ha|]. unfold nonEmpty. destruct p; discriminate.
Qed.

Lemma boolArg_nonEmpty (v : bool) (a : list byte) (r : list (list byte)) :
  nonEmpty a -> Forall nonEmpty r -> Forall nonEmpty (boolArg v a r).
Proof.
  intros Ha Hr. unfold boolArg. destruct v; [|exact Hr].
  apply Forall_app. split; [exact Hr|]. repeat constructor. exact Ha.
Qed.

Lemma stringArg_nonEmpty (s a : list byte) (r : list (list byte)) :
  nonEmpty a -> Forall nonEmpty r -> Forall nonEmpty (stringArg s a r).
Proof.
  intros Ha Hr. unfold stringArg. destruct s; [exact Hr|].
  apply Forall_app. split; [exact Hr|].
  repeat constructor; [exact Ha | discriminate].
Qed.

Lemma deviceArgs_nonEmpty (r : list (list byte)) (da : DeviceArgument) :
  Forall nonEmpty r -> Forall nonEmpty (deviceArgs r da).
Proof.
  intros Hr. unfold deviceArgs. destruct (DevName da) as [|c n] eqn:E; [exact Hr|].
  repeat first [apply stringArg_nonEmpty | apply intArg_nonEmpty
               | apply boolArg_nonEmpty | discriminate | exact Hr].
Qed.

Lemma buildArgs_head (a : DumpcapArguments) :
  exists rest,
    buildArgs a
    = command a :: (if childMode a then [bytes "-Z"; bytes "none"] else []) ++ rest
    /\ Forall nonEmpty rest.
Proof.
  rewrite buildArgs_split. unfold buildArgs.
  cbn [withDeviceArgs DeviceArgs BufferedBytes BufferedPackets
    CaptureFilter DisablePromiscuousMode EnableGroupAccess EnableMonitorMode
    FileFormat FileName KernelBufferSize LinkLayerType SnapshotLength
    StopOnDuration StopOnFiles StopOnFilesize StopOnPacketCount SwitchOnDuration
    SwitchOnFiles SwitchOnFilesize UseThreads WiFiChannel command childMode fold_left].
  rewrite (stringArg_app (WiFiChannel a)), (boolArg_app (UseThreads a)),
    (prefixedIntArg_app (SwitchOnFilesize a)), (prefixedIntArg_app (SwitchOnFiles a)),
    (prefixedIntArg_app (SwitchOnDuration a)), (intArg_app (StopOnPacketCount a)),
    (prefixedIntArg_app (StopOnFilesize a)), (prefixedIntArg_app (StopOnFiles a)),
    (prefixedIntArg_app (StopOnDuration a)), (intArg_app (SnapshotLength a)),
    (stringArg_app (LinkLayerType a)), (intArg_app (KernelBufferSize a)),
    (stringArg_app (FileName a)).
  set (fmt := fun r : list (list byte) =>
                if FileFormat a =? UsePCAP then r ++ [usePCAPArg]
                else if FileFormat a =? UsePCAPNG then r ++ [usePCAPNGArg] else r).
  assert (Hfmt : forall r, fmt r = r ++ fmt []).
  { intros r. unfold fmt. destruct (_ =? UsePCAP); [reflexivity|].
    destruct (_ =? UsePCAPNG); [reflexivity | symmetry; apply app_nil_r]. }
  change (if FileFormat a =? UsePCAP then ?r ++ [usePCAPArg]
          else if FileFormat a =? UsePCAPNG then ?r ++ [usePCAPNGArg] else ?r)
    with (fmt r).
  rewrite Hfmt.
  rewrite (boolArg_app (EnableMonitorMode a)), (boolArg_app (EnableGroupAccess a)),
    (boolArg_app (DisablePromiscuousMode a)), (stringArg_app (CaptureFilter a)),
    (intArg_app (BufferedPackets a)), (intArg_app (BufferedBytes a)).
  assert (Hhead : (if childMode a then stringArg pipeName pipeOutputArg [command a]
                   else [command a])
                  = command a :: (if childMode a then [bytes "-Z"; bytes "none"] else [])).
  { destruct (childMode a); reflexivity. }
  rewrite Hhead. rewrite <- !app_assoc. cbn [app].
  eexists. split.
  - reflexivity.
  - assert (Hnil : Forall nonEmpty (@nil (list byte))) by constructor.
    repeat (apply Forall_app; split);
      try (first [apply intArg_nonEmpty | apply prefixedIntArg_nonEmpty
                 | apply boolArg_nonEmpty | apply stringArg_nonEmpty];
           [discriminate | exact Hnil]).
    + unfold fmt. destruct (_ =? UsePCAP); [repeat constructor; discriminate|].
      destruct (_ =? UsePCAPNG); [repeat constructor; discriminate | exact Hnil].
    + induction (DeviceArgs a) as [|da das IH]; [exact Hnil|].
      cbn [flat_map]. apply Forall_app. split; [|exact IH].
      apply deviceArgs_nonEmpty. exact Hnil.
Qed.

(* ================================================================== *)
(** ** Devices and their capabilities *)

Lemma bytesEqb_eq (a b : list byte) : bytesEqb a b = true <-> a = b.
Proof.
  revert b. induction a as [|x a IH]; intros [|y b]; cbn [bytesEqb];
    try (split; [discriminate | congruence]); [tauto|].
  rewrite andb_true_iff, byte_eqb_eq, IH. split.
  - intros [-> ->]. reflexivity.
  - intros H. inversion H. auto.
Qed.

Lemma cut_app (a rest : list byte) (sep : byte) :
  ~ In sep a -> cut (a ++ sep :: rest) sep = Some (a, rest).
Proof.
  induction a as [|c a IH]; intros Hn; cbn [app cut].
  - assert (E : Byte.eqb sep sep = true) by (apply byte_eqb_eq; reflexivity).
    rewrite E. reflexivity.
  - assert (E : Byte.eqb c sep = false).
    { apply byte_eqb_neq. intros ->. apply Hn. left. reflexivity. }
    rewrite E, IH; [reflexivity|]. intros H. apply Hn. right. exact H.
Qed.

Lemma Count_app (a b : list byte) (sep : byte) :
  Count (a ++ b) sep = (Count a sep + Count b sep)%nat.
Proof. unfold Count. rewrite filter_app, length_app. reflexivity. Qed.

Lemma Count_zero (s : list byte) (sep : byte) : Count s sep = 0%nat <-> ~ In sep s.
Proof.
  unfold Count. induction s as [|c s IH]; cbn [filter In length]; [tauto|].
  destruct (Byte.eqb c sep) eqn:E.
  - apply byte_eqb_eq in E. cbn [length]. split; [discriminate|].
    intros H. exfalso. apply H. left. exact E.
  - apply byte_eqb_neq in E. rewrite IH. tauto.
Qed.

Lemma Count_cut (s : list byte) (sep : byte) :
  match cut s sep with
  | None => Count s sep = 0%nat
  | Some (_, after) => Count s sep = S (Count after sep)
  end.
Proof.
  pose proof (cut_spec s sep) as H.
  destruct (cut s sep) as [[before after]|].
  - destruct H as [-> Hn]. rewrite Count_app.
    apply Count_zero in Hn. rewrite Hn. unfold Count. cbn [filter].
    assert (E : Byte.eqb sep sep = true) by (apply byte_eqb_eq; reflexivity).
    rewrite E. reflexivity.
  - apply Count_zero. exact H.
Qed.

(** [Split] cuts at the first separator and goes on with the rest. *)
Lemma Split_cut (s : list byte) (sep : byte) :
  Split s sep = match cut s sep with
                | Some (before, after) => before :: Split after sep
                | None => [s]
                end.
Proof.
  unfold Split. pose proof (Count_cut s sep) as H.
  destruct (cut s sep) as [[before after]|] eqn:E; rewrite H; cbn [SplitN].
  - rewrite E. reflexivity.
  - reflexivity.
Qed.

(** The pieces of [Split] hold no separator, there is one more of them
    than separators, and [Join] puts the text together again. *)
Lemma Split_spec (s : list byte) (sep : byte) :
  Join (Split s sep) sep = s
  /\ Forall (fun piece => ~ In sep piece) (Split s sep)
  /\ length (Split s sep) = S (Count s sep).
Proof.
  remember (length s) as n eqn:Hn. revert s Hn.
  induction n as [n IH] using lt_wf_ind. intros s Hn.
  rewrite Split_cut. pose proof (cut_spec s sep) as Hc. pose proof (Count_cut s sep) as Hk.
  destruct (cut s sep) as [[before after]|].
  - destruct Hc as [Hs Hb].
    destruct (IH (length after)) with (s := after) as (J & F & L); [|reflexivity|].
    { subst. rewrite length_app. cbn [length]. lia. }
    split; [|split].
    + cbn [Join]. destruct (Split after sep) eqn:E; [discriminate|].
      rewrite J. symmetry. exact Hs.
    + constructor; assumption.
    + cbn [length]. rewrite L, Hk. reflexivity.
  - split; [reflexivity|]. split; [repeat constructor; exact Hc|].
    rewrite Hk. reflexivity.
Qed.

(** With the bit size 8, [ParseUint10] accepts exactly the texts of one or
    more ASCII digits whose value is at most 255. *)
Lemma ParseUint10_spec8 (s : list byte) (v : Z) :
  ParseUint10 s 8 = Ok v
  <-> isDecimal s = true /\ decimalValue s = v /\ v <= 255.
Proof.
  unfold ParseUint10, isDecimal, decimalValue.
  destruct s as [|c s].
  - split; [discriminate | intros (H & _); discriminate].
  - change ((2 ^ (if 8 =? 0 then IntSize else 8) mod 2 ^ 64 - 1) mod 2 ^ 64) with 255.
    apply parseDigits_spec; unfold maxUint64; lia.
Qed.

(** On digits, the digit loop fails with a range error only. *)
Lemma parseDigits_digits_fail (maxVal : Z) (s : list byte) (n : Z) (e : error) :
  forallb isDigit s = true ->
  parseDigits maxVal n s = Fail e -> e = NumError ErrRange.
Proof.
  revert n. induction s as [|c s IH]; intros n Hd; cbn [parseDigits forallb] in *.
  - discriminate.
  - apply andb_true_iff in Hd as [Hc Hs]. rewrite Hc.
    destruct (_ <=? n); [intros H; inversion H; reflexivity|].
    destruct (_ || _); [intros H; inversion H; reflexivity|].
    apply IH. exact Hs.
Qed.

Lemma decimalValue_nonneg (s : list byte) : isDecimal s = true -> 0 <= decimalValue s.
Proof.
  unfold isDecimal, decimalValue. destruct s as [|c s]; [discriminate|].
  intros H. apply decimalFrom_mono; [exact H | lia].
Qed.

Lemma length_eight {A : Type} (l : list A) :
  length l = 8%nat ->
  exists a b c d e f g h, l = [a; b; c; d; e; f; g; h].
Proof.
  intros H.
  do 8 (destruct l as [|? l]; [discriminate|]).
  destruct l; [|discriminate]. repeat eexists.
Qed.

(** X16. [parseDevicesLine] returns a device exactly for eight fields of
    which the second is a decimal number that fits 64 bits and the sixth
    a decimal number of at most 255; the device then has these two
    values as number and type, the third to fifth field as names, the
    pieces of the seventh field between its commas as addresses (none for
    an empty field), is a loopback device exactly if the last field is
    "loopback", and has no capabilities yet.  The first field (the whole
    match) is not looked at. *)
Theorem parseDevicesLine_accepts (fields : list (list byte)) (dev : Device) :
  parseDevicesLine fields = Ok dev
  <-> exists whole number name vendor friendly devType addresses kind,
        fields = [whole; number; name; vendor; friendly; devType; addresses; kind]
        /\ isCount number
        /\ isDecimal devType = true /\ decimalValue devType <= 255
        /\ dev = mkDevice (decimalValue devType) name (decimalValue number)
                   vendor friendly
                   (match addresses with
                    | [] => []
                    | _ :: _ => Split addresses COMMA
                    end)
                   (bytesEqb kind (bytes "loopback")) false [].
Proof.
  unfold parseDevicesLine. split.
  - destruct (length fields =? 8)%nat eqn:El; cbn [negb]; [|discriminate].
    apply Nat.eqb_eq in El.
    destruct (length_eight fields El) as (whole & number & name & vendor & friendly
                                          & devType & addresses & kind & ->).
    cbn [nth].
    destruct (ParseUint10 number 0) as [i|] eqn:E1; cbn [bind]; [|discriminate].
    destruct (ParseUint10 devType 8) as [t|] eqn:E2; cbn [bind]; [|discriminate].
    apply ParseUint10_spec in E1 as (D1 & V1 & B1); [|left; reflexivity].
    apply ParseUint10_spec8 in E2 as (D2 & V2 & B2).
    intros H. injection H as <-.
    exists whole, number, name, vendor, friendly, devType, addresses, kind.
    split; [reflexivity|]. split; [split; [exact D1 | lia]|].
    split; [exact D2|]. split; [lia|].
    subst i t. destruct addresses; reflexivity.
  - intros (whole & number & name & vendor & friendly & devType & addresses & kind
            & -> & [D1 B1] & D2 & B2 & ->).
    cbn [length Nat.eqb negb nth].
    assert (E1 : ParseUint10 number 0 = Ok (decimalValue number))
      by (apply ParseUint10_spec; [left; reflexivity | auto]).
    assert (E2 : ParseUint10 devType 8 = Ok (decimalValue devType))
      by (apply ParseUint10_spec8; auto).
    rewrite E1, E2. cbn [bind]. destruct addresses; reflexivity.
Qed.

(** X17. What [parseDevicesLine] returns can be read back: the addresses
    joined by commas are the seventh field, no address holds a comma, there
    is no address exactly if the field is empty (so an address is never
    the only one and empty), the loopback flag is set exactly for the last
    field "loopback", and number and type are in the ranges of [uint] and
    of [uint8]. *)
Theorem parseDevicesLine_reads_back (fields : list (list byte)) (dev : Device) :
  parseDevicesLine fields = Ok dev ->
  Join (Addresses dev) COMMA = nth 6 fields []
  /\ Forall (fun a => ~ In COMMA a) (Addresses dev)
  /\ (Addresses dev = [] <-> nth 6 fields [] = [])
  /\ Addresses dev <> [[]]
  /\ (Loopback dev = true <-> nth 7 fields [] = bytes "loopback")
  /\ 0 <= Number dev < 2 ^ 64
  /\ 0 <= DevType dev < 2 ^ 8.
Proof.
  unfold parseDevicesLine.
  destruct (length fields =? 8)%nat; cbn [negb]; [|discriminate].
  destruct (ParseUint10 (nth 1 fields []) 0) as [i|] eqn:E1; cbn [bind]; [|discriminate].
  destruct (ParseUint10 (nth 5 fields []) 8) as [t|] eqn:E2; cbn [bind]; [|discriminate].
  apply ParseUint10_spec in E1 as (D1 & V1 & B1); [|left; reflexivity].
  apply ParseUint10_spec8 in E2 as (D2 & V2 & B2).
  pose proof (decimalValue_nonneg _ D1) as N1.
  pose proof (decimalValue_nonneg _ D2) as N2.
  intros Hdev. injection Hdev as <-.
  cbn [Addresses Loopback Number DevType].
  destruct (Split_spec (nth 6 fields []) COMMA) as (J & F & L).
  rewrite bytesEqb_eq.
  destruct (nth 6 fields []) as [|c s] eqn:E6.
  - cbn [bytesEqb negb]. repeat split; try constructor; try discriminate; try lia; tauto.
  - cbn [bytesEqb negb]. split; [exact J|]. split; [exact F|].
    split; [|split; [|split; [tauto | split; lia]]].
    + split; [|discriminate]. intros E. rewrite E in L. discriminate.
    + intros E. rewrite E in J. discriminate.
Qed.

Lemma parseDevicesLine_reads_back_witness :
  Join (Addresses (mkDevice 0 (bytes "lo") 2 [] (bytes "Loopback")
                     [bytes "127.0.0.1"; bytes "::1"] true false [])) COMMA
  = nth 6 [bytes "2. lo"; bytes "2"; bytes "lo"; []; bytes "Loopback"; bytes "0";
           bytes "127.0.0.1,::1"; bytes "loopback"] [].
Proof.
  refine (proj1 (parseDevicesLine_reads_back
                   [bytes "2. lo"; bytes "2"; bytes "lo"; []; bytes "Loopback"; bytes "0";
                    bytes "127.0.0.1,::1"; bytes "loopback"]
                   (mkDevice 0 (bytes "lo") 2 [] (bytes "Loopback")
                      [bytes "127.0.0.1"; bytes "::1"] true false []) _)).
  reflexivity.
Defined.

(** X18. A device type that is a decimal number above 255 is refused with
    a range error; it is not cut down to eight bits. *)
Theorem parseDevicesLine_type_out_of_range (fields : list (list byte)) :
  length fields = 8%nat ->
  isCount (nth 1 fields []) ->
  isDecimal (nth 5 fields []) = true ->
  255 < decimalValue (nth 5 fields []) ->
  parseDevicesLine fields = Fail (NumError ErrRange).
Proof.
  intros Hl Hc Hd Hv. unfold parseDevicesLine.
  rewrite Hl. cbn [Nat.eqb negb].
  rewrite (isCount_ParseUint10 _ 0) by (auto). cbn [bind].
  destruct (ParseUint10 (nth 5 fields []) 8) as [t|e] eqn:E; cbn [bind].
  - apply ParseUint10_spec8 in E as (_ & V & B). lia.
  - f_equal. revert E. unfold ParseUint10, isDecimal in *.
    destruct (nth 5 fields []) as [|c s]; [discriminate|].
    apply parseDigits_digits_fail. exact Hd.
Qed.

Lemma parseDevicesLine_type_out_of_range_witness :
  parseDevicesLine [bytes "1. em1"; bytes "1"; bytes "em1"; []; []; bytes "256"; [];
                    bytes "network"]
  = Fail (NumError ErrRange).
Proof.
  refine (parseDevicesLine_type_out_of_range
            [bytes "1. em1"; bytes "1"; bytes "em1"; []; []; bytes "256"; [];
             bytes "network"] _ _ _ _).
  - reflexivity.
  - split; [reflexivity | vm_compute; reflexivity].
  - reflexivity.
  - vm_compute. reflexivity.
Defined.

(** [SplitN] into three: two separators are needed, and the third piece is
    what is left after the second one. *)
Lemma SplitN3_three (line a b c : list byte) (sep : byte) :
  SplitN line sep 3 = [a; b; c]
  <-> line = a ++ sep :: b ++ sep :: c /\ ~ In sep a /\ ~ In sep b.
Proof.
  cbn [SplitN]. split.
  - pose proof (cut_spec line sep) as H1.
    destruct (cut line sep) as [[a' r1]|]; [|discriminate].
    pose proof (cut_spec r1 sep) as H2.
    destruct (cut r1 sep) as [[b' r2]|]; [|discriminate].
    intros H. injection H as <- <- <-.
    destruct H1 as [-> Ha]. destruct H2 as [-> Hb]. auto.
  - intros (-> & Ha & Hb). rewrite cut_app by exact Ha.
    rewrite cut_app by exact Hb. reflexivity.
Qed.

Lemma SplitN3_length (line : list byte) (sep : byte) :
  length (SplitN line sep 3) = 3%nat <-> (2 <= Count line sep)%nat.
Proof.
  cbn [SplitN].
  pose proof (Count_cut line sep) as H1.
  destruct (cut line sep) as [[a r1]|]; [|cbn [length]; lia].
  pose proof (Count_cut r1 sep) as H2.
  destruct (cut r1 sep) as [[b r2]|]; cbn [length]; lia.
Qed.

Lemma parseCapabilitiesLine_build (dlt name description : list byte) :
  isCount dlt -> ~ In TAB name ->
  parseCapabilitiesLine (dlt ++ [TAB] ++ name ++ [TAB] ++ description)
  = inl (mkLinkLayerType (decimalValue dlt) name description).
Proof.
  intros Hc Hn. unfold parseCapabilitiesLine.
  assert (Hd : ~ In TAB dlt).
  { apply (ParseUint10_no_TAB dlt 0 (decimalValue dlt)).
    apply isCount_ParseUint10; [left; reflexivity | exact Hc]. }
  assert (Es : SplitN (dlt ++ [TAB] ++ name ++ [TAB] ++ description) TAB 3
               = [dlt; name; description])
    by (apply SplitN3_three; auto).
  rewrite Es. cbn [length Nat.eqb negb nth].
  rewrite (isCount_ParseUint10 _ 0) by auto. reflexivity.
Qed.

(** X19. One line of the list of link-layer types is accepted exactly if
    it is a decimal number that fits 64 bits, a tab, a name without a tab,
    a tab, and a description; the description is the whole rest of the
    line and may hold tabs. *)
Theorem parseCapabilitiesLine_accepts (line : list byte) (llt : LinkLayerTypeT) :
  parseCapabilitiesLine line = inl llt
  <-> exists dlt,
        isCount dlt /\ decimalValue dlt = DLT llt /\ ~ In TAB (LltName llt)
        /\ line = dlt ++ [TAB] ++ LltName llt ++ [TAB] ++ LltDescription llt.
Proof.
  split.
  - unfold parseCapabilitiesLine.
    destruct (length (SplitN line TAB 3) =? 3)%nat eqn:El; cbn [negb]; [|discriminate].
    apply Nat.eqb_eq in El.
    destruct (SplitN line TAB 3) as [|a [|b [|c [|? ?]]]] eqn:Es; try discriminate.
    apply SplitN3_three in Es as (-> & Ha & Hb). cbn [nth].
    destruct (ParseUint10 a 0) as [i|] eqn:E; [|discriminate].
    apply ParseUint10_spec in E as (D & V & B); [|left; reflexivity].
    intros H. injection H as <-. exists a. cbn [DLT LltName LltDescription].
    split; [split; [exact D | lia]|]. auto.
  - intros (dlt & Hc & Hv & Hn & ->).
    rewrite parseCapabilitiesLine_build by assumption.
    rewrite Hv. destruct llt; reflexivity.
Qed.

(** X20. A line with fewer than two tabs is what [parseCapabilities] calls
    illegal output, and nothing else is: with two tabs or more, a line is
    refused only for its number, with the error of [ParseUint]. *)
Theorem parseCapabilitiesLine_illegal (line : list byte) :
  (parseCapabilitiesLine line = inr IllegalCapabilities <-> (Count line TAB < 2)%nat)
  /\ (forall e, parseCapabilitiesLine line = inr (Plain e) ->
      (2 <= Count line TAB)%nat /\ exists k, e = NumError k).
Proof.
  unfold parseCapabilitiesLine. pose proof (SplitN3_length line TAB) as Hl.
  destruct (length (SplitN line TAB 3) =? 3)%nat eqn:El; cbn [negb].
  - apply Nat.eqb_eq in El. apply Hl in El.
    destruct (ParseUint10 _ 0) as [i|e0] eqn:E.
    + split; [split; [discriminate | lia] | discriminate].
    + split; [split; [discriminate | lia]|].
      intros e H. injection H as <-. split; [exact El|].
      apply ParseUint10_fail in E. exact E.
  - apply Nat.eqb_neq in El.
    split; [split; [lia | reflexivity] | discriminate].
Qed.

Lemma parseCapabilitiesLine_layerLine (llt : LinkLayerTypeT) :
  0 <= DLT llt < 2 ^ 64 -> ~ In TAB (LltName llt) ->
  parseCapabilitiesLine (layerLine llt) = inl llt.
Proof.
  intros Hd Hn. unfold layerLine.
  destruct (FormatUint10_isCount _ Hd) as (Hc & Hv & _).
  rewrite parseCapabilitiesLine_build by assumption.
  rewrite Hv. destruct llt; reflexivity.
Qed.

Lemma parseCapabilitiesLoop_good (lines : list (list byte)) (llts acc : list LinkLayerTypeT)
    (err : option error) :
  Forall2 (fun line llt => parseCapabilitiesLine line = inl llt) lines llts ->
  parseCapabilitiesLoop lines err acc = (acc ++ llts, option_map Plain err).
Proof.
  intros H. revert acc. induction H as [|line llt lines llts Hl _ IH]; intros acc;
    cbn [parseCapabilitiesLoop].
  - rewrite app_nil_r. reflexivity.
  - rewrite Hl, IH, <- app_assoc. reflexivity.
Qed.

Lemma parseCapabilitiesLoop_bad (good : list (list byte)) (llts acc : list LinkLayerTypeT)
    (bad : list byte) (rest : list (list byte)) (err : option error) (e : QueryError) :
  Forall2 (fun line llt => parseCapabilitiesLine line = inl llt) good llts ->
  parseCapabilitiesLine bad = inr e ->
  parseCapabilitiesLoop (good ++ bad :: rest) err acc = ([], Some e).
Proof.
  intros H Hb. revert acc. induction H as [|line llt lines llts Hl _ IH]; intros acc;
    cbn [parseCapabilitiesLoop app].
  - rewrite Hb. reflexivity.
  - rewrite Hl. apply IH.
Qed.

(** X21. [parseCapabilities] reads back the list that dumpcap prints: for
    any first line and any link-layer types with numbers in the range of
    [uint] and names without a tab, the lines that describe them give
    these types in their order, and the flag is set exactly if the first
    line is "1".  A read error after the last line is returned together
    with the types read so far. *)
Theorem parseCapabilities_reads_back (first : list byte) (llts : list LinkLayerTypeT)
    (err : option error) :
  Forall (fun llt => 0 <= DLT llt < 2 ^ 64 /\ ~ In TAB (LltName llt)) llts ->
  parseCapabilities (mkScanner (first :: map layerLine llts) err)
  = (bytesEqb first (bytes "1"), llts, option_map Plain err).
Proof.
  intros H. unfold parseCapabilities. cbn [lines scanErr].
  rewrite (parseCapabilitiesLoop_good _ llts); [reflexivity|].
  induction H as [|llt llts [Hd Hn] _ IH]; cbn [map]; constructor.
  - apply parseCapabilitiesLine_layerLine; assumption.
  - exact IH.
Qed.

Lemma parseCapabilities_reads_back_witness :
  parseCapabilities
    (mkScanner (bytes "1" :: map layerLine
                               [mkLinkLayerType 1 (bytes "EN10MB") (bytes "Ethernet");
                                mkLinkLayerType 143 (bytes "DOCSIS") (bytes "DOCSIS")])
               None)
  = (bytesEqb (bytes "1") (bytes "1"),
     [mkLinkLayerType 1 (bytes "EN10MB") (bytes "Ethernet");
      mkLinkLayerType 143 (bytes "DOCSIS") (bytes "DOCSIS")],
     option_map Plain None).
Proof.
  refine (parseCapabilities_reads_back (bytes "1")
            [mkLinkLayerType 1 (bytes "EN10MB") (bytes "Ethernet");
             mkLinkLayerType 143 (bytes "DOCSIS") (bytes "DOCSIS")] None _).
  repeat (apply Forall_cons; [split; [cbn [DLT]; lia | cbn; intuition discriminate]|]).
  apply Forall_nil.
Defined.

(** X22. One line that is not accepted spoils the whole list: whatever
    was read before it and whatever follows, [parseCapabilities] returns
    no link-layer type and the error of the first such line; later lines
    and a read error of the pipe are not looked at.  The flag of the first
    line is still returned. *)
Theorem parseCapabilities_first_bad_line (first bad : list byte)
    (good rest : list (list byte)) (llts : list LinkLayerTypeT)
    (err : option error) (e : QueryError) :
  Forall2 (fun line llt => parseCapabilitiesLine line = inl llt) good llts ->
  parseCapabilitiesLine bad = inr e ->
  parseCapabilities (mkScanner (first :: good ++ bad :: rest) err)
  = (bytesEqb first (bytes "1"), [], Some e).
Proof.
  intros Hg Hb. unfold parseCapabilities. cbn [lines scanErr].
  rewrite (parseCapabilitiesLoop_bad good llts [] bad rest err e Hg Hb). reflexivity.
Qed.

Lemma parseCapabilities_first_bad_line_witness :
  parseCapabilities
    (mkScanner (bytes "1" :: [layerLine (mkLinkLayerType 1 (bytes "EN10MB") (bytes "Ethernet"))]
                             ++ bytes "foobar"
                             :: [layerLine (mkLinkLayerType 143 (bytes "DOCSIS") (bytes "DOCSIS"))])
               (Some (ReadError 5)))
  = (bytesEqb (bytes "1") (bytes "1"), [], Some IllegalCapabilities).
Proof.
  refine (parseCapabilities_first_bad_line (bytes "1") (bytes "foobar")
            [layerLine (mkLinkLayerType 1 (bytes "EN10MB") (bytes "Ethernet"))]
            [layerLine (mkLinkLayerType 143 (bytes "DOCSIS") (bytes "DOCSIS"))]
            [mkLinkLayerType 1 (bytes "EN10MB") (bytes "Ethernet")]
            (Some (ReadError 5)) IllegalCapabilities _ _).
  - repeat constructor.
  - reflexivity.
Defined.

(** X23. [Capabilities] writes to the device only at its end: when it
    returns an error the device is as it was, and when it returns nil
    only the two capability fields were set, to what [parseCapabilities]
    read from the standard output of a child that was started and sent a
    message that [waitForSuccessMsg] accepts; what the device held there
    before is gone. *)
Theorem Capabilities_device (d : Dumpcap) (dev : Device) (monitorMode : bool) :
  match Capabilities d dev monitorMode with
  | (dev', Some _) => dev' = dev
  | (dev', None) =>
      dev' = mkDevice (DevType dev) (DeviceName dev) (Number dev) (VendorName dev)
               (FriendlyName dev) (Addresses dev) (Loopback dev)
               (CanRFMon dev') (LLTs dev')
      /\ exists stdout stderr,
           let child := newCommand d (Executable d)
                          (buildArgs (capabilitiesArguments dev monitorMode)) in
           StdoutPipe child = Ok stdout
           /\ StderrPipe child = Ok stderr
           /\ Start child = None
           /\ waitForSuccessMsg stderr = None
           /\ parseCapabilities stdout = (CanRFMon dev', LLTs dev', None)
  end.
Proof.
  unfold Capabilities.
  destruct (StdoutPipe _) as [stdout|] eqn:E1; [|reflexivity].
  destruct (StderrPipe _) as [stderr|] eqn:E2; [|reflexivity].
  destruct (Start _) eqn:E3; [reflexivity|].
  destruct (waitForSuccessMsg stderr) eqn:E4; [reflexivity|].
  destruct (parseCapabilities stdout) as [[canRFMon llts] [e|]] eqn:E5; [reflexivity|].
  split; [reflexivity|]. exists stdout, stderr. cbn zeta.
  repeat (split; [first [reflexivity | assumption]|]). exact E5.
Qed.

(** X24. Without a Success message there are no capabilities: if the
    first frame on the standard error of the child has another type,
    [Capabilities] returns an error and leaves the device alone, whatever
    the child prints on its standard output. *)
Theorem Capabilities_needs_success (d : Dumpcap) (dev : Device) (monitorMode : bool)
    (stdout : Scanner) (t : byte) (payload rest : list byte) (cl : error) :
  let child := newCommand d (Executable d)
                 (buildArgs (capabilitiesArguments dev monitorMode)) in
  StdoutPipe child = Ok stdout ->
  StderrPipe child = Ok (mkReader (encodeFrame t payload ++ rest) cl) ->
  Z.of_nat (length payload) < 2 ^ 24 ->
  t <> SuccessMsg ->
  exists e, Capabilities d dev monitorMode = (dev, Some (Plain e)).
Proof.
  intros child H1 H2 Hlen Ht. unfold Capabilities. fold child. rewrite H1, H2.
  destruct (Start child) as [e|]; [eauto|].
  unfold waitForSuccessMsg. rewrite readPipeMsg_frame by assumption.
  destruct (interpret t (stripNUL payload)) as [msg|e] eqn:Ei; cbn [bind]; [|eauto].
  destruct (interpret_fields _ _ _ Ei) as (Hty & _). rewrite Hty.
  apply byte_eqb_neq in Ht. rewrite Ht. eauto.
Qed.

Lemma Capabilities_needs_success_witness :
  exists e,
    Capabilities (answering ErrMsg (generateErrorMsg (bytes "Not so much")
                                      (bytes "Something is wrong"))
                    layersOutput)
      (mkDevice 0 (bytes "em1") 0 [] [] [] false false []) false
    = (mkDevice 0 (bytes "em1") 0 [] [] [] false false [], Some (Plain e)).
Proof.
  refine (Capabilities_needs_success
            (answering ErrMsg (generateErrorMsg (bytes "Not so much")
                                 (bytes "Something is wrong")) layersOutput)
            (mkDevice 0 (bytes "em1") 0 [] [] [] false false []) false
            layersOutput ErrMsg
            (generateErrorMsg (bytes "Not so much") (bytes "Something is wrong"))
            [] EOF _ _ _ _).
  - reflexivity.
  - vm_compute. reflexivity.
  - vm_compute. reflexivity.
  - discriminate.
Defined.

(** X25. The command line of [Capabilities]: the command "-L" in child
    mode, then the device by its name and, if asked for, "-I".  A device
    whose name is empty is not named at all (its number is never used),
    and monitor mode is then not asked for either. *)
Theorem Capabilities_command_line (dev : Device) (monitorMode : bool) :
  buildArgs (capabilitiesArguments dev monitorMode)
  = [bytes "-L"; bytes "-Z"; bytes "none"]
    ++ match DeviceName dev with
       | [] => []
       | _ :: _ => [bytes "-i"; DeviceName dev] ++ (if monitorMode then [bytes "-I"] else [])
       end.
Proof.
  unfold capabilitiesArguments, Device_String.
  destruct (DeviceName dev) as [|c name]; destruct monitorMode; reflexivity.
Qed.

Lemma devicesLoop_spec (d : Dumpcap) (getCapabilities : bool)
    (matches : list (list (list byte))) (acc devs : list Device) :
  devicesLoop d getCapabilities matches acc = inl devs
  <-> exists news, devs = acc ++ news
                   /\ Forall2 (deviceOf d getCapabilities) matches news.
Proof.
  revert acc. induction matches as [|fields rest IH]; intros acc; cbn [devicesLoop].
  - split.
    + intros H. injection H as <-. exists []. rewrite app_nil_r. split; constructor.
    + intros (news & -> & H). inversion H. rewrite app_nil_r. reflexivity.
  - destruct (parseDevicesLine fields) as [parsed|e] eqn:Ep.
    + destruct getCapabilities.
      * destruct (Capabilities d parsed false) as [dev' [e|]] eqn:Ec.
        -- split; [discriminate|].
           intros (news & _ & H). inversion H as [|? ? ? ? (p & Hp & Hc) ?]; subst.
           rewrite Ep in Hp. injection Hp as <-. rewrite Ec in Hc. discriminate.
        -- rewrite IH. split.
           ++ intros (news & -> & H). exists (dev' :: news).
              rewrite <- app_assoc. split; [reflexivity|].
              constructor; [|exact H]. exists parsed. auto.
           ++ intros (news & -> & H). inversion H as [|? dev ? news' (p & Hp & Hc) H']; subst.
              rewrite Ep in Hp. injection Hp as <-. rewrite Ec in Hc.
              injection Hc as <-. exists news'. rewrite <- app_assoc. auto.
      * rewrite IH. split.
        -- intros (news & -> & H). exists (parsed :: news).
           rewrite <- app_assoc. split; [reflexivity|].
           constructor; [|exact H]. exists parsed. auto.
        -- intros (news & -> & H). inversion H as [|? dev ? news' (p & Hp & Hc) H']; subst.
           rewrite Ep in Hp. injection Hp as <-.
           exists news'. rewrite <- app_assoc. auto.
    + split; [discriminate|].
      intros (news & _ & H). inversion H as [|? ? ? ? (p & Hp & _) ?]; subst.
      rewrite Ep in Hp. discriminate.
Qed.

(** X26. [Devices] returns a list exactly if the child gives its output
    and every submatch of the expression gives a device; the list then has
    one device for each submatch, in their order: the one that
    [parseDevicesLine] returns, after a call of [Capabilities] without
    monitor mode if capabilities were asked for.  One submatch that is
    refused, or one failing call of [Capabilities], and no device at all is
    returned. *)
Theorem Devices_result (FindAllStringSubmatch : list byte -> list (list (list byte)))
    (d : Dumpcap) (getCapabilities : bool) (devices : list Device) :
  Devices FindAllStringSubmatch d getCapabilities = inl devices
  <-> exists buf,
        Output (newCommand d (Executable d) [bytes "-M"; bytes "-D"]) = Ok buf
        /\ Forall2 (deviceOf d getCapabilities) (FindAllStringSubmatch buf) devices.
Proof.
  unfold Devices.
  change [machineReadableArg; listDevicesCmd] with [bytes "-M"; bytes "-D"].
  destruct (Output _) as [buf|e].
  - rewrite devicesLoop_spec. split.
    + intros (news & -> & H). exists buf. auto.
    + intros (buf' & Hb & H). injection Hb as <-. exists devices. auto.
  - split; [discriminate|]. intros (buf & Hb & _). discriminate.
Qed.

(** X27. Without capabilities asked for, every device that [Devices]
    returns has [CanRFMon] unset and no link-layer types, and there are as
    many devices as submatches. *)
Theorem Devices_without_capabilities
    (FindAllStringSubmatch : list byte -> list (list (list byte)))
    (d : Dumpcap) (devices : list Device) :
  Devices FindAllStringSubmatch d false = inl devices ->
  Forall (fun dev => CanRFMon dev = false /\ LLTs dev = []) devices
  /\ exists buf,
       Output (newCommand d (Executable d) [bytes "-M"; bytes "-D"]) = Ok buf
       /\ length devices = length (FindAllStringSubmatch buf).
Proof.
  unfold Devices.
  change [machineReadableArg; listDevicesCmd] with [bytes "-M"; bytes "-D"].
  destruct (Output _) as [buf|e]; [|discriminate].
  rewrite devicesLoop_spec. intros (news & -> & H). cbn [app]. split.
  - induction H as [|fields dev matches devs (p & Hp & ->) _ IH]; constructor; [|exact IH].
    unfold parseDevicesLine in Hp.
    destruct (negb _); [discriminate|].
    destruct (ParseUint10 _ 0); cbn [bind] in Hp; [|discriminate].
    destruct (ParseUint10 _ 8); cbn [bind] in Hp; [|discriminate].
    injection Hp as <-. split; reflexivity.
  - exists buf. split; [reflexivity|]. symmetry. eapply Forall2_length. exact H.
Qed.

Lemma Devices_without_capabilities_witness :
  Forall (fun dev => CanRFMon dev = false /\ LLTs dev = [])
    [mkDevice 0 (bytes "em1") 1 [] [] [] false false [];
     mkDevice 0 (bytes "lo") 2 [] (bytes "Loopback") [bytes "127.0.0.1"; bytes "::1"]
       true false []].
Proof.
  refine (proj1 (Devices_without_capabilities (fun _ => interfacesFields) mockcap
                   [mkDevice 0 (bytes "em1") 1 [] [] [] false false [];
                    mkDevice 0 (bytes "lo") 2 [] (bytes "Loopback")
                      [bytes "127.0.0.1"; bytes "::1"] true false []] _)).
  reflexivity.
Defined.

(** The devices and the capabilities of the tests. *)
Example Capabilities_of_the_tests :
  Capabilities mockcap (mkDevice 0 (bytes "em1") 0 [] [] [] false false []) false
  = (mkDevice 0 (bytes "em1") 0 [] [] [] false true
       [mkLinkLayerType 1 (bytes "EN10MB") (bytes "Ethernet");
        mkLinkLayerType 143 (bytes "DOCSIS") (bytes "DOCSIS")],
     None).
Proof. reflexivity. Qed.

(** X15. The command is the first element of the command line; in child
    mode it is followed at once by "-Z" and the pipe name "none"; and
    whatever the arguments are, no element after the command is empty. *)
Theorem buildArgs_shape (a : DumpcapArguments) :
  exists rest,
    buildArgs a
    = command a :: (if childMode a then [bytes "-Z"; bytes "none"] else []) ++ rest
    /\ Forall nonEmpty rest.
Proof. exact (buildArgs_head a). Qed.

(** X28. The command line of a capture: whatever command and mode the
    arguments hold, [NewCapture] passes the empty string as the first
    argument, then "-Z" and "none", and after them only arguments that are
    not empty. *)
Theorem NewCapture_command_line (args : DumpcapArguments) :
  exists rest,
    buildArgs (captureArguments args) = [[]; bytes "-Z"; bytes "none"] ++ rest
    /\ Forall nonEmpty rest.
Proof.
  destruct (buildArgs_head (captureArguments args)) as (rest & E & F).
  exists rest. split; [exact E | exact F].
Qed.

(** The command line of [NewStatistics]. *)
Example NewStatistics_command_line :
  buildArgs statisticsArguments = [bytes "-S"; bytes "-Z"; bytes "none"].
Proof. reflexivity. Qed.

Lemma Fetches_first {I S : Type} (fetch : S -> Fetched I S) (i i' : S) (l : list I) :
  Fetches fetch i l i' ->
  match l with
  | [] => i' = i
  | m :: _ => exists i1, fetch i = Item m i1
  end.
Proof.
  induction 1 as [i|i ms i' m0 i'' _ IH Hf].
  - reflexivity.
  - destruct ms as [|m ms]; cbn [app].
    + subst i'. eauto.
    + exact IH.
Qed.

(** X29. [NewCapture] does not wait for a Success message and does not
    look at the type of the first frame: once the child is started, the
    first frame on its standard error, whatever its type, is decoded like
    any other, and its message is the first one that the consumer
    receives. *)
Theorem NewCapture_first_message (d : Dumpcap) (args : DumpcapArguments)
    (s : Session PipeMessage Reader) (t : byte) (payload rest : list byte) (cl : error)
    (sched : list Choice) (m : PipeMessage) (ms : list PipeMessage) :
  StderrPipe (newCommand d (Executable d) (buildArgs (captureArguments args)))
  = Ok (mkReader (encodeFrame t payload ++ rest) cl) ->
  Z.of_nat (length payload) < 2 ^ 24 ->
  startCapture d args = Ok s ->
  received (captureRun s sched) = m :: ms ->
  interpret t (stripNUL payload) = Ok m.
Proof.
  intros Hp Hlen Hs Hr.
  remember (mkReader (encodeFrame t payload ++ rest) cl) as r eqn:Er.
  unfold startCapture in Hs. rewrite Hp in Hs. cbn [bind] in Hs.
  destruct (Start _); [discriminate|]. injection Hs as <-.
  destruct (reachable_deliversInOrder _ _ captureFetch r sched) as (extra & HF & _).
  fold (NewCapture r) in HF. fold (captureRun (NewCapture r) sched) in HF.
  rewrite Hr in HF. apply Fetches_first in HF. cbn [app] in HF.
  destruct HF as (i1 & Hf). unfold captureFetch in Hf. subst r.
  rewrite readPipeMsg_frame in Hf by assumption.
  destruct (interpret t (stripNUL payload)) as [msg|e]; cbn [bind] in Hf.
  - injection Hf as <- _. reflexivity.
  - destruct (_ && _); discriminate.
Qed.

Lemma NewCapture_first_message_witness :
  interpret SuccessMsg (stripNUL (bytes "This is a huge success" ++ [x00]))
  = Ok (mkPipeMessage SuccessMsg 0 0 (bytes "This is a huge success")).
Proof.
  refine (NewCapture_first_message
            (answering SuccessMsg (bytes "This is a huge success" ++ [x00]) layersOutput)
            zeroArguments
            (NewCapture (NewReader (encodeFrame SuccessMsg
                                      (bytes "This is a huge success" ++ [x00]))))
            SuccessMsg (bytes "This is a huge success" ++ [x00]) [] EOF
            [RunTask; Receive]
            (mkPipeMessage SuccessMsg 0 0 (bytes "This is a huge success")) [] _ _ _ _).
  - vm_compute. reflexivity.
  - vm_compute. reflexivity.
  - reflexivity.
  - vm_compute. reflexivity.
Defined.
